(** * gempakio.decode: bit-level decoders and the sounding merge

    A shallow embedding of the parts of [src/gempakio/decode.py] that the
    specification makes claims about:

    - [GempakFile._fortran_ishift], the shift primitive;
    - [GempakFile._unpack_real], the bit-unpacking primitive;
    - [GempakGrid._unpack_grid], the grid payload decoder;
    - [GempakSounding._merge_sounding], the merge of an unmerged sounding.

    Python integers are [Z].  Python floats are modelled by the rationals
    they denote ([Q]): comparisons are exact, rounding of float arithmetic,
    infinities and NaN are outside the model; the conversion of an integer
    too large for a float raises, as it does in Python.  Exceptions are a
    result type. *)

From Stdlib Require Import String ZArith QArith Qabs List Sorted Bool Lia.
Import ListNotations.

Local Open Scope Z_scope.

(** ** Exceptions *)

Inductive error : Type :=
| ZeroDivisionError
| IndexError
| KeyError (key : string)
| ValueError (msg : string)
| TypeError (msg : string)
| NotImplementedError (msg : string)
| EnumValueError (value : Z) (cls : string)
| OverflowError
| StructError
| ReadError.

Inductive result (A : Type) : Type :=
| Ok (a : A)
| Raise (e : error).

Arguments Ok {A} a.
Arguments Raise {A} e.

Definition bind {A B : Type} (m : result A) (k : A -> result B) : result B :=
  match m with
  | Ok a => k a
  | Raise e => Raise e
  end.

Notation "x <- m ;; k" := (bind m (fun x => k))
  (at level 61, m at next level, right associativity).

(** ** Python sequences *)

Section PySeq.
Context {A : Type}.

(** [l[i]]: negative indices count from the end, out of range raises. *)
Definition py_index (l : list A) (i : Z) : result A :=
  let n := Z.of_nat (length l) in
  let j := if i <? 0 then i + n else i in
  if (j <? 0) || (n <=? j) then Raise IndexError
  else match nth_error l (Z.to_nat j) with
       | Some a => Ok a
       | None => Raise IndexError
       end.

(** [l[a:b]] for [0 <= a]: clipped to the sequence, never raises. *)
Definition py_slice (l : list A) (a b : Z) : list A :=
  firstn (Z.to_nat (b - a)) (skipn (Z.to_nat a) l).

(** The store [l[i] = v]: [set_nth] replaces one element, [py_setitem]
    resolves the index as [py_index] does and raises out of range. *)
Fixpoint set_nth (l : list A) (i : nat) (v : A) : list A :=
  match l, i with
  | [], _ => []
  | _ :: t, O => v :: t
  | h :: t, S i' => h :: set_nth t i' v
  end.

Definition py_setitem (l : list A) (i : Z) (v : A) : result (list A) :=
  let n := Z.of_nat (length l) in
  let j := if i <? 0 then i + n else i in
  if (j <? 0) || (n <=? j) then Raise IndexError
  else Ok (set_nth l (Z.to_nat j) v).

(** [l.insert(i, v)]: the index is clipped, it never raises. *)
Definition py_insert (l : list A) (i : Z) (v : A) : list A :=
  let n := Z.of_nat (length l) in
  let j := if i <? 0 then Z.max 0 (i + n) else Z.min i n in
  firstn (Z.to_nat j) l ++ v :: skipn (Z.to_nat j) l.
End PySeq.

(** ** [GempakFile._fortran_ishift] *)

Definition mskpat : Z := 0xffffffff.

(** [ctypes.c_int32(x).value]: the low 32 bits of [x], read as a signed
    two's-complement number. *)
Definition c_int32 (x : Z) : Z :=
  let u := Z.land x mskpat in
  if 0x80000000 <=? u then u - 0x100000000 else u.

(** The final [else: raise ValueError] of the source cannot be reached for
    integers: its three tests exhaust the order on [shift]. *)
Definition _fortran_ishift (i shift : Z) : Z :=
  let mask := 0xffffffff in
  if 0 <? shift then c_int32 (Z.shiftl i shift)
  else if shift <? 0 then
    if i <? 0 then Z.shiftr (Z.land i mask) (Z.abs shift)
    else Z.shiftr i (Z.abs shift)
  else i.

(** ** [GempakFile._unpack_real] *)

(** The parameter table of a part: four parallel lists, as
    [self.parameters[iprt]] holds them. *)
Record parameters : Type := {
  name : list string;
  scale : list Z;
  offset : list Z;
  bits : list Z
}.

Definition sum (l : list Z) : Z := fold_left Z.add l 0.

(** [a // b]: floor division, which [Z.div] is for every non-zero [b]. *)
Definition floordiv (a b : Z) : result Z :=
  if b =? 0 then Raise ZeroDivisionError else Ok (a / b).

(** [np.ones(n) * v]. *)
Definition np_ones_times (n : Z) (v : Q) : result (list Q) :=
  if n <? 0 then Raise (ValueError "negative dimensions are not allowed")
  else Ok (repeat v (Z.to_nat n)).

(** [10**s]: an integer for [0 <= s], the float [1/10**(-s)] otherwise. *)
Definition pow10 (s : Z) : Q := Qpower (inject_Z 10) s.

(** The all-ones pattern a field of a parameter is compared with. *)
Definition imissc_of (bits : Z) : Z := _fortran_ishift mskpat (bits - 32).

(** Lines 437-455: the field of [bits] bits that starts [itotal] bits into
    the group [pdat]. *)
Definition extract_field (pdat : list Z) (itotal bits : Z) : result Z :=
  let isbitc := itotal mod 32 + 1 in
  let iswrdc := itotal / 32 in
  let jbit := bits in
  let jsbit := isbitc in
  let jshift := 1 - jsbit in
  let jsword := iswrdc in
  jword <- py_index pdat jsword ;;
  let mask := _fortran_ishift mskpat (jbit - 32) in
  let ifield := Z.land (_fortran_ishift jword jshift) mask in
  if 32 <? jsbit + jbit - 1 then
    jword <- py_index pdat (jsword + 1) ;;
    let jshift := jshift + 32 in
    let iword := Z.land (_fortran_ishift jword jshift) mask in
    Ok (Z.lor ifield iword)
  else Ok ifield.

(** Lines 457-460: the value that is stored, as a rational.  The
    conversion the store makes, which can raise, is [float_store]. *)
Definition decode_value (missing_float : Q) (ifield imissc offset scale : Z)
  : Q :=
  if ifield =? imissc then missing_float
  else (inject_Z (ifield + offset) * pow10 scale)%Q.

(** [float(v)] of a Python integer, which is also what [v * x] does for a
    float [x] and what the store of [v] into a float64 array does: an
    integer that rounds to [2**1024] or beyond raises [OverflowError]. *)
Definition float_overflows (v : Z) : bool :=
  2 ^ 1024 - 2 ^ 970 <=? Z.abs v.

(** Line 460, [rdat[idata] = (ifield + offset) * scale], where
    [scale = 10**s]: for [0 <= s] the product is an integer, converted
    when it is stored; for [s < 0] [scale] is a float not above [0.1] and
    [ifield + offset] is converted to be multiplied.  The missing value of
    line 458 is a float already. *)
Definition float_store (ifield imissc offset scale : Z) : result unit :=
  if ifield =? imissc then Ok tt
  else
    let v := if 0 <=? scale then (ifield + offset) * 10 ^ scale
             else ifield + offset in
    if float_overflows v then Raise OverflowError else Ok tt.

Section UnpackReal.
Variable missing_float : Q.
Variable buffer : list Z.
Variable parms : parameters.

Let nparms : Z := Z.of_nat (List.length (name parms)).

(** One turn of the inner loop: the value of parameter [idata] and its
    bit width. *)
Definition unpack_parameter (pdat : list Z) (idata itotal : Z)
  : result (Q * Z) :=
  s <- py_index (scale parms) idata ;;
  off <- py_index (offset parms) idata ;;
  b <- py_index (bits parms) idata ;;
  ifield <- extract_field pdat itotal b ;;
  _ <- float_store ifield (imissc_of b) off s ;;
  Ok (decode_value missing_float ifield (imissc_of b) off s, b).

(** The inner loop over [range(nparms)]; [rdat] is a view of [unpacked]
    that starts at [ir], so [rdat[idata] = v] stores at [ir + idata]. *)
Fixpoint unpack_group (pdat : list Z) (ir : Z) (idatas : list nat)
    (itotal : Z) (unpacked : list Q) : result (list Q) :=
  match idatas with
  | [] => Ok unpacked
  | idata :: rest =>
      vb <- unpack_parameter pdat (Z.of_nat idata) itotal ;;
      unpacked <- py_setitem unpacked (ir + Z.of_nat idata) (fst vb) ;;
      unpack_group pdat ir rest (itotal + snd vb) unpacked
  end.

(** The outer loop over [range(npack)]. *)
Fixpoint unpack_groups (pwords : Z) (npack : nat) (ir ii : Z)
    (unpacked : list Q) : result (list Q) :=
  match npack with
  | O => Ok unpacked
  | S n =>
      let pdat := py_slice buffer ii (ii + pwords) in
      unpacked <- unpack_group pdat ir
                    (seq 0 (List.length (name parms))) 0 unpacked ;;
      unpack_groups pwords n (ir + nparms) (ii + pwords) unpacked
  end.

Definition pwords_of : Z := (sum (bits parms) - 1) / 32 + 1.

Definition _unpack_real (length : Z) : result (list Q) :=
  let pwords := pwords_of in
  q <- floordiv (length - 1) pwords ;;
  let npack := q + 1 in
  unpacked <- np_ones_times (npack * nparms) missing_float ;;
  if negb (npack * pwords =? length)
  then Raise (ValueError "Unpacking length mismatch.")
  else unpack_groups pwords (Z.to_nat npack) 0 0 unpacked.
End UnpackReal.

(** The bit offset of parameter [idata] in its group: the widths of the
    parameters before it. *)
Definition bit_offset (parms : parameters) (idata : nat) : Z :=
  sum (firstn idata (bits parms)).


(** What one parameter decodes to. *)
Definition decodes_to (missing_float : Q) (parms : parameters)
    (pdat : list Z) (idata : nat) (v : Q) : Prop :=
  exists s off b ifield,
    nth_error (scale parms) idata = Some s /\
    nth_error (offset parms) idata = Some off /\
    nth_error (bits parms) idata = Some b /\
    extract_field pdat (bit_offset parms idata) b = Ok ifield /\
    v = decode_value missing_float ifield (imissc_of b) off s.

(** ** [GempakGrid._unpack_grid] *)

Module PackingType.
Inductive t : Type := none | grib | nmc | diff | dec | grib2.

Definition value (p : t) : Z :=
  match p with
  | none => 0 | grib => 1 | nmc => 2 | diff => 3 | dec => 4 | grib2 => 5
  end.

Definition name (p : t) : string :=
  match p with
  | none => "none" | grib => "grib" | nmc => "nmc"
  | diff => "diff" | dec => "dec" | grib2 => "grib2"
  end.

(** [PackingType(code)] at line 732: the enumeration's constructor
    raises [ValueError: <code> is not a valid PackingType] for a value
    that no member has. *)
Definition of_code (code : Z) : result t :=
  match code with
  | 0 => Ok none | 1 => Ok grib | 2 => Ok nmc
  | 3 => Ok diff | 4 => Ok dec | 5 => Ok grib2
  | _ => Raise (EnumValueError code "PackingType")
  end.
End PackingType.

Record GridMetaInt : Type := {
  gmi_bits : Z;
  gmi_missing_flag : Z;
  gmi_kxky : Z;
  gmi_kx : Z
}.

Record GridMetaReal : Type := {
  gmr_reference : Q;
  gmr_scale : Q;
  gmr_diffmin : Q
}.

(** The structured reader ([tools.IOBuffer]) is an external collaborator:
    what each read of a cell returns is a parameter of the decoder.
    [read_real n] and [read_int n] are [read_struct] with the formats
    ['{n}f'] and ['{n}i']; the metadata records of [grib]/[dec] do not have
    the fields [kx] and [diffmin], which those branches never use. *)
Record reader : Type := {
  read_real : Z -> result (list Q);
  read_int : Z -> result (list Z);
  read_GridMetaInt : result GridMetaInt;
  read_GridMetaReal : result GridMetaReal
}.

(** [read_struct(struct.Struct('{prefmt}{n}i'))] at lines 607-608 and
    668-671: a negative count makes the format invalid and [struct.Struct]
    raises [struct.error] before anything is read. *)
Definition read_words (rd : reader) (n : Z) : result (list Z) :=
  if n <? 0 then Raise StructError else read_int rd n.

(** [np.zeros(shape)]: a negative dimension raises. *)
Definition np_zeros (shape : list Z) : result (list Q) :=
  if existsb (fun d => d <? 0) shape
  then Raise (ValueError "negative dimensions are not allowed")
  else Ok (repeat 0%Q (Z.to_nat (fold_left Z.mul shape 1))).

(** [2**bits - 1] is a float for a negative [bits], and [idat &= imiss]
    then raises [TypeError]. *)
Definition land_pow2m1 (idat bits : Z) : result Z :=
  if bits <? 0
  then Raise (TypeError "unsupported operand type(s) for &=")
  else Ok (Z.land idat (2 ^ bits - 1)).

(** Lines 618-630 and 677-695: the next field of the packed buffer. *)
Definition grid_field (packed_buffer : list Z) (bits iword ibit : Z)
  : result Z :=
  let jshft := bits + ibit - 33 in
  w <- py_index packed_buffer iword ;;
  idat <- land_pow2m1 (_fortran_ishift w jshft) bits ;;
  if 0 <? jshft then
    let jshft := jshft - 32 in
    w2 <- py_index packed_buffer (iword + 1) ;;
    let idat2 := _fortran_ishift w2 jshft in
    Ok (Z.lor idat idat2)
  else Ok idat.

Definition advance (bits iword ibit : Z) : Z * Z :=
  let ibit := ibit + bits in
  if 32 <? ibit then (iword + 1, ibit - 32) else (iword, ibit).

(** The state of the [diff] loops. *)
Record diff_state : Type := {
  ds_grid : list Q;
  ds_iword : Z;
  ds_ibit : Z;
  ds_first : bool;
  ds_line : bool;
  ds_psav : Q;
  ds_plin : Q
}.

Section UnpackGrid.
Variable missing_float : Q.
Variable data_header_length : Z.
Variable kx ky : Z.
Variable rd : reader.

Definition diff_cell (mi : GridMetaInt) (mr : GridMetaReal)
    (packed_buffer : list Z) (j i : Z) (s : diff_state)
  : result diff_state :=
  let imiss := 2 ^ gmi_bits mi - 1 in
  idat <- grid_field packed_buffer (gmi_bits mi) (ds_iword s) (ds_ibit s) ;;
  let '(iword, ibit) := advance (gmi_bits mi) (ds_iword s) (ds_ibit s) in
  let store v := py_setitem (ds_grid s) (j * kx + i) v in
  if negb (gmi_missing_flag mi =? 0) && (idat =? imiss) then
    g <- store missing_float ;;
    Ok {| ds_grid := g; ds_iword := iword; ds_ibit := ibit;
          ds_first := ds_first s; ds_line := ds_line s;
          ds_psav := ds_psav s; ds_plin := ds_plin s |}
  else if ds_first s then
    g <- store (gmr_reference mr) ;;
    Ok {| ds_grid := g; ds_iword := iword; ds_ibit := ibit;
          ds_first := false; ds_line := true;
          ds_psav := gmr_reference mr; ds_plin := gmr_reference mr |}
  else
    let d := (gmr_diffmin mr + inject_Z idat * gmr_scale mr)%Q in
    if negb (ds_line s) then
      let v := (ds_plin s + d)%Q in
      g <- store v ;;
      Ok {| ds_grid := g; ds_iword := iword; ds_ibit := ibit;
            ds_first := false; ds_line := true;
            ds_psav := v; ds_plin := v |}
    else
      let v := (ds_psav s + d)%Q in
      g <- store v ;;
      Ok {| ds_grid := g; ds_iword := iword; ds_ibit := ibit;
            ds_first := false; ds_line := true;
            ds_psav := v; ds_plin := ds_plin s |}.

Fixpoint diff_row (mi : GridMetaInt) (mr : GridMetaReal)
    (packed_buffer : list Z) (j : Z) (cols : list nat) (s : diff_state)
  : result diff_state :=
  match cols with
  | [] => Ok s
  | i :: rest =>
      s <- diff_cell mi mr packed_buffer j (Z.of_nat i) s ;;
      diff_row mi mr packed_buffer j rest s
  end.

Fixpoint diff_rows (mi : GridMetaInt) (mr : GridMetaReal)
    (packed_buffer : list Z) (js : list nat) (s : diff_state)
  : result diff_state :=
  match js with
  | [] => Ok s
  | j :: rest =>
      let s := {| ds_grid := ds_grid s; ds_iword := ds_iword s;
                  ds_ibit := ds_ibit s; ds_first := ds_first s;
                  ds_line := false;
                  ds_psav := ds_psav s; ds_plin := ds_plin s |} in
      s <- diff_row mi mr packed_buffer (Z.of_nat j)
             (seq 0 (Z.to_nat kx)) s ;;
      diff_rows mi mr packed_buffer rest s
  end.

(** The loop of the [grib]/[dec] branch; the state is the grid and the
    cursor [(iword, ibit)]. *)
Fixpoint grib_cells (mi : GridMetaInt) (mr : GridMetaReal)
    (packed_buffer : list Z) (cells : list nat) (grid : list Q)
    (iword ibit : Z) : result (list Q) :=
  match cells with
  | [] => Ok grid
  | cell :: rest =>
      let imax := 2 ^ gmi_bits mi - 1 in
      idat <- grid_field packed_buffer (gmi_bits mi) iword ibit ;;
      let v := if (idat =? imax) && negb (gmi_missing_flag mi =? 0)
               then missing_float
               else (gmr_reference mr + inject_Z idat * gmr_scale mr)%Q in
      grid <- py_setitem grid (Z.of_nat cell) v ;;
      let '(iword, ibit) := advance (gmi_bits mi) iword ibit in
      grib_cells mi mr packed_buffer rest grid iword ibit
  end.

(** [grid[...] = buffer]: the buffer must have the shape of the grid. *)
Definition np_assign_all (grid buffer : list Q) : result (list Q) :=
  if Nat.eqb (List.length grid) (List.length buffer) then Ok buffer
  else Raise (ValueError "could not broadcast input array").

Definition unpack_diff (header_length : Z) : result (option (list Q)) :=
  mi <- read_GridMetaInt rd ;;
  mr <- read_GridMetaReal rd ;;
  let lendat := data_header_length - header_length - 8 in
  packed_buffer <- read_words rd lendat ;;
  grid <- np_zeros [ky; kx] ;;
  if 1 <? lendat then
    s <- diff_rows mi mr packed_buffer (seq 0 (Z.to_nat ky))
           {| ds_grid := grid; ds_iword := 0; ds_ibit := 1;
              ds_first := true; ds_line := false;
              ds_psav := 0%Q; ds_plin := 0%Q |} ;;
    Ok (Some (ds_grid s))
  else Ok None.

Definition unpack_grib (header_length : Z) : result (option (list Q)) :=
  mi <- read_GridMetaInt rd ;;
  mr <- read_GridMetaReal rd ;;
  let lendat := data_header_length - header_length - 6 in
  grid <- np_zeros [gmi_kxky mi] ;;
  packed_buffer <- read_words rd lendat ;;
  if 1 <? lendat then
    g <- grib_cells mi mr packed_buffer (seq 0 (Z.to_nat (gmi_kxky mi)))
           grid 0 1 ;;
    Ok (Some g)
  else Ok None.

Definition unpack_none (header_length : Z) : result (option (list Q)) :=
  let lendat := data_header_length - header_length - 1 in
  if 1 <? lendat then
    buffer <- read_real rd lendat ;;
    grid <- np_zeros [ky * kx] ;;
    grid <- np_assign_all grid buffer ;;
    Ok (Some grid)
  else Ok None.

(** [None] is the source's [grid = None], "no data".  Every member of
    [PackingType] has a branch, so the last branch of the source (lines
    712-714) is not reached: [to_xarray], the only caller, passes
    [PackingType(code)]. *)
Definition _unpack_grid (packing_type : PackingType.t) (header_length : Z)
  : result (option (list Q)) :=
  match packing_type with
  | PackingType.none => unpack_none header_length
  | PackingType.nmc =>
      Raise (NotImplementedError "NMC unpacking not supported.")
  | PackingType.diff => unpack_diff header_length
  | PackingType.grib | PackingType.dec => unpack_grib header_length
  | PackingType.grib2 =>
      Raise (NotImplementedError "GRIB2 unpacking not supported.")
  end.

(** Lines 732 and 742 of [to_xarray]: the code read from the cell is
    turned into a [PackingType] and handed to the decoder. *)
Definition unpack_cell (code header_length : Z)
  : result (option (list Q)) :=
  packing_type <- PackingType.of_code code ;;
  _unpack_grid packing_type header_length.
End UnpackGrid.

(** The data length [lendat] each decoding branch computes from the two
    header lengths (lines 570, 606 and 667). *)
Definition lendat_of (data_header_length header_length : Z)
    (p : PackingType.t) : option Z :=
  match p with
  | PackingType.none => Some (data_header_length - header_length - 1)
  | PackingType.diff => Some (data_header_length - header_length - 8)
  | PackingType.grib | PackingType.dec =>
      Some (data_header_length - header_length - 6)
  | PackingType.nmc | PackingType.grib2 => None
  end.

(** What a branch does before it tests [lendat]: [diff] and [grib]/[dec]
    read the two metadata records and the packed words and allocate the
    grid; [none] does nothing.  The branch reaches its test when none of
    these raises. *)
Definition reaches_guard (data_header_length kx ky : Z) (rd : reader)
    (header_length : Z) (p : PackingType.t) : Prop :=
  match p with
  | PackingType.none => True
  | PackingType.diff =>
      (exists mi mr pb,
          read_GridMetaInt rd = Ok mi /\ read_GridMetaReal rd = Ok mr /\
          read_int rd (data_header_length - header_length - 8) = Ok pb) /\
      0 <= ky /\ 0 <= kx
  | PackingType.grib | PackingType.dec =>
      exists mi mr pb,
        read_GridMetaInt rd = Ok mi /\ read_GridMetaReal rd = Ok mr /\
        read_int rd (data_header_length - header_length - 6) = Ok pb /\
        0 <= gmi_kxky mi
  | PackingType.nmc | PackingType.grib2 => False
  end.

(** ** [GempakSounding._merge_sounding] *)

(** *** Comparisons of floats and the list operations the merge uses *)

Definition Qltb (a b : Q) : bool := negb (Qle_bool b a).
Definition Qneb (a b : Q) : bool := negb (Qeq_bool a b).

(** [np.isclose(a, b)] with its default tolerances. *)
Definition isclose (a b : Q) : bool :=
  Qle_bool (Qabs (a - b)) ((1 # 100000000) + (1 # 100000) * Qabs b).

(** [x in l]. *)
Definition py_in (x : Q) (l : list Q) : bool := existsb (Qeq_bool x) l.

(** [l.index(x)]: the first position that holds [x]. *)
Fixpoint py_list_index (l : list Q) (x : Q) : result Z :=
  match l with
  | [] => Raise (ValueError "x is not in list")
  | h :: t =>
      if Qeq_bool h x then Ok 0
      else i <- py_list_index t x ;; Ok (i + 1)
  end.

(** [bisect.bisect_left(a, x)]: the binary search of the standard library,
    on whatever list it is given.  The interval [hi - lo] shrinks at every
    turn, so [S (length a)] turns are enough. *)
Fixpoint bisect_loop (fuel : nat) (a : list Q) (x : Q) (lo hi : Z) : Z :=
  match fuel with
  | O => lo
  | S fuel =>
      if lo <? hi then
        let mid := (lo + hi) / 2 in
        match nth_error a (Z.to_nat mid) with
        | Some v =>
            if Qltb v x then bisect_loop fuel a x (mid + 1) hi
            else bisect_loop fuel a x lo mid
        | None => lo
        end
      else lo
  end.

Definition bisect_left (a : list Q) (x : Q) : Z :=
  bisect_loop (S (List.length a)) a x 0 (Z.of_nat (List.length a)).

Definition len {A : Type} (l : list A) : Z := Z.of_nat (List.length l).

(** *** The parts of a sounding and the merged profile *)

Inductive field : Type := PRES | HGHT | TEMP | DWPT | DRCT | SPED.

Inductive part_name : Type :=
| TTAA | PPAA | TRPA | MXWA | TTBB | PPBB
| TTCC | TRPC | MXWC | TTDD | PPDD | PPCC.

Definition field_eqb (a b : field) : bool :=
  match a, b with
  | PRES, PRES | HGHT, HGHT | TEMP, TEMP
  | DWPT, DWPT | DRCT, DRCT | SPED, SPED => true
  | _, _ => false
  end.

Definition part_name_eqb (a b : part_name) : bool :=
  match a, b with
  | TTAA, TTAA | PPAA, PPAA | TRPA, TRPA | MXWA, MXWA
  | TTBB, TTBB | PPBB, PPBB | TTCC, TTCC | TRPC, TRPC
  | MXWC, MXWC | TTDD, TTDD | PPDD, PPDD | PPCC, PPCC => true
  | _, _ => false
  end.

Definition field_str (f : field) : string :=
  match f with
  | PRES => "PRES" | HGHT => "HGHT" | TEMP => "TEMP"
  | DWPT => "DWPT" | DRCT => "DRCT" | SPED => "SPED"
  end.

Definition part_str (n : part_name) : string :=
  match n with
  | TTAA => "TTAA" | PPAA => "PPAA" | TRPA => "TRPA" | MXWA => "MXWA"
  | TTBB => "TTBB" | PPBB => "PPBB" | TTCC => "TTCC" | TRPC => "TRPC"
  | MXWC => "MXWC" | TTDD => "TTDD" | PPDD => "PPDD" | PPCC => "PPCC"
  end.

(** A part is a dictionary from parameter names to the values of that
    parameter at each level, in the order of the parameter table. *)
Definition part : Type := list (field * list Q).

(** The [parts] argument: the station elevation and the parts that the
    cell has data for.  The other header entries ([STID], [DATE], ...) are
    copied to the result and play no part in the merge. *)
Record parts_t : Type := {
  SELV : Q;
  sections : list (part_name * part)
}.

Fixpoint lookup_field (p : part) (f : field) : option (list Q) :=
  match p with
  | [] => None
  | (g, v) :: t => if field_eqb g f then Some v else lookup_field t f
  end.

Fixpoint lookup_part (l : list (part_name * part)) (n : part_name)
  : option part :=
  match l with
  | [] => None
  | (m, p) :: t => if part_name_eqb m n then Some p else lookup_part t n
  end.

(** ['HGHT' in parts['PPBB']] and ['TTAA' in parts]. *)
Definition has_field (p : part) (f : field) : bool :=
  match lookup_field p f with Some _ => true | None => false end.

Definition has_part (parts : parts_t) (n : part_name) : bool :=
  match lookup_part (sections parts) n with Some _ => true | None => false end.

(** [parts[n]] and [p[f]]: a missing key raises. *)
Definition get_part (parts : parts_t) (n : part_name) : result part :=
  match lookup_part (sections parts) n with
  | Some p => Ok p
  | None => Raise (KeyError (part_str n))
  end.

Definition get_field (p : part) (f : field) : result (list Q) :=
  match lookup_field p f with
  | Some v => Ok v
  | None => Raise (KeyError (field_str f))
  end.

(** [parts[n][f]] and [parts[n][f][i]]. *)
Definition col (parts : parts_t) (n : part_name) (f : field)
  : result (list Q) :=
  p <- get_part parts n ;; get_field p f.

Definition at_ (parts : parts_t) (n : part_name) (f : field) (i : Z)
  : result Q :=
  l <- col parts n f ;; py_index l i.

(** [len(parts[n][f]) if n in parts else 0]. *)
Definition num_levels (parts : parts_t) (n : part_name) (f : field)
  : result Z :=
  if has_part parts n then l <- col parts n f ;; Ok (len l) else Ok 0.

(** The merged profile: six index-aligned lists. *)
Record merged_t : Type := {
  mPRES : list Q;
  mHGHT : list Q;
  mTEMP : list Q;
  mDWPT : list Q;
  mDRCT : list Q;
  mSPED : list Q
}.

Definition mget (m : merged_t) (f : field) : list Q :=
  match f with
  | PRES => mPRES m | HGHT => mHGHT m | TEMP => mTEMP m
  | DWPT => mDWPT m | DRCT => mDRCT m | SPED => mSPED m
  end.

Definition mput (m : merged_t) (f : field) (l : list Q) : merged_t :=
  match f with
  | PRES => {| mPRES := l; mHGHT := mHGHT m; mTEMP := mTEMP m;
               mDWPT := mDWPT m; mDRCT := mDRCT m; mSPED := mSPED m |}
  | HGHT => {| mPRES := mPRES m; mHGHT := l; mTEMP := mTEMP m;
               mDWPT := mDWPT m; mDRCT := mDRCT m; mSPED := mSPED m |}
  | TEMP => {| mPRES := mPRES m; mHGHT := mHGHT m; mTEMP := l;
               mDWPT := mDWPT m; mDRCT := mDRCT m; mSPED := mSPED m |}
  | DWPT => {| mPRES := mPRES m; mHGHT := mHGHT m; mTEMP := mTEMP m;
               mDWPT := l; mDRCT := mDRCT m; mSPED := mSPED m |}
  | DRCT => {| mPRES := mPRES m; mHGHT := mHGHT m; mTEMP := mTEMP m;
               mDWPT := mDWPT m; mDRCT := l; mSPED := mSPED m |}
  | SPED => {| mPRES := mPRES m; mHGHT := mHGHT m; mTEMP := mTEMP m;
               mDWPT := mDWPT m; mDRCT := mDRCT m; mSPED := l |}
  end.

(** [merged[f].append(v)], [merged[f][i] = v], [merged[f].insert(loc, v)]
    and [merged[f][i]]. *)
Definition m_append (m : merged_t) (f : field) (v : Q) : merged_t :=
  mput m f (mget m f ++ [v]).

Definition m_set (m : merged_t) (f : field) (i : Z) (v : Q)
  : result merged_t :=
  l <- py_setitem (mget m f) i v ;; Ok (mput m f l).

Definition m_insert (m : merged_t) (f : field) (loc : Z) (v : Q)
  : merged_t :=
  mput m f (py_insert (mget m f) loc v).

Definition m_at (m : merged_t) (f : field) (i : Z) : result Q :=
  py_index (mget m f) i.

(** The profile invariant: the six lists are index-aligned. *)
Definition aligned (m : merged_t) : Prop :=
  List.length (mPRES m) = List.length (mHGHT m) /\
  List.length (mPRES m) = List.length (mTEMP m) /\
  List.length (mPRES m) = List.length (mDWPT m) /\
  List.length (mPRES m) = List.length (mDRCT m) /\
  List.length (mPRES m) = List.length (mSPED m).

Definition alignedb (m : merged_t) : bool :=
  let n := List.length (mPRES m) in
  Nat.eqb n (List.length (mHGHT m)) && Nat.eqb n (List.length (mTEMP m))
  && Nat.eqb n (List.length (mDWPT m)) && Nat.eqb n (List.length (mDRCT m))
  && Nat.eqb n (List.length (mSPED m)).

(** *** Loops *)

Fixpoint for_each {S X : Type} (xs : list X) (f : X -> S -> result S) (s : S)
  : result S :=
  match xs with
  | [] => Ok s
  | x :: rest => s <- f x s ;; for_each rest f s
  end.

(** [range(a, b)] and [enumerate(l)]. *)
Definition range (a b : Z) : list Z :=
  map (fun k => a + Z.of_nat k) (seq 0 (Z.to_nat (b - a))).

Definition enumerate {X : Type} (l : list X) : list (Z * X) :=
  combine (range 0 (len l)) l.

(** Lines 937-953: the number of levels of every part and the vertical
    coordinate of the significant winds. *)
Record counts : Type := {
  num_man_levels : Z;
  num_man_wind_levels : Z;
  num_trop_levels : Z;
  num_max_wind_levels : Z;
  num_sigt_levels : Z;
  num_sigw_levels : Z;
  num_above_man_levels : Z;
  num_above_trop_levels : Z;
  num_above_max_wind_levels : Z;
  num_above_sigt_levels : Z;
  num_above_sigw_levels : Z;
  num_above_man_wind_levels : Z;
  ppbb_is_z : bool;
  ppdd_is_z : bool
}.

(** The loop at lines 974-981 over a zip of three columns: the pressure of
    the first entry whose three values are all present. *)
Fixpoint first_valid (missing_float : Q) (l : list (Q * Q * Q)) : Q :=
  match l with
  | [] => missing_float
  | (mp, mt, mz) :: rest =>
      if Qneb mp missing_float && Qneb mt missing_float
         && Qneb mz missing_float
      then mp
      else first_valid missing_float rest
  end.

Definition zip3 (a b c : list Q) : list (Q * Q * Q) :=
  combine (combine a b) c.

Section MergeSounding.
Variable missing_float : Q.
Variable parts : parts_t.

Let missing (x : Q) : bool := Qeq_bool x missing_float.
Let present (x : Q) : bool := Qneb x missing_float.

Definition count_levels : result counts :=
  n1 <- num_levels parts TTAA PRES ;;
  n2 <- num_levels parts PPAA PRES ;;
  n3 <- num_levels parts TRPA PRES ;;
  n4 <- num_levels parts MXWA PRES ;;
  n5 <- num_levels parts TTBB PRES ;;
  n6 <- num_levels parts PPBB SPED ;;
  n7 <- num_levels parts TTCC PRES ;;
  n8 <- num_levels parts TRPC PRES ;;
  n9 <- num_levels parts MXWC SPED ;;
  n10 <- num_levels parts TTDD PRES ;;
  n11 <- num_levels parts PPDD SPED ;;
  n12 <- num_levels parts PPCC SPED ;;
  ppbb <- get_part parts PPBB ;;
  ppdd <- get_part parts PPDD ;;
  Ok {| num_man_levels := n1; num_man_wind_levels := n2;
        num_trop_levels := n3; num_max_wind_levels := n4;
        num_sigt_levels := n5; num_sigw_levels := n6;
        num_above_man_levels := n7; num_above_trop_levels := n8;
        num_above_max_wind_levels := n9; num_above_sigt_levels := n10;
        num_above_sigw_levels := n11; num_above_man_wind_levels := n12;
        ppbb_is_z := has_field ppbb HGHT;
        ppdd_is_z := has_field ppdd HGHT |}.

(** Lines 955-971: the surface level. *)
Definition seed_surface (c : counts) : result merged_t :=
  m <- (if num_man_levels c <? 1 then
          Ok {| mPRES := [missing_float]; mHGHT := [missing_float];
                mTEMP := [missing_float]; mDWPT := [missing_float];
                mDRCT := [missing_float]; mSPED := [missing_float] |}
        else
          p <- at_ parts TTAA PRES 0 ;;
          h <- at_ parts TTAA HGHT 0 ;;
          t <- at_ parts TTAA TEMP 0 ;;
          d <- at_ parts TTAA DWPT 0 ;;
          dr <- at_ parts TTAA DRCT 0 ;;
          sp <- at_ parts TTAA SPED 0 ;;
          Ok {| mPRES := [p]; mHGHT := [h]; mTEMP := [t];
                mDWPT := [d]; mDRCT := [dr]; mSPED := [sp] |}) ;;
  m_set m HGHT 0 (SELV parts).

(** Lines 973-989: whether the surface level is rejected.  The three
    columns zipped at lines 974-976 are all [parts['TTAA']['PRES']]. *)
Definition first_man_p_of : result Q :=
  a <- col parts TTAA PRES ;;
  b <- col parts TTAA PRES ;;
  c <- col parts TTAA PRES ;;
  Ok (first_valid missing_float (zip3 a b c)).

Definition surface_rejected (m : merged_t) : result bool :=
  first_man_p <- first_man_p_of ;;
  surface_p <- m_at m PRES 0 ;;
  let surface_p :=
    if Qltb (inject_Z 1060) surface_p then missing_float else surface_p in
  Ok (missing surface_p
      || (Qltb surface_p first_man_p && present surface_p)).

Definition set_level_missing (m : merged_t) (i : Z) : result merged_t :=
  m <- m_set m PRES i missing_float ;;
  m <- m_set m HGHT i missing_float ;;
  m <- m_set m TEMP i missing_float ;;
  m <- m_set m DWPT i missing_float ;;
  m <- m_set m DRCT i missing_float ;;
  m_set m SPED i missing_float.

(** Lines 973-995. *)
Definition validate_surface (m : merged_t) : result merged_t :=
  rejected <- surface_rejected m ;;
  if rejected then set_level_missing m 0 else Ok m.

(** Lines 997-1024: the surface from the significant levels. *)
Definition surface_from_sigt (c : counts) (m : merged_t)
  : result merged_t :=
  if 1 <=? num_above_sigt_levels c then
    p <- at_ parts TTBB PRES 0 ;;
    if present p then
      t <- at_ parts TTBB TEMP 0 ;;
      if present t then
        first_man_p <- m_at m PRES 0 ;;
        first_sig_p <- at_ parts TTBB PRES 0 ;;
        if missing first_man_p || isclose first_man_p first_sig_p then
          p <- at_ parts TTBB PRES 0 ;;
          m <- m_set m PRES 0 p ;;
          d <- at_ parts TTBB DWPT 0 ;;
          m <- m_set m DWPT 0 d ;;
          t <- at_ parts TTBB TEMP 0 ;;
          m_set m TEMP 0 t
        else Ok m
      else Ok m
    else Ok m
  else Ok m.

Definition surface_from_sigw (c : counts) (m : merged_t)
  : result merged_t :=
  if ppbb_is_z c then
    if 1 <=? num_above_sigw_levels c then
      h <- at_ parts PPBB HGHT 0 ;;
      if Qeq_bool h 0 then
        d <- at_ parts PPBB DRCT 0 ;;
        if present d then
          d <- at_ parts PPBB DRCT 0 ;;
          m <- m_set m DRCT 0 d ;;
          s <- at_ parts PPBB SPED 0 ;;
          m_set m SPED 0 s
        else Ok m
      else Ok m
    else Ok m
  else
    if 1 <=? num_above_sigw_levels c then
      p <- at_ parts PPBB PRES 0 ;;
      if present p then
        d <- at_ parts PPBB DRCT 0 ;;
        if present d then
          first_man_p <- m_at m PRES 0 ;;
          p <- at_ parts PPBB PRES 0 ;;
          let first_sig_p := Qabs p in
          if missing first_man_p || isclose first_man_p first_sig_p then
            p <- at_ parts PPBB PRES 0 ;;
            m <- m_set m DRCT 0 (Qabs p) ;;
            d <- at_ parts PPBB DRCT 0 ;;
            m <- m_set m DRCT 0 d ;;
            s <- at_ parts PPBB SPED 0 ;;
            m_set m SPED 0 s
          else Ok m
        else Ok m
      else Ok m
    else Ok m.

(** Lines 1035-1038 and 1046-1049: the test an entry of a mandatory
    report must pass, evaluated left to right. *)
Definition man_admissible (n : part_name) (i : Z) (plast : Q)
  : result bool :=
  p <- at_ parts n PRES i ;;
  if Qltb p plast then
    p <- at_ parts n PRES i ;;
    if present p then
      t <- at_ parts n TEMP i ;;
      if present t then
        h <- at_ parts n HGHT i ;;
        Ok (present h)
      else Ok false
    else Ok false
  else Ok false.

(** Lines 1039-1040: [for pname, pval in parts[n].items()]. *)
Definition append_level (n : part_name) (i : Z) (m : merged_t)
  : result merged_t :=
  p <- get_part parts n ;;
  for_each p (fun '(pname, pval) m =>
                v <- py_index pval i ;; Ok (m_append m pname v)) m.

(** One turn of the loops at lines 1034-1043 and 1045-1052; the state is
    the profile, [plast] and [bgl]; only the first loop counts. *)
Definition man_temp_turn (n : part_name) (counting : bool) (i : Z)
    (st : merged_t * Q * Z) : result (merged_t * Q * Z) :=
  let '(m, plast, bgl) := st in
  ok <- man_admissible n i plast ;;
  if ok then
    m <- append_level n i m ;;
    plast <- m_at m PRES (-1) ;;
    Ok (m, plast, bgl)
  else Ok (m, plast, if counting then bgl + 1 else bgl).

(** Lines 1026-1052: the result is the profile and [bgl]. *)
Definition merge_man_temp (c : counts) (m : merged_t)
  : result (merged_t * Z) :=
  let bgl := 0 in
  if (2 <=? num_man_levels c) || (1 <=? num_above_man_levels c) then
    p0 <- m_at m PRES 0 ;;
    let plast := if missing p0 then inject_Z 2000 else p0 in
    st <- for_each (range 1 (num_man_levels c))
            (man_temp_turn TTAA true) (m, plast, bgl) ;;
    st <- for_each (range 1 (num_above_man_levels c))
            (man_temp_turn TTCC false) st ;;
    Ok (fst (fst st), snd st)
  else Ok (m, bgl).

(** Lines 1057-1069 and 1073-1085: one entry of a mandatory wind
    report. *)
Definition man_wind_entry (n : part_name) (e : Z * Q) (m : merged_t)
  : result merged_t :=
  let '(iwind, pres) := e in
  if py_in pres (tl (mPRES m)) then
    loc <- py_list_index (mPRES m) pres ;;
    d <- m_at m DRCT loc ;;
    if missing d then
      dr <- at_ parts n DRCT iwind ;;
      m <- m_set m DRCT loc dr ;;
      sp <- at_ parts n SPED iwind ;;
      m_set m SPED loc sp
    else Ok m
  else
    let size := len (mPRES m) in
    let loc := size - bisect_left (rev (tl (mPRES m))) pres in
    let loc := if size + 1 <=? loc then -1 else loc in
    let m := m_insert m PRES loc pres in
    dr <- at_ parts n DRCT iwind ;;
    let m := m_insert m DRCT loc dr in
    sp <- at_ parts n SPED iwind ;;
    Ok (m_insert m SPED loc sp).

(** Lines 1054-1085. *)
Definition merge_man_wind (c : counts) (m : merged_t) : result merged_t :=
  m <- (if (1 <=? num_man_wind_levels c) && (2 <=? num_man_levels c) then
          l <- col parts PPAA PRES ;;
          for_each (enumerate l) (man_wind_entry PPAA) m
        else Ok m) ;;
  if (1 <=? num_above_man_wind_levels c) && (2 <=? num_man_levels c) then
    l <- col parts PPCC PRES ;;
    for_each (enumerate l) (man_wind_entry PPCC) m
  else Ok m.

(** Lines 921-1085: the merge up to and including the mandatory winds. *)
Definition merge_surface : result merged_t :=
  c <- count_levels ;;
  m <- seed_surface c ;;
  validate_surface m.

Definition merge_to_man_temp : result (merged_t * Z) :=
  c <- count_levels ;;
  m <- seed_surface c ;;
  m <- validate_surface m ;;
  m <- surface_from_sigt c m ;;
  m <- surface_from_sigw c m ;;
  merge_man_temp c m.

Definition merge_to_man_wind : result (merged_t * Z) :=
  c <- count_levels ;;
  mb <- merge_to_man_temp ;;
  m <- merge_man_wind c (fst mb) ;;
  Ok (m, snd mb).
End MergeSounding.

(** *** Significant winds *)

(** The cursor of the merge by height (lines 1355-1385). *)
Record zstate : Type := {
  z_merged : merged_t;
  z_more : bool;
  z_zold : Q;
  z_znxt : Q;
  z_ilev : Z;
  z_size : Z;
  z_above : bool;
  z_i : Z;
  z_iend : Z
}.

Section SigWinds.
Variable missing_float : Q.
Variable parts : parts_t.

Let missing (x : Q) : bool := Qeq_bool x missing_float.
Let present (x : Q) : bool := Qneb x missing_float.

(** Lines 1222-1227: the bottom pressure of the significant winds. *)
Definition sigw_pbot (m : merged_t) : result Q :=
  p0 <- m_at m PRES 0 ;;
  if present p0 then Ok p0
  else if 1 <? len (mPRES m) then m_at m PRES 1
  else Ok 0%Q.

(** Lines 1230-1253 and 1256-1279: one entry of a significant wind
    report on pressure surfaces; the state is the profile and [pbot]. *)
Definition sigw_pres_entry (n : part_name) (e : Z * Q) (st : merged_t * Q)
  : result (merged_t * Q) :=
  let '(isigw, pres) := e in
  let '(m, pbot) := st in
  let pres := Qabs pres in
  valid <- (if present pres then
              d <- at_ parts n DRCT isigw ;;
              if present d then
                s <- at_ parts n SPED isigw ;;
                Ok (present s && Qneb pres 0)
              else Ok false
            else Ok false) ;;
  if valid then
    if Qltb pbot pres then Ok (m, pbot)
    else if py_in pres (mPRES m) then
      ploc <- py_list_index (mPRES m) pres ;;
      d <- m_at m DRCT ploc ;;
      fill <- (if missing d then Ok true
               else s <- m_at m SPED ploc ;; Ok (missing s)) ;;
      if fill then
        dr <- at_ parts n DRCT isigw ;;
        m <- m_set m DRCT ploc dr ;;
        sp <- at_ parts n SPED isigw ;;
        m <- m_set m SPED ploc sp ;;
        Ok (m, pres)
      else Ok (m, pres)
    else
      let size := len (mPRES m) in
      let loc := size - bisect_left (rev (mPRES m)) pres in
      let m := m_insert m PRES loc pres in
      dr <- at_ parts n DRCT isigw ;;
      let m := m_insert m DRCT loc dr in
      sp <- at_ parts n SPED isigw ;;
      let m := m_insert m SPED loc sp in
      let m := m_insert m TEMP loc missing_float in
      let m := m_insert m DWPT loc missing_float in
      let m := m_insert m HGHT loc missing_float in
      Ok (m, pres)
  else Ok (m, pres).

(** Lines 1219-1279; [pbot] is only read after line 1222 has set it. *)
Definition merge_sigw_pres (c : counts) (m : merged_t) : result merged_t :=
  if negb (ppbb_is_z c) || negb (ppdd_is_z c) then
    pbot <- (if (1 <=? num_sigw_levels c) || (1 <=? num_above_sigw_levels c)
             then sigw_pbot m else Ok 0%Q) ;;
    st <- (if (1 <=? num_sigw_levels c) && negb (ppbb_is_z c) then
             l <- col parts PPBB PRES ;;
             for_each (enumerate l) (sigw_pres_entry PPBB) (m, pbot)
           else Ok (m, pbot)) ;;
    st <- (if (1 <=? num_above_sigw_levels c) && negb (ppdd_is_z c) then
             l <- col parts PPDD PRES ;;
             for_each (enumerate l) (sigw_pres_entry PPDD) st
           else Ok st) ;;
    Ok (fst st)
  else Ok m.

(** Lines 1411-1419: the inner loop that moves the cursor up to the
    level pair that brackets [hght].  [ilev] grows at every turn and the
    loop stops when it reaches [size]. *)
Fixpoint climb (fuel : nat) (m : merged_t) (hght : Q) (size : Z)
    (st : bool * Q * Q * Z) : result (bool * Q * Q * Z) :=
  let '(more, zold, znxt, ilev) := st in
  match fuel with
  | O => Ok st
  | S fuel =>
      if more && Qltb znxt hght then
        let zold := znxt in
        let ilev := ilev + 1 in
        if size <=? ilev then climb fuel m hght size (false, zold, znxt, ilev)
        else
          znxt <- m_at m HGHT ilev ;;
          if missing znxt then
            climb fuel m hght size (false, zold, znxt, ilev)
          else climb fuel m hght size (more, zold, znxt, ilev)
      else Ok st
  end.

(** [merged['DRCT'][k] == missing or merged['SPED'][k] == missing]. *)
Definition wind_missing (m : merged_t) (k : Z) : result bool :=
  d <- m_at m DRCT k ;;
  if missing d then Ok true
  else s <- m_at m SPED k ;; Ok (missing s).

Definition set_wind (m : merged_t) (k : Z) (drct sped : Q)
  : result merged_t :=
  m <- m_set m DRCT k drct ;; m_set m SPED k sped.

(** Lines 1421-1435: what is done with an entry that was not skipped. *)
Definition place_entry (m : merged_t) (znxt : Q) (ilev size : Z)
    (hght drct sped : Q) : result (merged_t * Z) :=
  if Qltb (Qabs (znxt - hght)) 1 then
    w <- wind_missing m (ilev - 1) ;;
    if w then m <- set_wind m ilev drct sped ;; Ok (m, size)
    else Ok (m, size)
  else
    let loc := bisect_left (mHGHT m) hght in
    let m := m_insert m HGHT loc hght in
    let m := m_insert m DRCT loc drct in
    let m := m_insert m SPED loc sped in
    let m := m_insert m PRES loc missing_float in
    let m := m_insert m TEMP loc missing_float in
    let m := m_insert m DWPT loc missing_float in
    Ok (m, size + 1).

(** Lines 1388-1442: one turn of the loop over the source entries. *)
Definition sigw_z_turn (nsgw nasw : Z) (s : zstate) : result zstate :=
  let n := if negb (z_above s) then PPBB else PPDD in
  hght <- at_ parts n HGHT (z_i s) ;;
  drct <- at_ parts n DRCT (z_i s) ;;
  sped <- at_ parts n SPED (z_i s) ;;
  let m := z_merged s in
  let ilev := z_ilev s in
  r <- (if missing hght && missing drct && missing sped then
          Ok (m, true, (z_more s, z_zold s, z_znxt s, ilev))
        else if Qltb (Qabs (z_zold s - hght)) 1 then
          w <- wind_missing m (ilev - 1) ;;
          m <- (if w then set_wind m (ilev - 1) drct sped else Ok m) ;;
          Ok (m, true, (z_more s, z_zold s, z_znxt s, ilev))
        else if Qle_bool hght (z_zold s) then
          Ok (m, true, (z_more s, z_zold s, z_znxt s, ilev))
        else if Qle_bool (z_znxt s) hght then
          c <- climb (S (Z.to_nat (z_size s - ilev))) m hght (z_size s)
                 (z_more s, z_zold s, z_znxt s, ilev) ;;
          Ok (m, false, c)
        else Ok (m, false, (z_more s, z_zold s, z_znxt s, ilev))) ;;
  let '(m, skip, (more, zold, znxt, ilev)) := r in
  ms <- (if more && negb skip
         then place_entry m znxt ilev (z_size s) hght drct sped
         else Ok (m, z_size s)) ;;
  let '(m, size) := ms in
  if negb (z_above s) && (z_i s =? nsgw - 1) then
    Ok {| z_merged := m; z_more := more; z_zold := zold; z_znxt := znxt;
          z_ilev := ilev; z_size := size;
          z_above := true; z_i := 0; z_iend := nasw |}
  else
    Ok {| z_merged := m; z_more := more; z_zold := zold; z_znxt := znxt;
          z_ilev := ilev; z_size := size;
          z_above := z_above s; z_i := z_i s + 1; z_iend := z_iend s |}.

(** Line 1387: [while more and i < iend].  Every turn either moves [i]
    up or, once, switches to the second report, so [nsgw + nasw + 1]
    turns are enough. *)
Fixpoint sigw_z_loop (fuel : nat) (nsgw nasw : Z) (s : zstate)
  : result zstate :=
  match fuel with
  | O => Ok s
  | S fuel =>
      if z_more s && (z_i s <? z_iend s) then
        s <- sigw_z_turn nsgw nasw s ;;
        sigw_z_loop fuel nsgw nasw s
      else Ok s
  end.

(** Lines 1347-1385: the start of the cursor.  [ilev] is not bound in the
    source when no level pair exists; the loop is not entered then. *)
Definition sigw_z_start (c : counts) (m : merged_t) : result zstate :=
  let nsgw := if ppbb_is_z c then num_sigw_levels c else 0 in
  let nasw := if ppdd_is_z c then num_above_sigw_levels c else 0 in
  at0 <- (if 1 <=? nsgw
          then h <- at_ parts PPBB HGHT 0 ;; Ok (Qeq_bool h 0)
          else Ok false) ;;
  istart <- (if at0 then Ok 1
             else
               h <- at_ parts PPBB HGHT 0 ;;
               z <- m_at m HGHT 0 ;;
               Ok (if Qeq_bool h z then 1 else 0)) ;;
  let size := len (mHGHT m) in
  psfc <- m_at m PRES 0 ;;
  zsfc <- m_at m HGHT 0 ;;
  cur <- (if (2 <=? size) && present psfc && present zsfc then
            zold <- m_at m HGHT 0 ;;
            znxt <- m_at m HGHT 1 ;;
            Ok (true, zold, znxt, 1)
          else if 3 <=? size then
            zold <- m_at m HGHT 1 ;;
            znxt <- m_at m HGHT 2 ;;
            Ok (true, zold, znxt, 2)
          else Ok (false, missing_float, missing_float, 0)) ;;
  let '(more, zold, znxt, ilev) := cur in
  let more := if missing zold || missing znxt then false else more in
  if istart <=? nsgw then
    Ok {| z_merged := m; z_more := more; z_zold := zold; z_znxt := znxt;
          z_ilev := ilev; z_size := size;
          z_above := false; z_i := istart; z_iend := nsgw |}
  else
    Ok {| z_merged := m; z_more := more; z_zold := zold; z_znxt := znxt;
          z_ilev := ilev; z_size := size;
          z_above := true; z_i := 0; z_iend := nasw |}.

(** Lines 1345-1442. *)
Definition merge_sigw_z (c : counts) (m : merged_t) : result merged_t :=
  if ppbb_is_z c || ppdd_is_z c then
    let nsgw := if ppbb_is_z c then num_sigw_levels c else 0 in
    let nasw := if ppdd_is_z c then num_above_sigw_levels c else 0 in
    s <- sigw_z_start c m ;;
    s <- sigw_z_loop (S (Z.to_nat (Z.max 0 nsgw + Z.max 0 nasw)))
           nsgw nasw s ;;
    Ok (z_merged s)
  else Ok m.
End SigWinds.

(** The number of turns the loop of line 1387 can still make: the entries
    left in the report it reads and, before the switch, those of the
    second report. *)
Definition turns_left (nasw : Z) (s : zstate) : nat :=
  if z_above s then Z.to_nat (z_iend s - z_i s)
  else (Z.to_nat (z_iend s - z_i s) + Z.to_nat nasw)%nat.

(** *** Well-formed parts *)

(** A part is a dictionary: every parameter name is a key at most once. *)
Definition part_wf (p : part) : Prop := NoDup (map fst p).

(** The initial value of [plast] at lines 1029-1032. *)
Definition plast_start (missing_float : Q) (p0 : Q) : Q :=
  if Qeq_bool p0 missing_float then inject_Z 2000 else p0.

(** Strictly decreasing pressures. *)
Definition decreasing (l : list Q) : Prop :=
  StronglySorted (fun a b => (b < a)%Q) l.

(** *** The surface test as the specification words it *)

(** The first valid mandatory pressure of the specification: the pressure
    of the first entry of the mandatory report whose pressure, temperature
    and height are all present. *)
Definition first_man_p_spec (missing_float : Q) (parts : parts_t)
  : result Q :=
  a <- col parts TTAA PRES ;;
  b <- col parts TTAA TEMP ;;
  c <- col parts TTAA HGHT ;;
  Ok (first_valid missing_float (zip3 a b c)).

(** The surface is rejected when its pressure exceeds 1060, is missing, or
    is less than the first valid mandatory pressure. *)
Definition surface_rejected_spec (missing_float : Q) (parts : parts_t)
    (m : merged_t) : result bool :=
  first_man_p <- first_man_p_spec missing_float parts ;;
  surface_p <- m_at m PRES 0 ;;
  Ok (Qltb (inject_Z 1060) surface_p
      || Qeq_bool surface_p missing_float
      || Qltb surface_p first_man_p).

(** *** Soundings used in the statements below *)

Module Example.
Definition missing_float : Q := inject_Z (-9999).

Definition level (p h t d dr s : Z) : list (field * Q) :=
  [(PRES, inject_Z p); (HGHT, inject_Z h); (TEMP, inject_Z t);
   (DWPT, inject_Z d); (DRCT, inject_Z dr); (SPED, inject_Z s)].

(** A part from its levels: the column of [f] is the value of [f] at each
    level. *)
Definition column (f : field) (levels : list (list (field * Q))) : list Q :=
  flat_map (fun l => map snd (filter (fun e => field_eqb (fst e) f) l))
    levels.

Definition part_of (fields : list field) (levels : list (list (field * Q)))
  : part :=
  map (fun f => (f, column f levels)) fields.

Definition all_fields : list field := [PRES; HGHT; TEMP; DWPT; DRCT; SPED].
Definition wind_fields_p : list field := [PRES; DRCT; SPED].
Definition wind_fields_z : list field := [HGHT; DRCT; SPED].

(** Two mandatory levels and a mandatory wind at 700 hPa, a pressure that
    no level of the profile has. *)
Definition man_wind_parts : parts_t :=
  {| SELV := inject_Z 100;
     sections :=
       [(TTAA, part_of all_fields
                 [level 1000 100 20 15 180 5; level 850 1500 10 5 200 10]);
        (PPAA, [(PRES, [inject_Z 700]); (DRCT, [inject_Z 270]);
                (SPED, [inject_Z 20])]);
        (PPBB, part_of wind_fields_p []);
        (PPDD, part_of wind_fields_p [])] |}.

(** A surface report at 900 hPa without a temperature, below a complete
    mandatory level at 1000 hPa. *)
Definition low_surface_parts : parts_t :=
  {| SELV := inject_Z 100;
     sections :=
       [(TTAA, part_of all_fields
                 [level 900 (-9999) (-9999) (-9999) 180 5;
                  level 1000 100 20 15 200 10;
                  level 850 1500 10 5 220 15]);
        (PPBB, part_of wind_fields_p []);
        (PPDD, part_of wind_fields_p [])] |}.

(** Two mandatory levels and one complete level at 70 hPa in the report
    above 100 hPa. *)
Definition above_man_parts : parts_t :=
  {| SELV := inject_Z 100;
     sections :=
       [(TTAA, part_of all_fields
                 [level 1000 100 20 15 180 5; level 850 1500 10 5 200 10]);
        (TTCC, part_of all_fields [level 70 18500 (-60) (-80) 250 30]);
        (PPBB, part_of wind_fields_p []);
        (PPDD, part_of wind_fields_p [])] |}.

(** Three mandatory levels, the one at 950 hPa and 500 m without a wind,
    and a significant wind reported at the height 500 m. *)
Definition sigw_fill_parts : parts_t :=
  {| SELV := inject_Z 100;
     sections :=
       [(TTAA, part_of all_fields
                 [level 1000 100 20 15 180 5;
                  level 950 500 17 12 (-9999) (-9999);
                  level 900 1000 14 9 270 20]);
        (PPBB, [(HGHT, [inject_Z 500]); (DRCT, [inject_Z 90]);
                (SPED, [inject_Z 7])]);
        (PPDD, part_of wind_fields_z [])] |}.

(** The same with a wind at 950 hPa and none at the surface. *)
Definition sigw_overwrite_parts : parts_t :=
  {| SELV := inject_Z 100;
     sections :=
       [(TTAA, part_of all_fields
                 [level 1000 100 20 15 (-9999) (-9999);
                  level 950 500 17 12 200 10;
                  level 900 1000 14 9 270 20]);
        (PPBB, [(HGHT, [inject_Z 500]); (DRCT, [inject_Z 90]);
                (SPED, [inject_Z 7])]);
        (PPDD, part_of wind_fields_z [])] |}.

(** The merge of a sounding up to the mandatory winds followed by the
    merge of the significant winds by height.  For a sounding without
    tropopause, significant temperature and maximum wind parts, and with
    both significant wind parts in height coordinates, the steps of the
    source in between (lines 1087-1343) are all skipped, except for the two
    height interpolators, which fill missing heights only. *)
Definition merge_then_sigw_z (parts : parts_t) : result merged_t :=
  c <- count_levels parts ;;
  mb <- merge_to_man_wind missing_float parts ;;
  merge_sigw_z missing_float parts c (fst mb).
End Example.

(** * The rest of the decoders

    The functions of [decode.py] around the ones above: the conversions of
    header fields, the byte order probe, the position of a cell in the
    data block, the unpacking of the parts of a sounding and the remaining
    steps of [_merge_sounding]. *)

(** ** Positions and pointers *)

Definition BYTES_PER_WORD : Z := 4.

(** [_word_to_position(word, bytes_per_word)]. *)
Definition _word_to_position (word bytes_per_word : Z) : Z :=
  word * bytes_per_word - bytes_per_word.

(** Lines 722-724, 822-824 and 877-879: the word that holds the pointer to
    the data of part [iprt] of the cell in row [irow] and column [icol]. *)
Definition cell_pointer (data_block_ptr columns parts irow icol iprt : Z)
  : Z :=
  data_block_ptr + irow * columns * parts + (icol * parts + iprt).

(** ** [GempakFile._convert_ftime] *)

Module ForecastType.
Inductive t : Type := analysis | forecast | guess | initial.

Definition value (f : t) : Z :=
  match f with
  | analysis => 0 | forecast => 1 | guess => 2 | initial => 3
  end.

Definition name (f : t) : string :=
  match f with
  | analysis => "analysis" | forecast => "forecast"
  | guess => "guess" | initial => "initial"
  end.

(** [ForecastType(code)]. *)
Definition of_code (code : Z) : result t :=
  match code with
  | 0 => Ok analysis | 1 => Ok forecast | 2 => Ok guess | 3 => Ok initial
  | _ => Raise (EnumValueError code "ForecastType")
  end.
End ForecastType.

(** [timedelta(hours=h, minutes=m)], as the number of seconds it lasts. *)
Definition timedelta (hours minutes : Z) : Z := hours * 3600 + minutes * 60.

(** [if ftime:] is false for 0 only. *)
Definition _convert_ftime (ftime : Z) : result (option (string * Z)) :=
  if ftime =? 0 then Ok None
  else
    iftype <- ForecastType.of_code (ftime / 100000) ;;
    let iftime := ftime - ForecastType.value iftype * 100000 in
    let hours := iftime / 100 in
    let minutes := iftime - hours * 100 in
    Ok (Some (ForecastType.name iftype, timedelta hours minutes)).

(** [_convert_level]: [level and level >= 0]. *)
Definition _convert_level (level : Z) : option Z :=
  if negb (level =? 0) && (0 <=? level) then Some level else None.

(** ** [GempakFile._swap_bytes] *)

Inductive byteorder : Type := little | big.

(** [struct.pack('@i', 1)] on a host of the given byte order. *)
Definition pack_one (order : byteorder) : list Z :=
  match order with
  | little => [1; 0; 0; 0]
  | big => [0; 0; 0; 1]
  end.

Fixpoint bytes_eqb (a b : list Z) : bool :=
  match a, b with
  | [], [] => true
  | x :: a, y :: b => (x =? y) && bytes_eqb a b
  | _, _ => false
  end.

(** What [_swap_bytes] sets on the file object. *)
Record byte_config : Type := {
  swaped_bytes : bool;
  prefmt : string;
  endian : byteorder
}.

(** [byteorder] is [sys.byteorder]. *)
Definition _swap_bytes (byteorder : byteorder) (binary : list Z)
  : byte_config :=
  let swaped_bytes := negb (bytes_eqb (pack_one byteorder) binary) in
  if swaped_bytes then
    match byteorder with
    | little => {| swaped_bytes := true; prefmt := ">"; endian := big |}
    | big => {| swaped_bytes := true; prefmt := "<"; endian := little |}
    end
  else {| swaped_bytes := false; prefmt := ""; endian := byteorder |}.

(** ** The parts of a sounding: [_unpack_merged] and [_unpack_unmerged] *)

Module DataTypes.
Inductive t : Type := real | integer | character | realpack | grid.

Definition name (d : t) : string :=
  match d with
  | real => "DataTypes.real" | integer => "DataTypes.integer"
  | character => "DataTypes.character" | realpack => "DataTypes.realpack"
  | grid => "DataTypes.grid"
  end.
End DataTypes.

(** [l[start::step]] for [0 <= start] and [1 <= step]: [every step k l]
    drops [k] elements, keeps one, and goes on dropping [step - 1]. *)
Fixpoint every {A : Type} (step k : nat) (l : list A) : list A :=
  match l with
  | [] => []
  | x :: t =>
      match k with
      | O => x :: every step (step - 1) t
      | S k => every step k t
      end
  end.

Definition py_stride {A : Type} (l : list A) (start step : nat) : list A :=
  every step start l.

(** [for iprm, param in enumerate(names): sounding[param] = values[iprm::nparms]]:
    the entries the loop stores, in order. *)
Definition by_parameter {A : Type} (names : list string) (values : list A)
  : list (string * list A) :=
  map (fun e => (snd e, py_stride values (fst e) (List.length names)))
    (combine (seq 0 (List.length names)) names).

(** Lines 834-859: the entries of one part of a merged sounding. *)
Definition unpack_merged_part (missing_float : Q) (rd : reader)
    (data_type : DataTypes.t) (parms : parameters) (lendat : Z)
  : result (list (string * list Q)) :=
  match data_type with
  | DataTypes.real =>
      packed_buffer <- read_real rd lendat ;;
      Ok (by_parameter (name parms) packed_buffer)
  | DataTypes.realpack =>
      packed_buffer <- read_int rd lendat ;;
      unpacked <- _unpack_real missing_float packed_buffer parms lendat ;;
      Ok (by_parameter (name parms) unpacked)
  | _ =>
      Raise (NotImplementedError
               ("No methods for data type " ++ DataTypes.name data_type))
  end.

(** Lines 889-916: the entries of one part of an unmerged sounding.  The
    test for packed data is made inside the loop over the parameters. *)
Definition unpack_unmerged_part (rd : reader) (data_type : DataTypes.t)
    (parms : parameters) (lendat : Z) : result (list (string * list Q)) :=
  match data_type with
  | DataTypes.real =>
      packed_buffer <- read_real rd lendat ;;
      Ok (by_parameter (name parms) packed_buffer)
  | DataTypes.realpack =>
      packed_buffer <- read_int rd lendat ;;
      match name parms with
      | [] => Ok []
      | _ :: _ =>
          Raise (NotImplementedError
                   "No method to unpack unmerged sounding integers.")
      end
  | _ =>
      Raise (NotImplementedError
               ("No methods for data type " ++ DataTypes.name data_type))
  end.

(** ** The bits of a group of packed words *)

(** The words of a group read as one number, the first word lowest: each
    word contributes its 32-bit two's-complement pattern. *)
Fixpoint bitstream (words : list Z) : Z :=
  match words with
  | [] => 0
  | w :: rest => w mod 2 ^ 32 + 2 ^ 32 * bitstream rest
  end.

(** A word as [struct] unpacks it with the format ['i']. *)
Definition int32 (w : Z) : Prop := - 2 ^ 31 <= w < 2 ^ 31.

(** A parameter table as the header decoder builds it: the four lists have
    one entry for each parameter, there is at least one parameter and every
    field fits a word. *)
Definition table_wf (parms : parameters) : Prop :=
  name parms <> [] /\
  List.length (scale parms) = List.length (name parms) /\
  List.length (offset parms) = List.length (name parms) /\
  List.length (bits parms) = List.length (name parms) /\
  Forall (fun b => 1 <= b <= 32) (bits parms).

(** Offsets that are 32-bit integers, as the header holds them, and
    scales of at most [290]: no value [(ifield + offset) * 10**scale] of a
    field of at most 32 bits is then too large for a float. *)
Definition table_bounded (parms : parameters) : Prop :=
  Forall int32 (offset parms) /\ Forall (fun s => s <= 290) (scale parms).

(** ** The cursor of the grid decoders *)

(** The word and the bit (from 1) at which field number [c] of a stream of
    fields of [bits] bits starts. *)
Definition cursor (bits c : Z) : Z * Z :=
  ((c * bits) / 32, (c * bits) mod 32 + 1).

(** The value the [grib]/[dec] branch stores for a field (lines 686-690). *)
Definition grib_value (missing_float : Q) (mi : GridMetaInt)
    (mr : GridMetaReal) (idat : Z) : Q :=
  if (idat =? 2 ^ gmi_bits mi - 1) && negb (gmi_missing_flag mi =? 0)
  then missing_float
  else (gmr_reference mr + inject_Z idat * gmr_scale mr)%Q.

(** ** The remaining steps of [_merge_sounding] *)

Section MergeRest.
Variable missing_float : Q.
Variable parts : parts_t.

Let missing (x : Q) : bool := Qeq_bool x missing_float.
Let present (x : Q) : bool := Qneb x missing_float.

(** Lines 1088-1096 and 1155-1163: the bottom pressure of the tropopause
    levels ([n] is [TRPA]) and of the significant temperatures ([n] is
    [TTBB]). *)
Definition temp_pbot (n : part_name) (m : merged_t) : result Q :=
  p0 <- m_at m PRES 0 ;;
  if present p0 then Ok p0
  else if 1 <? len (mPRES m) then
    pbot <- m_at m PRES 1 ;;
    p1 <- at_ parts n PRES 1 ;;
    if Qltb pbot p1 then Ok (inject_Z 1050) else Ok pbot
  else Ok (inject_Z 1050).

(** The test of lines 1101-1103 (and 1129-1131, 1168-1170, 1192-1194). *)
Definition temp_entry_valid (n : part_name) (i : Z) (pres : Q)
  : result bool :=
  if present pres then
    t <- at_ parts n TEMP i ;;
    Ok (present t && Qneb pres 0)
  else Ok false.

(** [merged['TEMP'][ploc]] is missing: fill temperature and dew point. *)
Definition fill_temp (n : part_name) (i ploc : Z) (m : merged_t)
  : result merged_t :=
  t0 <- m_at m TEMP ploc ;;
  if missing t0 then
    t <- at_ parts n TEMP i ;;
    m <- m_set m TEMP ploc t ;;
    d <- at_ parts n DWPT i ;;
    m_set m DWPT ploc d
  else Ok m.

(** Lines 1099-1124 and 1127-1152: one tropopause level; the state is the
    profile and [pbot]. *)
Definition trop_entry (n : part_name) (e : Z * Q) (st : merged_t * Q)
  : result (merged_t * Q) :=
  let '(itrp, pres) := e in
  let '(m, pbot) := st in
  let pres := Qabs pres in
  valid <- temp_entry_valid n itrp pres ;;
  if valid then
    if Qltb pbot pres then Ok (m, pbot)
    else if py_in pres (mPRES m) then
      ploc <- py_list_index (mPRES m) pres ;;
      m <- fill_temp n itrp ploc m ;;
      d0 <- m_at m DRCT ploc ;;
      m <- (if missing d0 then
              dr <- at_ parts n DRCT itrp ;;
              m <- m_set m DRCT ploc dr ;;
              sp <- at_ parts n SPED itrp ;;
              m_set m SPED ploc sp
            else Ok m) ;;
      m <- m_set m HGHT ploc missing_float ;;
      Ok (m, pres)
    else
      let size := len (mPRES m) in
      let loc := size - bisect_left (rev (mPRES m)) pres in
      let m := m_insert m PRES loc pres in
      t <- at_ parts n TEMP itrp ;;
      let m := m_insert m TEMP loc t in
      d <- at_ parts n DWPT itrp ;;
      let m := m_insert m DWPT loc d in
      dr <- at_ parts n DRCT itrp ;;
      let m := m_insert m DRCT loc dr in
      sp <- at_ parts n SPED itrp ;;
      let m := m_insert m SPED loc sp in
      let m := m_insert m HGHT loc missing_float in
      Ok (m, pres)
  else Ok (m, pres).

(** Lines 1166-1187 ([above] false) and 1190-1214 ([above] true): one
    significant temperature level.  In the second loop the wind and the
    height of a level that is already there are set to missing. *)
Definition sigt_entry (n : part_name) (above : bool) (e : Z * Q)
    (st : merged_t * Q) : result (merged_t * Q) :=
  let '(isigt, pres) := e in
  let '(m, pbot) := st in
  let pres := Qabs pres in
  valid <- temp_entry_valid n isigt pres ;;
  if valid then
    if Qltb pbot pres then Ok (m, pbot)
    else if py_in pres (mPRES m) then
      ploc <- py_list_index (mPRES m) pres ;;
      m <- fill_temp n isigt ploc m ;;
      m <- (if above then
              m <- m_set m DRCT ploc missing_float ;;
              m <- m_set m SPED ploc missing_float ;;
              m_set m HGHT ploc missing_float
            else Ok m) ;;
      Ok (m, pres)
    else
      let size := len (mPRES m) in
      let loc := size - bisect_left (rev (mPRES m)) pres in
      let m := m_insert m PRES loc pres in
      t <- at_ parts n TEMP isigt ;;
      let m := m_insert m TEMP loc t in
      d <- at_ parts n DWPT isigt ;;
      let m := m_insert m DWPT loc d in
      let m := m_insert m DRCT loc missing_float in
      let m := m_insert m SPED loc missing_float in
      let m := m_insert m HGHT loc missing_float in
      Ok (m, pres)
  else Ok (m, pres).

(** Lines 1087-1152. *)
Definition merge_trop (c : counts) (m : merged_t) : result merged_t :=
  pbot <- (if (1 <=? num_trop_levels c) || (1 <=? num_above_trop_levels c)
           then temp_pbot TRPA m else Ok 0%Q) ;;
  st <- (if 1 <=? num_trop_levels c then
           l <- col parts TRPA PRES ;;
           for_each (enumerate l) (trop_entry TRPA) (m, pbot)
         else Ok (m, pbot)) ;;
  st <- (if 1 <=? num_above_trop_levels c then
           l <- col parts TRPC PRES ;;
           for_each (enumerate l) (trop_entry TRPC) st
         else Ok st) ;;
  Ok (fst st).

(** Lines 1154-1214. *)
Definition merge_sigt (c : counts) (m : merged_t) : result merged_t :=
  pbot <- (if (1 <=? num_sigt_levels c) || (1 <=? num_above_sigt_levels c)
           then temp_pbot TTBB m else Ok 0%Q) ;;
  st <- (if 1 <=? num_sigt_levels c then
           l <- col parts TTBB PRES ;;
           for_each (enumerate l) (sigt_entry TTBB false) (m, pbot)
         else Ok (m, pbot)) ;;
  st <- (if 1 <=? num_above_sigt_levels c then
           l <- col parts TTDD PRES ;;
           for_each (enumerate l) (sigt_entry TTDD true) st
         else Ok st) ;;
  Ok (fst st).

(** Lines 1281-1340: the maximum winds.  The two loops have the body of
    the loops over the significant winds on pressure surfaces
    ([sigw_pres_entry]), on the parts [MXWA] and [MXWC]. *)
Definition merge_max_wind (c : counts) (m : merged_t) : result merged_t :=
  pbot <- (if (1 <=? num_max_wind_levels c)
              || (1 <=? num_above_max_wind_levels c)
           then sigw_pbot missing_float m else Ok 0%Q) ;;
  st <- (if 1 <=? num_max_wind_levels c then
           l <- col parts MXWA PRES ;;
           for_each (enumerate l) (sigw_pres_entry missing_float parts MXWA)
             (m, pbot)
         else Ok (m, pbot)) ;;
  st <- (if 1 <=? num_above_max_wind_levels c then
           l <- col parts MXWC PRES ;;
           for_each (enumerate l) (sigw_pres_entry missing_float parts MXWC)
             st
         else Ok st) ;;
  Ok (fst st).

(** Lines 1453-1463: one mandatory level below the ground.  [size] is the
    local variable of that name, which this step reads before it writes it:
    the last insertion of an earlier step, or line 1355, has bound it.  The
    step is modelled from a bound [size]. *)
Definition below_ground_entry (ibgl : Z) (st : merged_t * Z)
  : result (merged_t * Z) :=
  let '(m, size) := st in
  pres <- at_ parts TTAA PRES ibgl ;;
  p0 <- m_at m PRES 0 ;;
  if Qltb p0 pres then
    let loc := size - bisect_left (rev (tl (mPRES m))) pres in
    let m := m_insert m PRES loc pres in
    t <- at_ parts TTAA TEMP ibgl ;;
    let m := m_insert m TEMP loc t in
    d <- at_ parts TTAA DWPT ibgl ;;
    let m := m_insert m DWPT loc d in
    dr <- at_ parts TTAA DRCT ibgl ;;
    let m := m_insert m DRCT loc dr in
    sp <- at_ parts TTAA SPED ibgl ;;
    let m := m_insert m SPED loc sp in
    h <- at_ parts TTAA HGHT ibgl ;;
    let m := m_insert m HGHT loc h in
    Ok (m, size + 1)
  else Ok (m, size).

(** Lines 1450-1463. *)
Definition merge_below_ground (c : counts) (bgl : Z) (st : merged_t * Z)
  : result (merged_t * Z) :=
  p0 <- m_at (fst st) PRES 0 ;;
  if present p0 then
    if 0 <? bgl then
      for_each (range 1 (num_man_levels c)) below_ground_entry st
    else Ok st
  else Ok st.

(** Lines 1087-1214: the tropopause levels and the significant
    temperatures, which follow each other in the source. *)
Definition merge_trop_sigt (c : counts) (m : merged_t) : result merged_t :=
  m <- merge_trop c m ;; merge_sigt c m.

(** Lines 1219-1340: the significant winds on pressure surfaces and the
    maximum winds. *)
Definition merge_sigw_max_wind (c : counts) (m : merged_t)
  : result merged_t :=
  m <- merge_sigw_pres missing_float parts c m ;; merge_max_wind c m.
End MergeRest.

(** What an entry of a part does to the pressures: nothing, or the
    insertion by reverse bisection of a pressure that is not there yet. *)
Definition pressures_step (l l' : list Q) : Prop :=
  l' = l \/
  exists x, py_in x l = false /\
            l' = py_insert l (len l - bisect_left (rev l) x) x.

(** ** A sounding with every kind of part *)

Module Full.
Definition missing_float : Q := Example.missing_float.

Definition parts : parts_t :=
  {| SELV := inject_Z 100;
     sections :=
       [(TTAA, Example.part_of Example.all_fields
                 [Example.level 1000 100 20 15 180 5;
                  Example.level 850 1500 10 5 200 10;
                  Example.level 700 3000 0 (-10) 230 20]);
        (TRPA, [(PRES, [inject_Z 200]); (TEMP, [inject_Z (-55)]);
                (DWPT, [inject_Z (-70)]); (DRCT, [inject_Z 270]);
                (SPED, [inject_Z 40])]);
        (TTBB, [(PRES, [inject_Z 1000; inject_Z 925]);
                (TEMP, [inject_Z 20; inject_Z 15]);
                (DWPT, [inject_Z 15; inject_Z 10])]);
        (PPBB, [(PRES, [inject_Z 900]); (DRCT, [inject_Z 190]);
                (SPED, [inject_Z 8])]);
        (PPDD, Example.part_of Example.wind_fields_p []);
        (MXWA, [(PRES, [inject_Z 250]); (DRCT, [inject_Z 280]);
                (SPED, [inject_Z 60])])] |}.

Definition unwrap {A : Type} (d : A) (r : result A) : A :=
  match r with Ok a => a | Raise _ => d end.

Definition no_counts : counts :=
  {| num_man_levels := 0; num_man_wind_levels := 0; num_trop_levels := 0;
     num_max_wind_levels := 0; num_sigt_levels := 0; num_sigw_levels := 0;
     num_above_man_levels := 0; num_above_trop_levels := 0;
     num_above_max_wind_levels := 0; num_above_sigt_levels := 0;
     num_above_sigw_levels := 0; num_above_man_wind_levels := 0;
     ppbb_is_z := false; ppdd_is_z := false |}.

Definition no_levels : merged_t :=
  {| mPRES := []; mHGHT := []; mTEMP := []; mDWPT := [];
     mDRCT := []; mSPED := [] |}.

(** The counts of the parts, and the profile after the mandatory
    temperatures, after the significant temperatures and after the maximum
    winds (the interpolation of the heights in between left out). *)
Definition c : counts :=
  Eval vm_compute in unwrap no_counts (count_levels parts).

Definition after_man_temp : merged_t :=
  Eval vm_compute in
    unwrap no_levels
      (mb <- merge_to_man_temp missing_float parts ;; Ok (fst mb)).

Definition after_sigt : merged_t :=
  Eval vm_compute in
    unwrap no_levels (merge_trop_sigt missing_float parts c after_man_temp).

Definition after_max_wind : merged_t :=
  Eval vm_compute in
    unwrap no_levels (merge_sigw_max_wind missing_float parts c after_sigt).
End Full.

(** ** A sounding with a significant wind between two mandatory levels *)

Module ByHeight.
Definition missing_float : Q := Example.missing_float.

Definition parts : parts_t :=
  {| SELV := inject_Z 100;
     sections :=
       [(TTAA, Example.part_of Example.all_fields
                 [Example.level 1000 100 20 15 180 5;
                  Example.level 950 500 17 12 200 10;
                  Example.level 900 1000 14 9 270 20]);
        (PPBB, [(HGHT, [inject_Z 700]); (DRCT, [inject_Z 90]);
                (SPED, [inject_Z 7])]);
        (PPDD, Example.part_of Example.wind_fields_z [])] |}.

Definition no_state : zstate :=
  {| z_merged := Full.no_levels; z_more := false; z_zold := 0; z_znxt := 0;
     z_ilev := 0; z_size := 0; z_above := false; z_i := 0; z_iend := 0 |}.

Definition c : counts :=
  Eval vm_compute in Full.unwrap Full.no_counts (count_levels parts).

(** The profile after the mandatory winds, the state in which the loop
    over the significant winds starts and the one in which it ends. *)
Definition after_man_wind : merged_t :=
  Eval vm_compute in
    Full.unwrap Full.no_levels
      (mb <- merge_to_man_wind missing_float parts ;; Ok (fst mb)).

Definition start : zstate :=
  Eval vm_compute in
    Full.unwrap no_state (sigw_z_start missing_float parts c after_man_wind).

Definition finish : zstate :=
  Eval vm_compute in
    Full.unwrap no_state (sigw_z_loop missing_float parts 2 1 0 start).
End ByHeight.

(** Pressures that never increase. *)
Definition nonincreasing (l : list Q) : Prop :=
  StronglySorted (fun a b => (b <= a)%Q) l.

(** ** A sounding with a mandatory level below the ground *)

Module BelowGround.
Definition missing_float : Q := Example.missing_float.

(** The surface is at 990 hPa: the mandatory level of 1000 hPa is below
    the ground. *)
Definition parts : parts_t :=
  {| SELV := inject_Z 100;
     sections :=
       [(TTAA, Example.part_of Example.all_fields
                 [Example.level 990 100 20 15 180 5;
                  Example.level 1000 20 21 16 170 4;
                  Example.level 925 700 15 10 200 10;
                  Example.level 850 1500 10 5 230 20]);
        (PPBB, Example.part_of Example.wind_fields_p []);
        (PPDD, Example.part_of Example.wind_fields_p [])] |}.

Definition c : counts :=
  Eval vm_compute in Full.unwrap Full.no_counts (count_levels parts).

Definition no_result : merged_t * Z := (Full.no_levels, 0).

(** The profile and the count of the levels below the ground after the
    mandatory temperatures. *)
Definition after_man_temp : merged_t * Z :=
  Eval vm_compute in
    Full.unwrap no_result (merge_to_man_temp missing_float parts).

(** The last step from a counter that is the number of levels, and from a
    counter that is one short of it. *)
Definition counted : merged_t * Z :=
  Eval vm_compute in
    Full.unwrap no_result
      (merge_below_ground missing_float parts c (snd after_man_temp)
         (fst after_man_temp, 3)).

Definition stale : merged_t * Z :=
  Eval vm_compute in
    Full.unwrap no_result
      (below_ground_entry parts 1 (fst after_man_temp, 2)).
End BelowGround.

(** A part with the six parameters of the merged profile, as the
    mandatory reports have them. *)
Definition complete (p : part) : Prop := forall f, has_field p f = true.

(** ** The [diff] decoder, cell by cell *)

(** The field of cell number [c], counted row by row. *)
Definition diff_field (mi : GridMetaInt) (packed_buffer : list Z) (c : nat)
  : result Z :=
  grid_field packed_buffer (gmi_bits mi)
    (fst (cursor (gmi_bits mi) (Z.of_nat c)))
    (snd (cursor (gmi_bits mi) (Z.of_nat c))).

(** The value of the cell of row [j] and column [i] of a grid of rows of
    [w] cells without missing values, from the cells before it: the
    reference for the first cell, the first cell of the row above plus the
    difference for the first cell of a row, the cell to the left plus the
    difference for any other. *)
Definition diff_value (mr : GridMetaReal) (w : nat) (grid : list Q)
    (j i : nat) (idat : Z) : Q :=
  let d := (gmr_diffmin mr + inject_Z idat * gmr_scale mr)%Q in
  match i, j with
  | O, O => gmr_reference mr
  | O, S j' => (nth (j' * w) grid 0 + d)%Q
  | S i', _ => (nth (j * w + i') grid 0 + d)%Q
  end.

Definition diff_cell_ok (mi : GridMetaInt) (mr : GridMetaReal)
    (packed_buffer : list Z) (w : nat) (grid : list Q) (j i : nat) : Prop :=
  exists idat,
    diff_field mi packed_buffer (j * w + i) = Ok idat /\
    nth_error grid (j * w + i) = Some (diff_value mr w grid j i idat).

(** The state of the loops when the rows before [j] and the first [i]
    cells of row [j] are done. *)
Definition diff_inv (mi : GridMetaInt) (mr : GridMetaReal)
    (packed_buffer : list Z) (w : nat) (j i : nat) (s : diff_state)
  : Prop :=
  (ds_iword s, ds_ibit s) = cursor (gmi_bits mi) (Z.of_nat (j * w + i)) /\
  ds_first s = (Nat.eqb j 0 && Nat.eqb i 0) /\
  ((0 < i)%nat ->
     ds_psav s = nth (j * w + i - 1) (ds_grid s) 0%Q /\
     ds_plin s = nth (j * w) (ds_grid s) 0%Q) /\
  (i = 0%nat -> (0 < j)%nat ->
     ds_plin s = nth ((j - 1) * w) (ds_grid s) 0%Q) /\
  (forall j' i', (i' < w)%nat -> (j' < j)%nat \/ (j' = j /\ (i' < i)%nat) ->
     diff_cell_ok mi mr packed_buffer w (ds_grid s) j' i').

(** Heights that never decrease. *)
Definition nondecreasing (l : list Q) : Prop := StronglySorted Qle l.

(** The test of line 1454 on entry [ibgl] of the mandatory report against
    the surface pressure [p0]; the levels the last step inserts are the
    entries that pass it. *)
Definition is_below_ground (parts : parts_t) (p0 : Q) (ibgl : Z) : bool :=
  match at_ parts TTAA PRES ibgl with
  | Ok pres => Qltb p0 pres
  | Raise _ => false
  end.

(** * Properties *)

(** ** Python sequences *)

Section PySeqFacts.
Context {A : Type}.

Lemma set_nth_length (l : list A) (i : nat) (v : A) :
  List.length (set_nth l i v) = List.length l.
Proof.
  revert i; induction l as [|h t IH]; intros [|i]; simpl; auto.
Qed.

Lemma set_nth_same (l : list A) (i : nat) (v : A) :
  (i < List.length l)%nat -> nth_error (set_nth l i v) i = Some v.
Proof.
  revert i; induction l as [|h t IH]; intros [|i] H; simpl in *;
    try lia; auto.
  apply IH; lia.
Qed.

Lemma set_nth_other (l : list A) (i j : nat) (v : A) :
  i <> j -> nth_error (set_nth l i v) j = nth_error l j.
Proof.
  revert i j; induction l as [|h t IH]; intros [|i] [|j] H; simpl;
    try congruence; auto.
Qed.

Lemma py_setitem_length (l l' : list A) (i : Z) (v : A) :
  py_setitem l i v = Ok l' -> List.length l' = List.length l.
Proof.
  unfold py_setitem.
  destruct (_ || _); [discriminate|].
  intros [= <-]. apply set_nth_length.
Qed.

Lemma py_insert_length (l : list A) (i : Z) (v : A) :
  List.length (py_insert l i v) = S (List.length l).
Proof.
  unfold py_insert.
  set (j := Z.to_nat _).
  rewrite <- (firstn_skipn j l) at 3.
  rewrite !length_app. simpl. lia.
Qed.
End PySeqFacts.

(** ** The shift primitive *)

Lemma mskpat_ones : mskpat = Z.ones 32.
Proof. reflexivity. Qed.

Lemma c_int32_range (x : Z) : - 2 ^ 31 <= c_int32 x < 2 ^ 31.
Proof.
  unfold c_int32. rewrite mskpat_ones, Z.land_ones by lia.
  pose proof (Z.mod_pos_bound x (2 ^ 32) ltac:(lia)).
  cbv zeta. destruct (Z.leb_spec 0x80000000 (x mod 2 ^ 32)); lia.
Qed.

Lemma c_int32_congr (x : Z) : c_int32 x mod 2 ^ 32 = x mod 2 ^ 32.
Proof.
  unfold c_int32. rewrite mskpat_ones, Z.land_ones by lia.
  cbv zeta. destruct (Z.leb_spec 0x80000000 (x mod 2 ^ 32)).
  - replace (x mod 2 ^ 32 - 0x100000000)
      with (x mod 2 ^ 32 + (-1) * 2 ^ 32) by lia.
    rewrite Z.mod_add by lia. apply Z.mod_mod. lia.
  - apply Z.mod_mod. lia.
Qed.

(** C5.  [_fortran_ishift] on a signed 32-bit integer [i]: a positive shift
    is the left shift wrapped modulo [2^32] and read back as a signed
    32-bit number; a negative shift of a negative [i] is the logical right
    shift of its 32-bit two's-complement pattern [i + 2^32]; a negative
    shift of a non-negative [i] is the plain right shift; a zero shift
    returns [i]. *)
Theorem fortran_ishift_semantics (i shift : Z) :
  - 2 ^ 31 <= i < 2 ^ 31 ->
  (0 < shift ->
     - 2 ^ 31 <= _fortran_ishift i shift < 2 ^ 31 /\
     _fortran_ishift i shift mod 2 ^ 32 = (i * 2 ^ shift) mod 2 ^ 32) /\
  (shift < 0 -> i < 0 ->
     _fortran_ishift i shift = (i + 2 ^ 32) / 2 ^ (- shift)) /\
  (shift < 0 -> 0 <= i ->
     _fortran_ishift i shift = i / 2 ^ (- shift)) /\
  (shift = 0 -> _fortran_ishift i shift = i).
Proof.
  intros Hi. unfold _fortran_ishift. repeat split.
  - destruct (Z.ltb_spec 0 shift); [|lia]. apply c_int32_range.
  - destruct (Z.ltb_spec 0 shift); [|lia]. apply c_int32_range.
  - destruct (Z.ltb_spec 0 shift); [|lia].
    rewrite c_int32_congr, Z.shiftl_mul_pow2 by lia. reflexivity.
  - intros Hs Hneg.
    destruct (Z.ltb_spec 0 shift); [lia|].
    destruct (Z.ltb_spec shift 0); [|lia].
    destruct (Z.ltb_spec i 0); [|lia].
    change 0xffffffff with (Z.ones 32).
    rewrite Z.land_ones, Z.shiftr_div_pow2 by lia.
    rewrite Z.abs_neq by lia.
    f_equal.
    rewrite <- (Z.mod_add i 1 (2 ^ 32)) by lia.
    apply Z.mod_small. lia.
  - intros Hs Hpos.
    destruct (Z.ltb_spec 0 shift); [lia|].
    destruct (Z.ltb_spec shift 0); [|lia].
    destruct (Z.ltb_spec i 0); [lia|].
    rewrite Z.shiftr_div_pow2, Z.abs_neq by lia. reflexivity.
  - intros ->. reflexivity.
Qed.

Lemma fortran_ishift_semantics_witness :
  _fortran_ishift (-1) (-28) = 15 /\
  _fortran_ishift 0x40000001 1 = - 2 ^ 31 + 2.
Proof.
  pose proof (fortran_ishift_semantics (-1) (-28) ltac:(lia))
    as (_ & Hneg & _ & _).
  pose proof (fortran_ishift_semantics 0x40000001 1 ltac:(lia))
    as (Hleft & _).
  split.
  - rewrite Hneg by lia. reflexivity.
  - reflexivity.
Defined.

(** ** The bit-unpacking primitive *)

Lemma bind_ok {A B : Type} (m : result A) (k : A -> result B) (b : B) :
  bind m k = Ok b -> exists a, m = Ok a /\ k a = Ok b.
Proof. destruct m as [a|e]; simpl; [eauto | discriminate]. Qed.


Lemma py_index_nat {A : Type} (l : list A) (k : nat) (a : A) :
  py_index l (Z.of_nat k) = Ok a <-> nth_error l k = Some a.
Proof.
  unfold py_index.
  destruct (Z.ltb_spec (Z.of_nat k) 0); [lia|].
  rewrite Nat2Z.id.
  destruct (Z.ltb_spec (Z.of_nat k) 0); [lia|]. simpl.
  destruct (Z.leb_spec (Z.of_nat (List.length l)) (Z.of_nat k)).
  - split; [discriminate|]. intros Hn.
    apply nth_error_Some_lt in Hn || (assert (nth_error l k <> None) as Hs
      by congruence; apply nth_error_Some in Hs); lia.
  - destruct (nth_error l k) eqn:E; split; congruence.
Qed.



Lemma py_setitem_nat {A : Type} (l l' : list A) (k : Z) (v : A) :
  0 <= k -> py_setitem l k v = Ok l' ->
  l' = set_nth l (Z.to_nat k) v /\ (Z.to_nat k < List.length l)%nat.
Proof.
  intros Hk. unfold py_setitem.
  destruct (Z.ltb_spec k 0); [lia|].
  destruct (Z.ltb_spec k 0); [lia|]. simpl.
  destruct (Z.leb_spec (Z.of_nat (List.length l)) k); [discriminate|].
  intros [= <-]. split; [reflexivity | lia].
Qed.

Lemma fold_left_add_init (l : list Z) (a : Z) :
  fold_left Z.add l a = a + fold_left Z.add l 0.
Proof.
  revert a; induction l as [|h t IH]; intros a; simpl; [lia|].
  rewrite (IH (a + h)), (IH h). lia.
Qed.

Lemma sum_app (l1 l2 : list Z) : sum (l1 ++ l2) = sum l1 + sum l2.
Proof.
  unfold sum. rewrite fold_left_app.
  apply fold_left_add_init.
Qed.

Lemma firstn_succ_nth {A : Type} (l : list A) (k : nat) (a : A) :
  nth_error l k = Some a -> firstn (S k) l = firstn k l ++ [a].
Proof.
  revert k; induction l as [|h t IH]; intros [|k] H; simpl in *;
    try discriminate.
  - now inversion H.
  - f_equal. now apply IH.
Qed.

Lemma bit_offset_succ (parms : parameters) (k : nat) (b : Z) :
  nth_error (bits parms) k = Some b ->
  bit_offset parms (S k) = bit_offset parms k + b.
Proof.
  intros H. unfold bit_offset.
  rewrite (firstn_succ_nth _ _ _ H), sum_app. unfold sum; simpl. lia.
Qed.

Lemma unpack_parameter_ok (missing_float : Q) (parms : parameters)
    (pdat : list Z) (idata : nat) (v : Q) (b : Z) :
  unpack_parameter missing_float parms pdat (Z.of_nat idata)
    (bit_offset parms idata) = Ok (v, b) ->
  decodes_to missing_float parms pdat idata v /\
  nth_error (bits parms) idata = Some b.
Proof.
  unfold unpack_parameter. intros H.
  apply bind_ok in H as (s & Hs & H).
  apply bind_ok in H as (off & Hoff & H).
  apply bind_ok in H as (b' & Hb & H).
  apply bind_ok in H as (ifield & Hf & H).
  apply bind_ok in H as (_ & _ & H).
  injection H as <- <-.
  apply py_index_nat in Hs, Hoff, Hb.
  split; [|assumption].
  exists s, off, b', ifield. auto.
Qed.

Section UnpackRealFacts.
Variable missing_float : Q.
Variable buffer : list Z.
Variable parms : parameters.

Let nparms : nat := List.length (name parms).

(** The inner loop stores the value of each parameter it visits at its
    own position and leaves every other position as it was. *)
Lemma unpack_group_spec (pdat : list Z) (ir : nat) (n k : nat)
    (u out : list Q) :
  unpack_group missing_float parms pdat (Z.of_nat ir) (seq k n)
    (bit_offset parms k) u = Ok out ->
  List.length out = List.length u /\
  (forall idata, (k <= idata < k + n)%nat ->
     exists v, nth_error out (ir + idata) = Some v /\
               decodes_to missing_float parms pdat idata v) /\
  (forall j, ~ (ir + k <= j < ir + k + n)%nat ->
     nth_error out j = nth_error u j).
Proof.
  revert k u. induction n as [|n IH]; intros k u H; simpl in H.
  - injection H as <-. repeat split; auto. intros; lia.
  - apply bind_ok in H as ([v b] & Hp & H).
    apply bind_ok in H as (u' & Hset & H). simpl in H.
    apply unpack_parameter_ok in Hp as (Hdec & Hb).
    rewrite <- (bit_offset_succ _ _ _ Hb) in H.
    apply IH in H as (Hlen & Hin & Hout).
    replace (Z.of_nat ir + Z.of_nat k) with (Z.of_nat (ir + k)) in Hset
      by lia.
    apply py_setitem_nat in Hset as (-> & Hlt); [|lia].
    rewrite Nat2Z.id in *. simpl in *.
    rewrite set_nth_length in Hlen.
    repeat split; [assumption | |].
    + intros idata Hr.
      destruct (Nat.eq_dec idata k) as [->|Hne].
      * exists v. split; [|assumption].
        rewrite Hout by lia. now apply set_nth_same.
      * apply Hin. lia.
    + intros j Hj. rewrite Hout by lia.
      apply set_nth_other. lia.
Qed.


(** The outer loop: group [g], counted from the group the loop starts
    with, fills the positions [ir + g * nparms ..] from the words
    [ii + g * pwords ..]. *)
Lemma unpack_groups_spec (pwords : Z) (npack : nat) (ir : nat) (ii : Z)
    (u out : list Q) :
  unpack_groups missing_float buffer parms pwords npack
    (Z.of_nat ir) ii u = Ok out ->
  List.length out = List.length u /\
  (forall g idata, (g < npack)%nat -> (idata < nparms)%nat ->
     exists v,
       nth_error out (ir + g * nparms + idata) = Some v /\
       decodes_to missing_float parms
         (py_slice buffer (ii + Z.of_nat g * pwords)
            (ii + Z.of_nat g * pwords + pwords)) idata v) /\
  (forall j, ~ (ir <= j < ir + npack * nparms)%nat ->
     nth_error out j = nth_error u j).
Proof.
  revert ir ii u. induction npack as [|n IH]; intros ir ii u H;
    simpl in H.
  - injection H as <-. repeat split; auto. intros; lia.
  - apply bind_ok in H as (u' & Hg & H).
    change 0 with (bit_offset parms 0) in Hg.
    apply unpack_group_spec in Hg as (Hlen1 & Hin1 & Hout1).
    fold nparms in Hin1, Hout1, H.
    replace (Z.of_nat ir + Z.of_nat nparms)
      with (Z.of_nat (ir + nparms)) in H by lia.
    apply IH in H as (Hlen2 & Hin2 & Hout2).
    repeat split; [congruence | |].
    + intros [|g] idata Hg Hi.
      * rewrite Hout2 by lia.
        replace (ir + 0 * nparms + idata)%nat with (ir + idata)%nat
          by lia.
        replace (ii + Z.of_nat 0 * pwords) with ii by lia.
        apply Hin1. lia.
      * destruct (Hin2 g idata ltac:(lia) Hi) as (v & Hv & Hd).
        exists v. split.
        -- rewrite <- Hv. f_equal. lia.
        -- replace (ii + Z.of_nat (S g) * pwords)
             with (ii + pwords + Z.of_nat g * pwords) by lia.
           exact Hd.
    + intros j Hj. rewrite Hout2 by lia. apply Hout1.
      simpl in Hj. lia.
Qed.

End UnpackRealFacts.

Lemma pwords_ceil (parms : parameters) :
  32 * (pwords_of parms - 1) < sum (bits parms) <= 32 * pwords_of parms.
Proof.
  unfold pwords_of.
  pose proof (Z.div_mod (sum (bits parms) - 1) 32 ltac:(lia)).
  pose proof (Z.mod_pos_bound (sum (bits parms) - 1) 32 ltac:(lia)).
  lia.
Qed.

(** A call that returns has passed the three checks before the loops. *)
Lemma unpack_real_inv (missing_float : Q) (buffer : list Z)
    (parms : parameters) (length : Z) (out : list Q) :
  _unpack_real missing_float buffer parms length = Ok out ->
  let pwords := pwords_of parms in
  let npack := length / pwords in
  let nparms := Z.of_nat (List.length (name parms)) in
  pwords <> 0 /\ npack * pwords = length /\ 0 <= npack * nparms /\
  unpack_groups missing_float buffer parms pwords (Z.to_nat npack) 0 0
    (repeat missing_float (Z.to_nat (npack * nparms))) = Ok out.
Proof.
  unfold _unpack_real. intros H.
  apply bind_ok in H as (q & Hq & H).
  apply bind_ok in H as (u & Hu & H).
  unfold floordiv in Hq.
  destruct (Z.eqb_spec (pwords_of parms) 0) as [|Hpw]; [discriminate|].
  injection Hq as <-.
  unfold np_ones_times in Hu.
  destruct (Z.ltb_spec
              (((length - 1) / pwords_of parms + 1)
               * Z.of_nat (List.length (name parms))) 0) as [|Hnn];
    [discriminate|].
  injection Hu as <-.
  destruct (Z.eqb_spec (((length - 1) / pwords_of parms + 1)
                        * pwords_of parms) length) as [Heq|];
    [|discriminate].
  simpl in H.
  assert (Hn : length / pwords_of parms
               = (length - 1) / pwords_of parms + 1).
  { rewrite <- Heq at 1. now apply Z.div_mul. }
  cbv zeta. rewrite Hn. auto.
Qed.

(** The shape of the result of a call that returns. *)
Lemma unpack_real_values (missing_float : Q) (buffer : list Z)
    (parms : parameters) (length : Z) (out : list Q) :
  _unpack_real missing_float buffer parms length = Ok out ->
  Z.of_nat (List.length out)
  = length / pwords_of parms * Z.of_nat (List.length (name parms)) /\
  (forall g idata,
     (Z.of_nat g < length / pwords_of parms) ->
     (idata < List.length (name parms))%nat ->
     exists v,
       nth_error out (g * List.length (name parms) + idata) = Some v /\
       decodes_to missing_float parms
         (py_slice buffer (Z.of_nat g * pwords_of parms)
            (Z.of_nat g * pwords_of parms + pwords_of parms)) idata v).
Proof.
  intros H.
  apply unpack_real_inv in H as (Hpw & Hmul & Hnn & H).
  change 0 with (Z.of_nat 0) in H at 1.
  apply unpack_groups_spec in H as (Hlen & Hin & _).
  split.
  - rewrite Hlen, repeat_length. apply Z2Nat.id. exact Hnn.
  - intros g idata Hg Hi.
    assert (Hg' : (g < Z.to_nat (length / pwords_of parms))%nat) by lia.
    destruct (Hin g idata Hg' Hi) as (v & Hv & Hd).
    exists v. split; [exact Hv | exact Hd].
Qed.




(** C10.  A call of [_unpack_real] that returns gives one value for every
    parameter of every group: [length / pwords] groups of [nparms] values,
    the value of parameter [idata] of group [g] at position
    [g * nparms + idata], whether or not it is the missing value. *)
Theorem unpack_real_output_length (missing_float : Q) (buffer : list Z)
    (parms : parameters) (length : Z) (out : list Q) :
  _unpack_real missing_float buffer parms length = Ok out ->
  let pwords := pwords_of parms in
  let nparms := List.length (name parms) in
  Z.of_nat (List.length out) = length / pwords * Z.of_nat nparms /\
  (forall g idata,
     (Z.of_nat g < length / pwords) -> (idata < nparms)%nat ->
     exists v,
       nth_error out (g * nparms + idata) = Some v /\
       decodes_to missing_float parms
         (py_slice buffer (Z.of_nat g * pwords)
            (Z.of_nat g * pwords + pwords)) idata v).
Proof.
  intros H pwords nparms. subst pwords nparms.
  exact (unpack_real_values _ _ _ _ _ H).
Qed.

Lemma unpack_real_output_length_witness :
  Z.of_nat (List.length [inject_Z (-9999); (49151.5)%Q]) = 2 / 2 * 2.
Proof.
  refine (proj1 (unpack_real_output_length (inject_Z (-9999))
                   [0x000FFFFF; 0x12345678]
                   {| name := ["A"; "B"]%string; scale := [0; -1];
                      offset := [0; -5]; bits := [20; 20] |} 2
                   [inject_Z (-9999); (49151.5)%Q] _)).
  vm_compute. reflexivity.
Defined.

(** For a field that fits a word, the pattern the field is compared with
    is the all-ones mask of its width. *)
Lemma imissc_all_ones (b : Z) : 0 <= b <= 32 -> imissc_of b = Z.ones b.
Proof.
  intros Hb. unfold imissc_of, _fortran_ishift.
  destruct (Z.ltb_spec 0 (b - 32)); [lia|].
  destruct (Z.ltb_spec (b - 32) 0).
  - change (mskpat <? 0) with false. cbv iota.
    rewrite mskpat_ones, Z.shiftr_div_pow2, Z.abs_neq by lia.
    rewrite !Z.ones_equiv.
    assert (H32 : 2 ^ 32 = 2 ^ b * 2 ^ (- (b - 32))).
    { rewrite <- Z.pow_add_r by lia. f_equal. lia. }
    pose proof (Z.pow_pos_nonneg 2 (- (b - 32)) ltac:(lia) ltac:(lia)).
    pose proof (Z.pow_pos_nonneg 2 b ltac:(lia) ltac:(lia)).
    symmetry. apply Z.div_unique with (r := 2 ^ (- (b - 32)) - 1); lia.
  - replace b with 32 by lia. reflexivity.
Qed.

(** C2.  In the result of [_unpack_real], for a table of fields that each
    fit a word, the value of parameter [idata] of group [g] is the missing
    value when the extracted field is the all-ones mask of the parameter's
    bit width, and [(field + offset) * 10^scale] otherwise. *)
Theorem unpack_real_field_decoding (missing_float : Q) (buffer : list Z)
    (parms : parameters) (length : Z) (out : list Q) :
  _unpack_real missing_float buffer parms length = Ok out ->
  Forall (fun b => 0 <= b <= 32) (bits parms) ->
  let pwords := pwords_of parms in
  let nparms := List.length (name parms) in
  forall g idata,
    Z.of_nat g < length / pwords -> (idata < nparms)%nat ->
    exists s off b ifield,
      nth_error (scale parms) idata = Some s /\
      nth_error (offset parms) idata = Some off /\
      nth_error (bits parms) idata = Some b /\
      extract_field
        (py_slice buffer (Z.of_nat g * pwords)
           (Z.of_nat g * pwords + pwords))
        (bit_offset parms idata) b = Ok ifield /\
      nth_error out (g * nparms + idata)
      = Some (if ifield =? Z.ones b then missing_float
              else (inject_Z (ifield + off) * inject_Z 10 ^ s)%Q).
Proof.
  intros H Hbits pwords nparms g idata Hg Hi. subst pwords nparms.
  destruct (unpack_real_values _ _ _ _ _ H) as (_ & Hin).
  destruct (Hin g idata Hg Hi) as (v & Hv & s & off & b & ifield
                                   & Hs & Hoff & Hb & Hf & ->).
  exists s, off, b, ifield. repeat split; try assumption.
  rewrite Hv. unfold decode_value, pow10.
  rewrite imissc_all_ones; [reflexivity|].
  rewrite Forall_forall in Hbits. apply Hbits.
  eapply nth_error_In, Hb.
Qed.

Lemma unpack_real_field_decoding_witness :
  exists s off b ifield,
    nth_error [0; -1] 1 = Some s /\
    nth_error [0; -5] 1 = Some off /\
    nth_error [20; 20] 1 = Some b /\
    extract_field [0x000FFFFF; 0x12345678] 20 b = Ok ifield /\
    nth_error [inject_Z (-9999); (49151.5)%Q] 1
    = Some (if ifield =? Z.ones b then inject_Z (-9999)
            else (inject_Z (ifield + off) * inject_Z 10 ^ s)%Q).
Proof.
  refine (unpack_real_field_decoding (inject_Z (-9999))
            [0x000FFFFF; 0x12345678]
            {| name := ["A"; "B"]%string; scale := [0; -1];
               offset := [0; -5]; bits := [20; 20] |} 2
            [inject_Z (-9999); (49151.5)%Q] _ _ 0%nat 1%nat _ _).
  - vm_compute. reflexivity.
  - repeat constructor; discriminate.
  - reflexivity.
  - simpl. lia.
Defined.

(** ** The grid payload decoder *)

Lemma np_zeros_ok (shape : list Z) :
  Forall (fun d => 0 <= d) shape -> exists g, np_zeros shape = Ok g.
Proof.
  intros H. unfold np_zeros.
  replace (existsb (fun d => d <? 0) shape) with false; [eauto|].
  symmetry. induction H as [|d l Hd _ IH]; simpl; [reflexivity|].
  rewrite IH. destruct (Z.ltb_spec d 0); [lia | reflexivity].
Qed.

(** C8 (amended).  When the data length a branch computes is at most 1,
    the [none], [diff], [grib] and [dec] branches of [_unpack_grid] never
    return a field.  [none] returns "no data" ([None]); [diff], [grib] and
    [dec] return it when the length is 0 or 1 and the reads and the
    allocation that precede the test return; with a negative length they
    raise, for they build the format of the packed words before the
    test. *)
Theorem unpack_grid_no_data (missing_float : Q)
    (data_header_length kx ky : Z) (rd : reader) (header_length : Z)
    (p : PackingType.t) (lendat : Z) :
  lendat_of data_header_length header_length p = Some lendat ->
  lendat <= 1 ->
  (forall grid,
      _unpack_grid missing_float data_header_length kx ky rd
        p header_length <> Ok (Some grid)) /\
  (p = PackingType.none \/ 0 <= lendat ->
   reaches_guard data_header_length kx ky rd header_length p ->
   _unpack_grid missing_float data_header_length kx ky rd
     p header_length = Ok None) /\
  (p <> PackingType.none -> lendat < 0 ->
   exists e,
     _unpack_grid missing_float data_header_length kx ky rd
       p header_length = Raise e).
Proof.
  intros Hl Hle.
  assert (Hgrib :
    lendat = data_header_length - header_length - 6 ->
    (forall grid,
        unpack_grib missing_float data_header_length rd header_length
        <> Ok (Some grid)) /\
    (0 <= lendat ->
     (exists mi mr pb,
         read_GridMetaInt rd = Ok mi /\ read_GridMetaReal rd = Ok mr /\
         read_int rd (data_header_length - header_length - 6) = Ok pb /\
         0 <= gmi_kxky mi) ->
     unpack_grib missing_float data_header_length rd header_length
     = Ok None) /\
    (lendat < 0 ->
     exists e,
       unpack_grib missing_float data_header_length rd header_length
       = Raise e)).
  { intros ->. unfold unpack_grib, read_words. repeat split.
    - intros grid.
      destruct (read_GridMetaInt rd); [|discriminate].
      destruct (read_GridMetaReal rd); [|discriminate]. simpl.
      destruct (np_zeros _); [|discriminate]. simpl.
      destruct (_ <? 0); [simpl; discriminate|].
      destruct (read_int rd _); [|simpl; discriminate]. simpl.
      destruct (Z.ltb_spec 1 (data_header_length - header_length - 6));
        [lia | discriminate].
    - intros H0 (mi & mr & pb & -> & -> & Hpb & Hk). simpl.
      destruct (np_zeros_ok [gmi_kxky mi]) as (g & ->);
        [repeat constructor; assumption|]. simpl.
      destruct (Z.ltb_spec (data_header_length - header_length - 6) 0);
        [lia|].
      rewrite Hpb. simpl.
      destruct (Z.ltb_spec 1 (data_header_length - header_length - 6));
        [lia | reflexivity].
    - intros Hneg.
      destruct (read_GridMetaInt rd); [|simpl; eauto].
      destruct (read_GridMetaReal rd); [|simpl; eauto]. simpl.
      destruct (np_zeros _); [|simpl; eauto]. simpl.
      destruct (Z.ltb_spec (data_header_length - header_length - 6) 0);
        [simpl; eauto | lia]. }
  destruct p; simpl in Hl; try discriminate; injection Hl as <-; simpl.
  - (* none *)
    unfold unpack_none.
    destruct (Z.ltb_spec 1 (data_header_length - header_length - 1));
      [lia|]. repeat split; [discriminate | congruence].
  - (* grib *)
    destruct (Hgrib eq_refl) as (G1 & G2 & G3). repeat split.
    + exact G1.
    + intros [Hn|H0]; [discriminate|]. now apply G2.
    + intros _. exact G3.
  - (* diff *)
    clear Hgrib. unfold unpack_diff, read_words. repeat split.
    + intros grid.
      destruct (read_GridMetaInt rd); [|discriminate].
      destruct (read_GridMetaReal rd); [|discriminate]. simpl.
      destruct (_ <? 0); [simpl; discriminate|].
      destruct (read_int rd _); [|simpl; discriminate]. simpl.
      destruct (np_zeros _); [|discriminate]. simpl.
      destruct (Z.ltb_spec 1 (data_header_length - header_length - 8));
        [lia | discriminate].
    + intros [Hn|H0]; [discriminate|].
      intros ((mi & mr & pb & -> & -> & Hpb) & Hky & Hkx). simpl.
      destruct (Z.ltb_spec (data_header_length - header_length - 8) 0);
        [lia|].
      rewrite Hpb. simpl.
      destruct (np_zeros_ok [ky; kx]) as (g & ->);
        [repeat constructor; assumption|]. simpl.
      destruct (Z.ltb_spec 1 (data_header_length - header_length - 8));
        [lia | reflexivity].
    + intros _ Hneg.
      destruct (read_GridMetaInt rd); [|simpl; eauto].
      destruct (read_GridMetaReal rd); [|simpl; eauto]. simpl.
      destruct (Z.ltb_spec (data_header_length - header_length - 8) 0);
        [simpl; eauto | lia].
  - (* dec *)
    destruct (Hgrib eq_refl) as (G1 & G2 & G3). repeat split.
    + exact G1.
    + intros [Hn|H0]; [discriminate|]. now apply G2.
    + intros _. exact G3.
Qed.

Lemma unpack_grid_no_data_witness :
  _unpack_grid (inject_Z (-9999)) 11 2 2
    {| read_real := fun _ => Raise ReadError;
       read_int := fun n => Ok (repeat 0 (Z.to_nat n));
       read_GridMetaInt :=
         Ok {| gmi_bits := 4; gmi_missing_flag := 1;
               gmi_kxky := 4; gmi_kx := 2 |};
       read_GridMetaReal :=
         Ok {| gmr_reference := 10; gmr_scale := 1; gmr_diffmin := 0 |} |}
    PackingType.diff 2 = Ok None.
Proof.
  refine (proj1 (proj2 (unpack_grid_no_data (inject_Z (-9999)) 11 2 2 _ 2
                          PackingType.diff 1 _ _)) _ _).
  - reflexivity.
  - lia.
  - right. lia.
  - simpl. split; [|lia]. do 3 eexists. repeat split.
Defined.

(** C8 as the specification words it does not hold for a negative data
    length: a cell of packing [diff] whose data header is shorter than the
    header of the part gives [lendat = -1], and the decoder raises where
    the specification has it return "no data". *)
Lemma unpack_grid_no_data_counterexample :
  lendat_of 9 2 PackingType.diff = Some (-1) /\
  _unpack_grid (inject_Z (-9999)) 9 2 2
    {| read_real := fun _ => Raise ReadError;
       read_int := fun n => Ok (repeat 0 (Z.to_nat n));
       read_GridMetaInt :=
         Ok {| gmi_bits := 4; gmi_missing_flag := 1;
               gmi_kxky := 4; gmi_kx := 2 |};
       read_GridMetaReal :=
         Ok {| gmr_reference := 10; gmr_scale := 1; gmr_diffmin := 0 |} |}
    PackingType.diff 2 = Raise StructError /\
  _unpack_grid (inject_Z (-9999)) 9 2 2
    {| read_real := fun _ => Raise ReadError;
       read_int := fun n => Ok (repeat 0 (Z.to_nat n));
       read_GridMetaInt :=
         Ok {| gmi_bits := 4; gmi_missing_flag := 1;
               gmi_kxky := 4; gmi_kx := 2 |};
       read_GridMetaReal :=
         Ok {| gmr_reference := 10; gmr_scale := 1; gmr_diffmin := 0 |} |}
    PackingType.diff 2 <> Ok None.
Proof.
  split; [reflexivity|]. split; [reflexivity|discriminate].
Qed.

Lemma of_code_unknown (code : Z) :
  ~ 0 <= code <= 5 ->
  PackingType.of_code code = Raise (EnumValueError code "PackingType").
Proof.
  intros H. destruct code as [|p|p]; [lia| |reflexivity].
  do 3 (try destruct p as [p|p|]); try reflexivity; lia.
Qed.

(** C9 (amended).  [_unpack_grid] raises [NotImplementedError] for [nmc]
    and for [grib2], whatever the cell holds and before anything is read.
    A packing code outside 0..5 read from a cell does not reach the
    decoder: turning it into a [PackingType] at line 732 raises the
    enumeration's error, which carries the code and is no
    [NotImplementedError]; no field is returned. *)
Theorem unpack_grid_unsupported (missing_float : Q)
    (data_header_length kx ky : Z) (rd : reader) (header_length : Z) :
  _unpack_grid missing_float data_header_length kx ky rd
    PackingType.nmc header_length
  = Raise (NotImplementedError "NMC unpacking not supported.") /\
  _unpack_grid missing_float data_header_length kx ky rd
    PackingType.grib2 header_length
  = Raise (NotImplementedError "GRIB2 unpacking not supported.") /\
  unpack_cell missing_float data_header_length kx ky rd 2 header_length
  = Raise (NotImplementedError "NMC unpacking not supported.") /\
  unpack_cell missing_float data_header_length kx ky rd 5 header_length
  = Raise (NotImplementedError "GRIB2 unpacking not supported.") /\
  (forall code,
      ~ 0 <= code <= 5 ->
      unpack_cell missing_float data_header_length kx ky rd
        code header_length
      = Raise (EnumValueError code "PackingType")).
Proof.
  repeat split.
  intros code Hc. unfold unpack_cell.
  now rewrite (of_code_unknown code Hc).
Qed.

Lemma unpack_grid_unsupported_witness :
  unpack_cell 0 0 0 0
    {| read_real := fun _ => Raise ReadError;
       read_int := fun _ => Raise ReadError;
       read_GridMetaInt := Raise ReadError;
       read_GridMetaReal := Raise ReadError |} 6 0
  = Raise (EnumValueError 6 "PackingType").
Proof.
  refine (proj2 (proj2 (proj2 (proj2
            (unpack_grid_unsupported 0 0 0 0 _ 0)))) 6 _).
  lia.
Defined.

(** C9 as the specification words it does not hold for a code outside
    the enumeration: the cell does not fail with the error of an
    unsupported codec. *)
Lemma unpack_grid_unsupported_counterexample :
  unpack_cell 0 0 0 0
    {| read_real := fun _ => Raise ReadError;
       read_int := fun _ => Raise ReadError;
       read_GridMetaInt := Raise ReadError;
       read_GridMetaReal := Raise ReadError |} 7 0
  = Raise (EnumValueError 7 "PackingType") /\
  ~ (exists msg,
       unpack_cell 0 0 0 0
         {| read_real := fun _ => Raise ReadError;
            read_int := fun _ => Raise ReadError;
            read_GridMetaInt := Raise ReadError;
            read_GridMetaReal := Raise ReadError |} 7 0
       = Raise (NotImplementedError msg)).
Proof.
  split; [reflexivity|]. intros (msg & H). discriminate.
Qed.

(** ** The sounding merge *)

Lemma aligned_iff (m : merged_t) : alignedb m = true <-> aligned m.
Proof.
  unfold alignedb, aligned.
  rewrite !andb_true_iff, !Nat.eqb_eq. tauto.
Qed.

(** *** Insertions and stores on one list of the profile *)

Lemma mget_mput_same (m : merged_t) (f : field) (l : list Q) :
  mget (mput m f l) f = l.
Proof. destruct f; reflexivity. Qed.

Lemma mget_mput_other (m : merged_t) (f g : field) (l : list Q) :
  f <> g -> mget (mput m f l) g = mget m g.
Proof. destruct f, g; intros H; try reflexivity; congruence. Qed.

Lemma m_set_aligned (m m' : merged_t) (f : field) (i : Z) (v : Q) :
  m_set m f i v = Ok m' -> aligned m -> aligned m'.
Proof.
  unfold m_set. intros H.
  apply bind_ok in H as (l & Hl & [= <-]).
  apply py_setitem_length in Hl.
  unfold aligned. destruct f; simpl in *; rewrite ?Hl; tauto.
Qed.

Ltac insert_lengths :=
  unfold aligned, m_insert; simpl; rewrite ?py_insert_length;
  intuition congruence.

(** The insertion of lines 1247-1252 (and of every pressure-keyed step
    after the mandatory winds): one value in each of the six lists. *)
Lemma insert_pressure_level_aligned (m : merged_t) (loc : Z)
    (pres dr sp t d h : Q) :
  aligned m ->
  aligned (m_insert (m_insert (m_insert (m_insert (m_insert
             (m_insert m PRES loc pres) DRCT loc dr) SPED loc sp)
             TEMP loc t) DWPT loc d) HGHT loc h).
Proof. insert_lengths. Qed.

(** The insertion of lines 1429-1434. *)
Lemma insert_height_level_aligned (m : merged_t) (loc : Z)
    (h dr sp pres t d : Q) :
  aligned m ->
  aligned (m_insert (m_insert (m_insert (m_insert (m_insert
             (m_insert m HGHT loc h) DRCT loc dr) SPED loc sp)
             PRES loc pres) TEMP loc t) DWPT loc d).
Proof. insert_lengths. Qed.

(** The insertion of lines 1067-1069 and 1083-1085: three lists grow, the
    other three do not. *)
Lemma insert_man_wind_lengths (m : merged_t) (loc : Z) (pres dr sp : Q) :
  let m' := m_insert (m_insert (m_insert m PRES loc pres) DRCT loc dr)
              SPED loc sp in
  List.length (mPRES m') = S (List.length (mPRES m)) /\
  List.length (mDRCT m') = S (List.length (mDRCT m)) /\
  List.length (mSPED m') = S (List.length (mSPED m)) /\
  List.length (mHGHT m') = List.length (mHGHT m) /\
  List.length (mTEMP m') = List.length (mTEMP m) /\
  List.length (mDWPT m') = List.length (mDWPT m).
Proof.
  unfold m_insert; simpl. rewrite !py_insert_length.
  repeat split; reflexivity.
Qed.

(** *** The mandatory winds (lines 1054-1085) *)

(** A mandatory wind whose pressure no level above the surface has is
    inserted in PRES, DRCT and SPED only: an aligned profile comes out with
    PRES one longer than HGHT, TEMP and DWPT. *)
Lemma man_wind_entry_misaligns (missing_float : Q) (parts : parts_t)
    (n : part_name) (iwind : Z) (pres : Q) (m m' : merged_t) :
  aligned m ->
  py_in pres (tl (mPRES m)) = false ->
  man_wind_entry missing_float parts n (iwind, pres) m = Ok m' ->
  List.length (mPRES m') = S (List.length (mHGHT m')) /\
  List.length (mPRES m') = S (List.length (mTEMP m')) /\
  List.length (mPRES m') = S (List.length (mDWPT m')) /\
  ~ aligned m'.
Proof.
  intros (H1 & H2 & H3 & H4 & H5) Hnot H.
  unfold man_wind_entry in H. rewrite Hnot in H. cbv zeta in H.
  set (loc := if _ <=? _ then _ else _) in H.
  apply bind_ok in H as (dr & _ & H).
  apply bind_ok in H as (sp & _ & [= <-]).
  unfold aligned. simpl. rewrite !py_insert_length.
  split; [congruence|]. split; [congruence|]. split; [congruence|].
  intros (A1 & _). lia.
Qed.

(** C1.  The sounding [Example.man_wind_parts] (two mandatory levels and
    a mandatory wind at a pressure of its own) is aligned after the
    mandatory temperatures, and after the mandatory winds its PRES, DRCT
    and SPED have three entries while HGHT, TEMP and DWPT have two. *)
Theorem man_wind_insert_misaligned :
  exists m m',
    merge_to_man_temp Example.missing_float Example.man_wind_parts
    = Ok (m, 0) /\
    aligned m /\
    merge_to_man_wind Example.missing_float Example.man_wind_parts
    = Ok (m', 0) /\
    List.length (mPRES m') = 3%nat /\ List.length (mDRCT m') = 3%nat /\
    List.length (mSPED m') = 3%nat /\ List.length (mHGHT m') = 2%nat /\
    List.length (mTEMP m') = 2%nat /\ List.length (mDWPT m') = 2%nat /\
    ~ aligned m'.
Proof.
  eexists. eexists.
  split; [vm_compute; reflexivity|].
  split; [apply aligned_iff; vm_compute; reflexivity|].
  split; [vm_compute; reflexivity|].
  repeat (split; [reflexivity|]).
  intros H. apply aligned_iff in H. vm_compute in H. discriminate.
Qed.

(** *** The significant winds on pressure surfaces (lines 1229-1279) *)

Lemma set_wind_aligned (m m' : merged_t) (k : Z) (drct sped : Q) :
  set_wind m k drct sped = Ok m' -> aligned m -> aligned m'.
Proof.
  unfold set_wind. intros H Ha.
  apply bind_ok in H as (m1 & H1 & H2).
  eapply m_set_aligned, m_set_aligned; eassumption.
Qed.

(** Every entry of a significant wind report keeps the profile aligned:
    a new level gets a value in each of the six lists. *)
Lemma sigw_pres_entry_aligned (missing_float : Q) (parts : parts_t)
    (n : part_name) (e : Z * Q) (m m' : merged_t) (pbot pbot' : Q) :
  aligned m ->
  sigw_pres_entry missing_float parts n e (m, pbot) = Ok (m', pbot') ->
  aligned m'.
Proof.
  intros Ha H. destruct e as [isigw pres]. unfold sigw_pres_entry in H.
  apply bind_ok in H as (valid & _ & H).
  destruct valid; [|now injection H as <- _].
  destruct (Qltb pbot (Qabs pres)); [now injection H as <- _|].
  destruct (py_in (Qabs pres) (mPRES m)).
  - apply bind_ok in H as (ploc & _ & H).
    apply bind_ok in H as (d & _ & H).
    apply bind_ok in H as (fill & _ & H).
    destruct fill; [|now injection H as <- _].
    apply bind_ok in H as (dr & _ & H).
    apply bind_ok in H as (m1 & H1 & H).
    apply bind_ok in H as (sp & _ & H).
    apply bind_ok in H as (m2 & H2 & [= <- _]).
    eapply m_set_aligned; [exact H2|].
    eapply m_set_aligned; eassumption.
  - apply bind_ok in H as (dr & _ & H).
    apply bind_ok in H as (sp & _ & [= <- _]).
    now apply insert_pressure_level_aligned.
Qed.

(** *** The surface test (lines 973-995) *)

Lemma Qeq_bool_refl (x : Q) : Qeq_bool x x = true.
Proof. apply Qeq_bool_iff. reflexivity. Qed.

Lemma Qltb_irrefl (x : Q) : Qltb x x = false.
Proof.
  unfold Qltb. apply negb_false_iff, Qle_bool_iff. apply Qle_refl.
Qed.

(** The test as the code makes it: the three zipped columns are all the
    pressure column, so a present surface pressure is its own "first valid
    mandatory pressure" and the surface is rejected only when its pressure
    exceeds 1060 or is missing. *)
Lemma surface_rejected_code (missing_float : Q) (parts : parts_t)
    (m : merged_t) (p0 : Q) (rest restm : list Q) :
  col parts TTAA PRES = Ok (p0 :: rest) ->
  mPRES m = p0 :: restm ->
  surface_rejected missing_float parts m
  = Ok (Qltb (inject_Z 1060) p0 || Qeq_bool p0 missing_float).
Proof.
  intros Hc Hm. unfold surface_rejected, first_man_p_of, m_at.
  rewrite Hc. simpl. rewrite Hm. unfold py_index; simpl.
  f_equal.
  destruct (Qltb (inject_Z 1060) p0); simpl.
  - now rewrite Qeq_bool_refl.
  - unfold Qneb. destruct (Qeq_bool p0 missing_float); simpl;
      [reflexivity|].
    now rewrite Qltb_irrefl.
Qed.

(** C3.  For the sounding [Example.low_surface_parts] (surface pressure
    900 without a temperature, first complete mandatory level at 1000) the
    surface pressure is below the first valid mandatory pressure, so the
    test of the specification rejects the surface; the code's test does
    not, and the merged surface keeps the pressure 900. *)
Theorem surface_below_first_mandatory_kept :
  exists m,
    merge_surface Example.missing_float Example.low_surface_parts = Ok m /\
    first_man_p_spec Example.missing_float Example.low_surface_parts
    = Ok (inject_Z 1000) /\
    surface_rejected_spec Example.missing_float Example.low_surface_parts m
    = Ok true /\
    first_man_p_of Example.missing_float Example.low_surface_parts
    = Ok (inject_Z 900) /\
    surface_rejected Example.missing_float Example.low_surface_parts m
    = Ok false /\
    mPRES m = [inject_Z 900].
Proof.
  eexists. split; [vm_compute; reflexivity|].
  repeat split; vm_compute; reflexivity.
Qed.

(** *** The mandatory temperatures (lines 1026-1052) *)

(** C4.  For the sounding [Example.above_man_parts] the only entry of the
    report above 100 hPa has pressure 70, temperature and height present,
    and 70 is below the last admitted pressure 850: it passes the test of
    lines 1046-1049, yet the profile after the mandatory temperatures has
    the pressures 1000 and 850 only, because the loop over that report
    starts at its second entry. *)
Theorem first_above_mandatory_level_skipped :
  exists m,
    merge_to_man_temp Example.missing_float Example.above_man_parts
    = Ok (m, 0) /\
    mPRES m = [inject_Z 1000; inject_Z 850] /\
    m_at m PRES (-1) = Ok (inject_Z 850) /\
    at_ Example.above_man_parts TTCC PRES 0 = Ok (inject_Z 70) /\
    man_admissible Example.missing_float Example.above_man_parts TTCC 0
      (inject_Z 850) = Ok true /\
    py_in (inject_Z 70) (mPRES m) = false.
Proof.
  eexists. split; [vm_compute; reflexivity|].
  repeat split; vm_compute; reflexivity.
Qed.

(** *** The significant winds by height (lines 1345-1442) *)

Lemma place_entry_aligned (missing_float : Q) (m m' : merged_t) (znxt : Q)
    (ilev size size' : Z) (hght drct sped : Q) :
  aligned m ->
  place_entry missing_float m znxt ilev size hght drct sped
  = Ok (m', size') ->
  aligned m'.
Proof.
  intros Ha H. unfold place_entry in H.
  destruct (Qltb _ _).
  - apply bind_ok in H as (w & _ & H). destruct w.
    + apply bind_ok in H as (m1 & H1 & [= <- _]).
      eapply set_wind_aligned; eassumption.
    + now injection H as <- _.
  - injection H as <- _. now apply insert_height_level_aligned.
Qed.

(** A source entry within one unit of [znxt]: the winds that are tested
    are those of the level below the cursor, [ilev - 1], and the winds that
    are written are those of the level at the cursor, [ilev]. *)
Lemma place_entry_near (missing_float : Q) (m : merged_t) (znxt : Q)
    (ilev size : Z) (hght drct sped : Q) :
  Qltb (Qabs (znxt - hght)) 1 = true ->
  place_entry missing_float m znxt ilev size hght drct sped
  = (w <- wind_missing missing_float m (ilev - 1) ;;
     if w then m <- set_wind m ilev drct sped ;; Ok (m, size)
     else Ok (m, size)).
Proof. intros H. unfold place_entry. now rewrite H. Qed.

(** C7.  In [Example.sigw_fill_parts] the level at 500 m has no wind and
    the level below it has one; the significant wind reported at 500 m
    matches [znxt] and is dropped: the level keeps its missing wind.  In
    [Example.sigw_overwrite_parts] the level at 500 m has the wind
    (200, 10) and the level below it has none; the same report replaces
    that wind by (90, 7). *)
Theorem sigw_near_match_tests_level_below :
  (exists m0 m,
      merge_to_man_wind Example.missing_float Example.sigw_fill_parts
      = Ok (m0, 0) /\
      m_at m0 HGHT 1 = Ok (inject_Z 500) /\
      wind_missing Example.missing_float m0 1 = Ok true /\
      wind_missing Example.missing_float m0 0 = Ok false /\
      Example.merge_then_sigw_z Example.sigw_fill_parts = Ok m /\
      m = m0) /\
  (exists m0 m,
      merge_to_man_wind Example.missing_float Example.sigw_overwrite_parts
      = Ok (m0, 0) /\
      m_at m0 HGHT 1 = Ok (inject_Z 500) /\
      m_at m0 DRCT 1 = Ok (inject_Z 200) /\
      m_at m0 SPED 1 = Ok (inject_Z 10) /\
      wind_missing Example.missing_float m0 1 = Ok false /\
      wind_missing Example.missing_float m0 0 = Ok true /\
      Example.merge_then_sigw_z Example.sigw_overwrite_parts = Ok m /\
      m_at m DRCT 1 = Ok (inject_Z 90) /\
      m_at m SPED 1 = Ok (inject_Z 7)).
Proof.
  split.
  - eexists. eexists. split; [vm_compute; reflexivity|].
    repeat split; vm_compute; reflexivity.
  - eexists. eexists. split; [vm_compute; reflexivity|].
    split; [vm_compute; reflexivity|].
    split; [vm_compute; reflexivity|].
    split; [vm_compute; reflexivity|].
    split; [vm_compute; reflexivity|].
    split; [vm_compute; reflexivity|].
    split; [vm_compute; reflexivity|].
    split; vm_compute; reflexivity.
Qed.

(** *** The mandatory temperatures for every sounding *)

Lemma Qltb_lt (a b : Q) : Qltb a b = true <-> (a < b)%Q.
Proof.
  unfold Qltb. rewrite negb_true_iff. split.
  - intros H. apply Qnot_le_lt. intros Hle.
    apply Qle_bool_iff in Hle. congruence.
  - intros H. destruct (Qle_bool b a) eqn:E; [|reflexivity].
    apply Qle_bool_iff in E. exfalso. eapply Qlt_not_le; eassumption.
Qed.

Lemma field_eqb_eq (a b : field) : field_eqb a b = true <-> a = b.
Proof. destruct a, b; simpl; split; congruence. Qed.

Lemma lookup_field_none (p : part) (f : field) :
  ~ In f (map fst p) -> lookup_field p f = None.
Proof.
  induction p as [|[g v] t IH]; simpl; intros H; [reflexivity|].
  destruct (field_eqb g f) eqn:E.
  - apply field_eqb_eq in E. tauto.
  - apply IH. tauto.
Qed.

Lemma py_index_last (l : list Q) (v : Q) : py_index (l ++ [v]) (-1) = Ok v.
Proof.
  unfold py_index. cbv zeta. change (-1 <? 0) with true. cbv iota.
  rewrite length_app. simpl List.length.
  replace (-1 + Z.of_nat (List.length l + 1)) with (Z.of_nat (List.length l))
    by lia.
  destruct (Z.ltb_spec (Z.of_nat (List.length l)) 0); [lia|].
  destruct (Z.leb_spec (Z.of_nat (List.length l + 1))
              (Z.of_nat (List.length l))); [lia|]. simpl.
  rewrite Nat2Z.id, nth_error_app2, Nat.sub_diag by lia. reflexivity.
Qed.

(** Lines 1039-1040 on a well-formed part: every list of the profile whose
    name is a key of the part grows by the value of that parameter at level
    [i]; the other lists are left as they are. *)
Lemma append_fields_spec (i : Z) (p : part) (f : field) (m m' : merged_t) :
  part_wf p ->
  for_each p (fun '(pname, pval) m =>
                v <- py_index pval i ;; Ok (m_append m pname v)) m = Ok m' ->
  match lookup_field p f with
  | Some l => exists v, py_index l i = Ok v /\ mget m' f = mget m f ++ [v]
  | None => mget m' f = mget m f
  end.
Proof.
  unfold part_wf. revert m.
  induction p as [|[g pval] t IH]; intros m Hnd H; simpl in *.
  - now injection H as <-.
  - inversion Hnd as [|? ? Hnotin Hnd']; subst.
    apply bind_ok in H as (m1 & H1 & H).
    apply bind_ok in H1 as (v & Hv & [= <-]).
    specialize (IH _ Hnd' H).
    destruct (field_eqb g f) eqn:E.
    + apply field_eqb_eq in E. subst g.
      rewrite (lookup_field_none t f Hnotin) in IH.
      exists v. split; [assumption|].
      rewrite IH. unfold m_append. now rewrite mget_mput_same.
    + assert (Hne : g <> f).
      { intros ->. destruct f; discriminate. }
      unfold m_append in IH. rewrite mget_mput_other in IH by assumption.
      exact IH.
Qed.

Lemma at_inv (parts : parts_t) (n : part_name) (f : field) (i : Z) (x : Q) :
  at_ parts n f i = Ok x ->
  exists pt l, get_part parts n = Ok pt /\ lookup_field pt f = Some l /\
               py_index l i = Ok x.
Proof.
  unfold at_, col. intros H.
  apply bind_ok in H as (l & Hl & Hx).
  apply bind_ok in Hl as (pt & Hpt & Hf).
  unfold get_field in Hf.
  destruct (lookup_field pt f) eqn:E; [|discriminate].
  injection Hf as ->. eauto.
Qed.

Section ManTemp.
Variable missing_float : Q.
Variable parts : parts_t.
Hypothesis parts_wf : forall n pt, get_part parts n = Ok pt -> part_wf pt.

(** The test of lines 1035-1038: an entry is admitted exactly when its
    pressure is below [plast] and its pressure, temperature and height are
    present. *)
Lemma man_admissible_true (n : part_name) (i : Z) (plast : Q) :
  man_admissible missing_float parts n i plast = Ok true <->
  exists p t h,
    at_ parts n PRES i = Ok p /\ at_ parts n TEMP i = Ok t /\
    at_ parts n HGHT i = Ok h /\ (p < plast)%Q /\
    Qneb p missing_float = true /\ Qneb t missing_float = true /\
    Qneb h missing_float = true.
Proof.
  unfold man_admissible. cbv zeta beta. split.
  - intros H.
    apply bind_ok in H as (p & Hp & H). rewrite Hp in H. simpl in H.
    destruct (Qltb p plast) eqn:Hlt; [|discriminate].
    destruct (Qneb p missing_float) eqn:Hpp; [|discriminate].
    apply bind_ok in H as (t & Ht & H).
    destruct (Qneb t missing_float) eqn:Htt; [|discriminate].
    apply bind_ok in H as (h & Hh & [= Hhh]).
    exists p, t, h. apply Qltb_lt in Hlt. auto 10.
  - intros (p & t & h & Hp & Ht & Hh & Hlt & Hpp & Htt & Hhh).
    apply Qltb_lt in Hlt.
    rewrite Hp. simpl. rewrite Hlt, Hpp, Ht. simpl.
    rewrite Htt, Hh. simpl. now rewrite Hhh.
Qed.

(** One turn of the loops: an admitted entry is appended and becomes
    [plast]; a rejected one changes nothing but, in the first loop, the
    count. *)
Lemma man_temp_turn_spec (n : part_name) (counting : bool) (i : Z)
    (m m' : merged_t) (plast plast' : Q) (bgl bgl' : Z) :
  man_temp_turn missing_float parts n counting i (m, plast, bgl)
  = Ok (m', plast', bgl') ->
  (man_admissible missing_float parts n i plast = Ok true /\
   at_ parts n PRES i = Ok plast' /\ (plast' < plast)%Q /\
   mPRES m' = mPRES m ++ [plast'] /\ bgl' = bgl) \/
  (man_admissible missing_float parts n i plast = Ok false /\
   m' = m /\ plast' = plast /\
   bgl' = if counting then bgl + 1 else bgl).
Proof.
  unfold man_temp_turn. intros H.
  apply bind_ok in H as (ok & Hok & H). destruct ok.
  - left. split; [assumption|].
    apply bind_ok in H as (m1 & Happ & H).
    apply bind_ok in H as (pl & Hpl & [= <- <- <-]).
    apply man_admissible_true in Hok
      as (p & t & h & Hp & _ & _ & Hlt & _).
    destruct (at_inv _ _ _ _ _ Hp) as (pt & l & Hpt & Hl & Hi).
    unfold append_level in Happ. rewrite Hpt in Happ. simpl in Happ.
    pose proof (append_fields_spec i pt PRES m m1 (parts_wf _ _ Hpt) Happ)
      as Hs.
    rewrite Hl in Hs. destruct Hs as (v & Hv & Hm1).
    assert (v = p) by congruence. subst v. simpl in Hm1.
    unfold m_at in Hpl. simpl in Hpl.
    rewrite Hm1, py_index_last in Hpl. injection Hpl as <-.
    auto.
  - right. injection H as <- <- <-. auto.
Qed.

(** The loops keep the pressures they append strictly decreasing and
    below the pressure the step started from. *)
Lemma man_temp_loop_spec (n : part_name) (counting : bool) (plast0 : Q)
    (idxs : list Z) (base : list Q) :
  forall (added : list Q) (m m' : merged_t) (plast plast' : Q)
         (bgl bgl' : Z),
    for_each idxs (man_temp_turn missing_float parts n counting)
      (m, plast, bgl) = Ok (m', plast', bgl') ->
    mPRES m = base ++ added ->
    decreasing added ->
    Forall (fun x => (plast <= x)%Q) added ->
    Forall (fun x => (x < plast0)%Q) added ->
    (plast <= plast0)%Q ->
    exists new,
      mPRES m' = base ++ added ++ new /\
      decreasing (added ++ new) /\
      Forall (fun x => (plast' <= x)%Q) (added ++ new) /\
      Forall (fun x => (x < plast0)%Q) (added ++ new) /\
      (plast' <= plast0)%Q /\
      bgl' = (if counting
              then bgl + len idxs - len new
              else bgl).
Proof.
  induction idxs as [|i rest IH];
    intros added m m' plast plast' bgl bgl' H Hm Hdec Hge Hlt Hle;
    simpl in H.
  - injection H as <- <- <-. exists []. rewrite !app_nil_r.
    repeat split; try assumption.
    destruct counting; unfold len; simpl; lia.
  - apply bind_ok in H as ([[m1 plast1] bgl1] & Hturn & H).
    apply man_temp_turn_spec in Hturn
      as [(_ & _ & Hp & Hm1 & ->) | (_ & -> & -> & ->)].
    + assert (Hall : Forall (fun x => (plast1 < x)%Q) added).
      { eapply Forall_impl; [|exact Hge].
        intros x Hx. eapply Qlt_le_trans; eassumption. }
      assert (Hlt0 : (plast1 < plast0)%Q)
        by (eapply Qlt_le_trans; eassumption).
      destruct (IH (added ++ [plast1]) m1 m' plast1 plast' bgl bgl' H)
        as (new & Hm' & Hdec' & Hge' & Hlt' & Hle' & Hb).
      * rewrite Hm1, Hm. now rewrite app_assoc.
      * clear - Hdec Hall. unfold decreasing in *.
        induction Hdec as [|a l Hs IHs Ha]; simpl.
        -- repeat constructor.
        -- inversion Hall; subst. constructor; [auto|].
           apply Forall_app. split; [assumption|]. repeat constructor.
           assumption.
      * apply Forall_app. split.
        -- eapply Forall_impl; [|exact Hall].
           intros x Hx. now apply Qlt_le_weak.
        -- repeat constructor. apply Qle_refl.
      * apply Forall_app. split; [assumption|]. repeat constructor.
        assumption.
      * now apply Qlt_le_weak.
      * exists (plast1 :: new). rewrite <- !app_assoc in *. simpl in *.
        repeat split; try assumption.
        rewrite Hb. destruct counting; [|reflexivity].
        unfold len; simpl. lia.
    + destruct (IH added m m' plast plast'
                  (if counting then bgl + 1 else bgl) bgl' H Hm Hdec Hge
                  Hlt Hle)
        as (new & Hm' & Hdec' & Hge' & Hlt' & Hle' & Hb).
      exists new. repeat split; try assumption.
      rewrite Hb. destruct counting; [|reflexivity].
      unfold len; simpl. lia.
Qed.

(** The step of lines 1026-1052 for every sounding with well-formed
    parts: the pressures it appends are strictly decreasing and below the
    surface pressure (below 2000 when the surface pressure is missing), and
    [bgl] is the number of entries of the main report after the first that
    were not appended. *)
Lemma merge_man_temp_spec (c : counts) (m m' : merged_t) (bgl : Z) :
  merge_man_temp missing_float parts c m = Ok (m', bgl) ->
  exists added1 added2,
    mPRES m' = mPRES m ++ added1 ++ added2 /\
    decreasing (added1 ++ added2) /\
    (forall p0, m_at m PRES 0 = Ok p0 ->
       Forall (fun x => (x < plast_start missing_float p0)%Q)
         (added1 ++ added2)) /\
    bgl = len (range 1 (num_man_levels c)) - len added1.
Proof.
  unfold merge_man_temp. intros H.
  destruct ((2 <=? num_man_levels c) || (1 <=? num_above_man_levels c))
    eqn:G.
  - apply bind_ok in H as (p0 & Hp0 & H).
    apply bind_ok in H as ([[m1 plast1] bgl1] & H1 & H).
    apply bind_ok in H as ([[m2 plast2] bgl2] & H2 & [= <- <-]).
    fold (plast_start missing_float p0) in H1.
    destruct (man_temp_loop_spec TTAA true (plast_start missing_float p0)
                _ (mPRES m) [] _ _ _ _ _ _ H1)
      as (new1 & Hm1 & Hd1 & Hg1 & Hl1 & Hle1 & Hb1);
      try (now constructor); [now rewrite app_nil_r | apply Qle_refl |].
    simpl in *.
    destruct (man_temp_loop_spec TTCC false (plast_start missing_float p0)
                _ (mPRES m) new1 _ _ _ _ _ _ H2 Hm1 Hd1 Hg1 Hl1 Hle1)
      as (new2 & Hm2 & Hd2 & Hg2 & Hl2 & Hle2 & Hb2).
    exists new1, new2. simpl. repeat split; try assumption.
    + intros q Hq. rewrite Hp0 in Hq. injection Hq as <-. assumption.
    + lia.
  - injection H as <- <-. exists [], []. simpl. rewrite app_nil_r.
    repeat split; [constructor | intros; constructor |].
    apply orb_false_iff in G as (G1 & _).
    destruct (Z.leb_spec 2 (num_man_levels c)); [discriminate|].
    unfold range, len.
    replace (Z.to_nat (num_man_levels c - 1)) with 0%nat by lia.
    reflexivity.
Qed.
End ManTemp.

(** ** The loops that are run on fuel

    [bisect_loop], [climb] and [sigw_z_loop] model [while] loops; the fuel
    they are given is enough for the loop to end by its own test. *)

Lemma bisect_loop_fuel (a : list Q) (x : Q) (fuel k : nat) :
  forall lo hi,
    (Z.to_nat (hi - lo) <= fuel)%nat ->
    bisect_loop (fuel + k) a x lo hi = bisect_loop fuel a x lo hi.
Proof.
  induction fuel as [|fuel IH]; intros lo hi Hf.
  - simpl. destruct k; simpl; [reflexivity|].
    destruct (Z.ltb_spec lo hi); [lia | reflexivity].
  - simpl. destruct (Z.ltb_spec lo hi) as [Hlt|]; [|reflexivity].
    assert (Hmid : lo <= (lo + hi) / 2 < hi).
    { split.
      - apply Z.div_le_lower_bound; lia.
      - apply Z.div_lt_upper_bound; lia. }
    destruct (nth_error a _); [|reflexivity].
    destruct (Qltb q x); apply IH; lia.
Qed.

(** More fuel than [bisect_left] gives does not change its result. *)
Lemma bisect_left_fuel (a : list Q) (x : Q) (k : nat) :
  bisect_loop (S (List.length a) + k) a x 0 (Z.of_nat (List.length a))
  = bisect_left a x.
Proof. unfold bisect_left. apply bisect_loop_fuel. lia. Qed.

Section LoopsEnd.
Variable missing_float : Q.
Variable parts : parts_t.

Lemma climb_stopped (fuel : nat) (m : merged_t) (hght : Q) (size : Z)
    (zold znxt : Q) (ilev : Z) :
  climb missing_float fuel m hght size (false, zold, znxt, ilev)
  = Ok (false, zold, znxt, ilev).
Proof. destruct fuel; reflexivity. Qed.

(** The inner loop ends by its own test: [more] is false or [hght] is not
    above [znxt]. *)
Lemma climb_ends (fuel : nat) (m : merged_t) (hght : Q) (size : Z) :
  forall (more : bool) (zold znxt : Q) (ilev : Z)
         (more' : bool) (zold' znxt' : Q) (ilev' : Z),
    (Z.to_nat (size - ilev) < fuel)%nat ->
    climb missing_float fuel m hght size (more, zold, znxt, ilev)
    = Ok (more', zold', znxt', ilev') ->
    more' && Qltb znxt' hght = false.
Proof.
  induction fuel as [|fuel IH];
    intros more zold znxt ilev more' zold' znxt' ilev' Hf H; [lia|].
  simpl in H.
  destruct (more && Qltb znxt hght) eqn:C.
  - destruct (Z.leb_spec size (ilev + 1)).
    + rewrite climb_stopped in H. now injection H as <- _ _ _.
    + apply bind_ok in H as (z & _ & H).
      destruct (Qeq_bool z missing_float).
      * rewrite climb_stopped in H. now injection H as <- _ _ _.
      * eapply IH; [|exact H]. lia.
  - now injection H as <- <- <- <-.
Qed.

(** One turn moves to the next entry, or switches once to the second
    report. *)
Lemma sigw_z_turn_cursor (nsgw nasw : Z) (s s' : zstate) :
  sigw_z_turn missing_float parts nsgw nasw s = Ok s' ->
  (z_above s = false /\ z_i s = nsgw - 1 /\
   z_above s' = true /\ z_i s' = 0 /\ z_iend s' = nasw) \/
  (~ (z_above s = false /\ z_i s = nsgw - 1) /\
   z_above s' = z_above s /\ z_i s' = z_i s + 1 /\ z_iend s' = z_iend s).
Proof.
  unfold sigw_z_turn. intros H.
  apply bind_ok in H as (hght & _ & H).
  apply bind_ok in H as (drct & _ & H).
  apply bind_ok in H as (sped & _ & H).
  apply bind_ok in H as ([[m skip] [[[more zold] znxt] ilev]] & _ & H).
  apply bind_ok in H as ([m2 size] & _ & H).
  destruct (z_above s) eqn:A; simpl in H.
  - injection H as <-. simpl. right. intuition discriminate.
  - destruct (Z.eqb_spec (z_i s) (nsgw - 1)) as [E|E];
      injection H as <-; simpl.
    + left. auto.
    + right. intuition.
Qed.

Lemma sigw_z_turn_decreases (nsgw nasw : Z) (s s' : zstate) :
  (z_above s = false -> z_iend s = nsgw) ->
  z_i s < z_iend s ->
  sigw_z_turn missing_float parts nsgw nasw s = Ok s' ->
  (z_above s' = false -> z_iend s' = nsgw) /\
  (turns_left nasw s' < turns_left nasw s)%nat.
Proof.
  intros Hinv Hlt H.
  apply sigw_z_turn_cursor in H
    as [(A & I & A' & I' & E') | (_ & A' & I' & E')];
    unfold turns_left; rewrite A'.
  - rewrite A, I', E'. split; [discriminate|]. lia.
  - rewrite I', E'. split; [assumption|].
    destruct (z_above s); lia.
Qed.

(** The outer loop ends by its own test when it is given more fuel than
    there are turns left. *)
Lemma sigw_z_loop_ends (nsgw nasw : Z) (fuel : nat) :
  forall s s',
    (z_above s = false -> z_iend s = nsgw) ->
    (turns_left nasw s < fuel)%nat ->
    sigw_z_loop missing_float parts fuel nsgw nasw s = Ok s' ->
    z_more s' && (z_i s' <? z_iend s') = false.
Proof.
  induction fuel as [|fuel IH]; intros s s' Hinv Hf H; [lia|].
  simpl in H.
  destruct (z_more s && (z_i s <? z_iend s)) eqn:C.
  - apply bind_ok in H as (s1 & Hturn & H).
    apply andb_true_iff in C as (_ & C). apply Z.ltb_lt in C.
    destruct (sigw_z_turn_decreases _ _ _ _ Hinv C Hturn) as (Hinv1 & Hd).
    eapply IH; [exact Hinv1 | lia | exact H].
  - now injection H as <-.
Qed.

(** The fuel [merge_sigw_z] gives is enough. *)
Lemma sigw_z_start_turns (c : counts) (m : merged_t) (s : zstate) :
  sigw_z_start missing_float parts c m = Ok s ->
  let nsgw := if ppbb_is_z c then num_sigw_levels c else 0 in
  let nasw := if ppdd_is_z c then num_above_sigw_levels c else 0 in
  (z_above s = false -> z_iend s = nsgw) /\
  (turns_left nasw s <= Z.to_nat (Z.max 0 nsgw + Z.max 0 nasw))%nat.
Proof.
  unfold sigw_z_start. intros H. cbv zeta in *.
  set (nsgw := if ppbb_is_z c then num_sigw_levels c else 0) in *.
  set (nasw := if ppdd_is_z c then num_above_sigw_levels c else 0) in *.
  apply bind_ok in H as (at0 & _ & H).
  apply bind_ok in H as (istart & Hist & H).
  apply bind_ok in H as (psfc & _ & H).
  apply bind_ok in H as (zsfc & _ & H).
  apply bind_ok in H as ([[[more zold] znxt] ilev] & _ & H).
  assert (Hi : 0 <= istart).
  { destruct at0; [now injection Hist as <-|].
    apply bind_ok in Hist as (h & _ & Hist).
    apply bind_ok in Hist as (z & _ & [= <-]).
    destruct (Qeq_bool h z); lia. }
  destruct (Z.leb_spec istart nsgw); injection H as <-;
    unfold turns_left; simpl; split; try discriminate; try reflexivity; lia.
Qed.

Lemma merge_sigw_z_loop_ends (c : counts) (m : merged_t) (s : zstate) :
  sigw_z_start missing_float parts c m = Ok s ->
  let nsgw := if ppbb_is_z c then num_sigw_levels c else 0 in
  let nasw := if ppdd_is_z c then num_above_sigw_levels c else 0 in
  forall s',
    sigw_z_loop missing_float parts
      (S (Z.to_nat (Z.max 0 nsgw + Z.max 0 nasw))) nsgw nasw s = Ok s' ->
    z_more s' && (z_i s' <? z_iend s') = false.
Proof.
  intros Hs nsgw nasw s' H.
  destruct (sigw_z_start_turns c m s Hs) as (Hinv & Hle).
  eapply sigw_z_loop_ends; [exact Hinv | | exact H].
  fold nsgw nasw in Hle. lia.
Qed.

(** Every turn of the merge by height keeps the profile aligned. *)
Lemma sigw_z_turn_aligned (nsgw nasw : Z) (s s' : zstate) :
  aligned (z_merged s) ->
  sigw_z_turn missing_float parts nsgw nasw s = Ok s' ->
  aligned (z_merged s').
Proof.
  intros Ha H. unfold sigw_z_turn in H. cbv zeta beta in H.
  apply bind_ok in H as (hght & _ & H).
  apply bind_ok in H as (drct & _ & H).
  apply bind_ok in H as (sped & _ & H).
  apply bind_ok in H as ([[m skip] [[[more zold] znxt] ilev]] & Hr & H).
  assert (Hm : aligned m).
  { destruct (_ && _ && _); [inversion Hr; subst; assumption|].
    destruct (Qltb _ _).
    - apply bind_ok in Hr as (w & _ & Hr).
      apply bind_ok in Hr as (m1 & Hm1 & Hr).
      inversion Hr; subst.
      destruct w; [eapply set_wind_aligned; eassumption|].
      now injection Hm1 as <-.
    - destruct (Qle_bool hght (z_zold s));
        [inversion Hr; subst; assumption|].
      destruct (Qle_bool (z_znxt s) hght).
      + apply bind_ok in Hr as (cl & _ & Hr).
        inversion Hr; subst; assumption.
      + inversion Hr; subst; assumption. }
  apply bind_ok in H as ([m2 size] & Hp & H).
  assert (Hm2 : aligned m2).
  { destruct (more && negb skip).
    - eapply place_entry_aligned; eassumption.
    - now injection Hp as <- _. }
  simpl in H. clear Hp.
  destruct (negb (z_above s) && _); injection H as <-; simpl; assumption.
Qed.
End LoopsEnd.

(** * Properties of the rest of the decoders *)

(** ** Positions and pointers *)

(** X1.  The byte positions of the pointer words of two cell parts are
    equal only for the same row, column and part, as long as the column
    and part indices are within the counts of the file: no two parts of
    the data block share a pointer. *)
Theorem cell_position_injective
    (data_block_ptr columns parts r1 c1 p1 r2 c2 p2 : Z) :
  0 <= c1 < columns -> 0 <= p1 < parts ->
  0 <= c2 < columns -> 0 <= p2 < parts ->
  _word_to_position (cell_pointer data_block_ptr columns parts r1 c1 p1)
    BYTES_PER_WORD
  = _word_to_position (cell_pointer data_block_ptr columns parts r2 c2 p2)
      BYTES_PER_WORD ->
  r1 = r2 /\ c1 = c2 /\ p1 = p2.
Proof.
  unfold _word_to_position, cell_pointer, BYTES_PER_WORD.
  intros Hc1 Hp1 Hc2 Hp2 H.
  assert (E : (r1 * columns + c1) * parts + p1
              = (r2 * columns + c2) * parts + p2) by lia.
  assert (E1 : r1 * columns + c1 = r2 * columns + c2 /\ p1 = p2).
  { apply Z.div_mod_unique with (b := parts); [lia | lia | lia]. }
  destruct E1 as (E1 & ->).
  assert (E2 : r1 = r2 /\ c1 = c2).
  { apply Z.div_mod_unique with (b := columns); [lia | lia | lia]. }
  tauto.
Qed.

Lemma cell_position_injective_witness :
  _word_to_position (cell_pointer 100 3 2 1 2 1) BYTES_PER_WORD = 440 /\
  (1 = 1 /\ 2 = 2 /\ 1 = 1).
Proof.
  split; [reflexivity|].
  apply (cell_position_injective 100 3 2 1 2 1 1 2 1);
    first [lia | reflexivity].
Defined.

(** ** [_convert_ftime] *)

Lemma ForecastType_of_code_value (f : ForecastType.t) :
  ForecastType.of_code (ForecastType.value f) = Ok f.
Proof. destruct f; reflexivity. Qed.

Lemma ForecastType_of_code_ok (code : Z) :
  (exists f, ForecastType.of_code code = Ok f) <-> 0 <= code <= 3.
Proof.
  split.
  - intros (f & H). destruct code as [|p|p]; try lia; try discriminate.
    do 3 (try destruct p as [p|p|]); simpl in H; try discriminate; lia.
  - intros H.
    assert (C : code = 0 \/ code = 1 \/ code = 2 \/ code = 3) by lia.
    destruct C as [-> | [-> | [-> | ->]]]; simpl; eauto.
Qed.

(** X2.  [_convert_ftime] undoes the packing of a forecast time: the
    integer [type * 100000 + hours * 100 + minutes], when it is not 0,
    gives back the name of the type and the duration.  It returns for the
    integers from 0 to 399999 and raises for every other one. *)
Theorem convert_ftime_unpacks :
  (forall (f : ForecastType.t) (hours minutes : Z),
      0 <= hours -> 0 <= minutes < 100 ->
      hours * 100 + minutes < 100000 ->
      ForecastType.value f * 100000 + hours * 100 + minutes <> 0 ->
      _convert_ftime
        (ForecastType.value f * 100000 + hours * 100 + minutes)
      = Ok (Some (ForecastType.name f, timedelta hours minutes))) /\
  (forall ftime,
      (exists r, _convert_ftime ftime = Ok r) <-> 0 <= ftime < 400000).
Proof.
  split.
  - intros f hours minutes Hh Hm Hlt Hnz. unfold _convert_ftime.
    destruct (Z.eqb_spec (ForecastType.value f * 100000 + hours * 100
                          + minutes) 0); [contradiction|].
    assert (Hq : (ForecastType.value f * 100000 + hours * 100 + minutes)
                 / 100000 = ForecastType.value f).
    { symmetry.
      apply Z.div_unique with (r := hours * 100 + minutes); lia. }
    rewrite Hq, ForecastType_of_code_value. simpl.
    replace (ForecastType.value f * 100000 + hours * 100 + minutes
             - ForecastType.value f * 100000)
      with (hours * 100 + minutes) by lia.
    assert (Hh' : (hours * 100 + minutes) / 100 = hours).
    { symmetry. apply Z.div_unique with (r := minutes); lia. }
    rewrite Hh'.
    replace (hours * 100 + minutes - hours * 100) with minutes by lia.
    reflexivity.
  - intros ftime. unfold _convert_ftime.
    destruct (Z.eqb_spec ftime 0) as [->|Hnz].
    + split; [lia | eauto].
    + pose proof (ForecastType_of_code_ok (ftime / 100000)) as Hc.
      pose proof (Z.div_mod ftime 100000 ltac:(lia)).
      pose proof (Z.mod_pos_bound ftime 100000 ltac:(lia)).
      split.
      * intros (r & Hr).
        destruct (ForecastType.of_code (ftime / 100000)) eqn:E;
          [|discriminate].
        assert (0 <= ftime / 100000 <= 3) by (apply Hc; eauto). lia.
      * intros Hr.
        assert (0 <= ftime / 100000 <= 3) as Hq by lia.
        apply Hc in Hq as (f & ->). simpl. eauto.
Qed.

Lemma convert_ftime_unpacks_witness :
  _convert_ftime 101230 = Ok (Some ("forecast"%string, 45000)).
Proof.
  apply (proj1 convert_ftime_unpacks ForecastType.forecast 12 30); lia.
Defined.

(** ** [_swap_bytes] *)

Lemma bytes_eqb_refl (a : list Z) : bytes_eqb a a = true.
Proof. induction a; simpl; [|rewrite Z.eqb_refl]; auto. Qed.

Lemma bytes_eqb_eq (a b : list Z) : bytes_eqb a b = true <-> a = b.
Proof.
  split; [|intros ->; apply bytes_eqb_refl].
  revert b; induction a as [|x a IH]; intros [|y b] H; simpl in H;
    try discriminate; [reflexivity|].
  apply andb_true_iff in H as (H1 & H2).
  apply Z.eqb_eq in H1. f_equal; auto.
Qed.

(** X3.  When the four bytes read from the file are the integer 1 written
    in some byte order, [_swap_bytes] selects that byte order for all later
    reads, with an empty format prefix exactly when it is the order of the
    host; and any other four bytes select the order opposite to the
    host's. *)
Theorem swap_bytes_selects_file_order (host : byteorder) :
  (forall file : byteorder,
      endian (_swap_bytes host (pack_one file)) = file /\
      (prefmt (_swap_bytes host (pack_one file)) = ""%string
       <-> file = host) /\
      (swaped_bytes (_swap_bytes host (pack_one file)) = false
       <-> file = host)) /\
  (forall binary,
      binary <> pack_one host ->
      endian (_swap_bytes host binary) <> host /\
      swaped_bytes (_swap_bytes host binary) = true).
Proof.
  split.
  - intros file. destruct host, file; simpl;
      repeat split; intros; congruence.
  - intros binary Hne. unfold _swap_bytes.
    destruct (bytes_eqb (pack_one host) binary) eqn:E.
    + apply bytes_eqb_eq in E. congruence.
    + destruct host; simpl; split; congruence.
Qed.

Lemma swap_bytes_selects_file_order_witness :
  endian (_swap_bytes little [0; 0; 0; 1]) <> little /\
  swaped_bytes (_swap_bytes little [0; 0; 0; 1]) = true.
Proof.
  apply (proj2 (swap_bytes_selects_file_order little) [0; 0; 0; 1]).
  discriminate.
Defined.

(** ** The parts of a sounding *)

Lemma every_nth {A : Type} (step : nat) (l : list A) :
  (1 <= step)%nat ->
  forall k g, nth_error (every step k l) g = nth_error l (k + g * step).
Proof.
  intros Hs. induction l as [|x t IH]; intros k g; simpl.
  - now rewrite !nth_error_nil.
  - destruct k as [|k].
    + destruct g as [|g]; simpl; [reflexivity|].
      rewrite IH.
      replace (step + g * step)%nat with (S (step - 1 + g * step)) by lia.
      reflexivity.
    + rewrite IH. reflexivity.
Qed.

Lemma every_length {A : Type} (step : nat) (l : list A) :
  (1 <= step)%nat ->
  forall k,
    List.length (every step k l)
    = ((List.length l + (step - 1) - k) / step)%nat.
Proof.
  intros Hs. induction l as [|x t IH]; intros k.
  - cbn [every List.length]. symmetry. apply Nat.div_small. lia.
  - destruct k as [|k]; cbn [every List.length].
    + rewrite IH.
      assert (E1 : (List.length t + (step - 1) - (step - 1)
                    = List.length t)%nat) by lia.
      assert (E2 : (S (List.length t) + (step - 1) - 0
                    = List.length t + 1 * step)%nat) by lia.
      rewrite E1, E2, Nat.div_add by lia; lia.
    + rewrite IH. f_equal; lia.
Qed.

Lemma by_parameter_nth {A : Type} (names : list string) (values : list A)
    (iprm : nat) (param : string) :
  nth_error names iprm = Some param ->
  nth_error (by_parameter names values) iprm
  = Some (param, py_stride values iprm (List.length names)).
Proof.
  intros H. unfold by_parameter.
  rewrite nth_error_map.
  assert (Hlt : (iprm < List.length names)%nat)
    by (apply nth_error_Some; congruence).
  assert (Hc : nth_error (combine (seq 0 (List.length names)) names) iprm
               = Some (iprm, param)).
  { clear values.
    assert (G : forall (l : list string) s i p,
               nth_error l i = Some p ->
               nth_error (combine (seq s (List.length l)) l) i
               = Some ((s + i)%nat, p)).
    { induction l as [|h l IHl]; intros s [|i] p Hn; simpl in *;
        try discriminate.
      - injection Hn as ->. now rewrite Nat.add_0_r.
      - rewrite (IHl (S s) i p Hn). do 2 f_equal. lia. }
    now apply (G names 0%nat). }
  rewrite Hc. reflexivity.
Qed.

(** X4.  In a part of real data the values are stored level by level;
    [_unpack_unmerged] and [_unpack_merged] give parameter [iprm] the
    values at the positions [iprm], [iprm + nparms], ... and, when the
    number of values read is [n * nparms], each parameter gets exactly [n]
    values.  A part of packed data in an unmerged sounding raises as soon as
    the part has a parameter. *)
Theorem unpack_unmerged_part_by_level (rd : reader) (parms : parameters)
    (lendat : Z) (entries : list (string * list Q)) (iprm : nat)
    (param : string) :
  unpack_unmerged_part rd DataTypes.real parms lendat = Ok entries ->
  nth_error (name parms) iprm = Some param ->
  exists packed_buffer values,
    read_real rd lendat = Ok packed_buffer /\
    nth_error entries iprm = Some (param, values) /\
    (forall g,
        nth_error values g
        = nth_error packed_buffer (iprm + g * List.length (name parms))) /\
    (forall n,
        List.length packed_buffer = (n * List.length (name parms))%nat ->
        List.length values = n) /\
    (forall r,
        unpack_unmerged_part rd DataTypes.realpack parms lendat <> Ok r).
Proof.
  unfold unpack_unmerged_part. intros H Hn.
  apply bind_ok in H as (packed_buffer & Hr & [= <-]).
  assert (Hlt : (iprm < List.length (name parms))%nat)
    by (apply nth_error_Some; congruence).
  exists packed_buffer, (py_stride packed_buffer iprm
                           (List.length (name parms))).
  split; [assumption|]. split; [now apply by_parameter_nth|].
  split; [|split].
  - intros g. apply every_nth. lia.
  - intros n Hlen. unfold py_stride.
    rewrite every_length, Hlen by lia.
    replace (n * List.length (name parms)
             + (List.length (name parms) - 1) - iprm)%nat
      with ((List.length (name parms) - 1 - iprm)
            + n * List.length (name parms))%nat by lia.
    rewrite Nat.div_add by lia.
    rewrite Nat.div_small by lia. reflexivity.
  - intros r. destruct (read_int rd lendat); simpl; [|discriminate].
    destruct (name parms); [|discriminate].
    rewrite nth_error_nil in Hn. discriminate.
Qed.

Lemma unpack_unmerged_part_by_level_witness :
  exists packed_buffer values,
    Ok [1%Q; 2%Q; 3%Q; 4%Q; 5%Q; 6%Q] = Ok packed_buffer /\
    nth_error [("PRES"%string, [1%Q; 4%Q]); ("DRCT"%string, [2%Q; 5%Q]);
               ("SPED"%string, [3%Q; 6%Q])] 1
    = Some ("DRCT"%string, values) /\
    (forall g, nth_error values g = nth_error packed_buffer (1 + g * 3)) /\
    (forall n,
        List.length packed_buffer = (n * 3)%nat -> List.length values = n) /\
    (forall r,
        unpack_unmerged_part
          {| read_real := fun _ => Ok [1%Q; 2%Q; 3%Q; 4%Q; 5%Q; 6%Q];
             read_int := fun _ => Raise ReadError;
             read_GridMetaInt := Raise ReadError;
             read_GridMetaReal := Raise ReadError |}
          DataTypes.realpack
          {| name := ["PRES"; "DRCT"; "SPED"]%string; scale := [0; 0; 0];
             offset := [0; 0; 0]; bits := [32; 32; 32] |} 6
        <> Ok r).
Proof.
  apply (unpack_unmerged_part_by_level
           {| read_real := fun _ => Ok [1%Q; 2%Q; 3%Q; 4%Q; 5%Q; 6%Q];
              read_int := fun _ => Raise ReadError;
              read_GridMetaInt := Raise ReadError;
              read_GridMetaReal := Raise ReadError |}
           {| name := ["PRES"; "DRCT"; "SPED"]%string; scale := [0; 0; 0];
              offset := [0; 0; 0]; bits := [32; 32; 32] |} 6
           _ 1%nat "DRCT"%string); reflexivity.
Defined.

(** X5.  For a part of packed data of a merged sounding that unpacks,
    every parameter gets one value for each of the [lendat / pwords]
    groups of the part, and its value for group [g] is what the fields of
    that parameter in the words of group [g] decode to. *)
Theorem unpack_merged_part_by_group (missing_float : Q) (rd : reader)
    (parms : parameters) (lendat : Z) (entries : list (string * list Q))
    (iprm : nat) (param : string) :
  unpack_merged_part missing_float rd DataTypes.realpack parms lendat
  = Ok entries ->
  nth_error (name parms) iprm = Some param ->
  exists packed_buffer values,
    read_int rd lendat = Ok packed_buffer /\
    nth_error entries iprm = Some (param, values) /\
    Z.of_nat (List.length values) = lendat / pwords_of parms /\
    (forall g,
        Z.of_nat g < lendat / pwords_of parms ->
        exists v,
          nth_error values g = Some v /\
          decodes_to missing_float parms
            (py_slice packed_buffer (Z.of_nat g * pwords_of parms)
               (Z.of_nat g * pwords_of parms + pwords_of parms)) iprm v).
Proof.
  unfold unpack_merged_part. intros H Hn.
  apply bind_ok in H as (packed_buffer & Hr & H).
  apply bind_ok in H as (unpacked & Hu & [= <-]).
  assert (Hlt : (iprm < List.length (name parms))%nat)
    by (apply nth_error_Some; congruence).
  destruct (unpack_real_values _ _ _ _ _ Hu) as (Hlen & Hval).
  exists packed_buffer, (py_stride unpacked iprm (List.length (name parms))).
  split; [assumption|]. split; [now apply by_parameter_nth|].
  assert (Hnn : 0 <= lendat / pwords_of parms) by nia.
  split.
  - unfold py_stride. rewrite every_length by lia.
    assert (Hl : List.length unpacked
                 = (Z.to_nat (lendat / pwords_of parms)
                    * List.length (name parms))%nat) by nia.
    rewrite Hl.
    replace (Z.to_nat (lendat / pwords_of parms)
             * List.length (name parms)
             + (List.length (name parms) - 1) - iprm)%nat
      with ((List.length (name parms) - 1 - iprm)
            + Z.to_nat (lendat / pwords_of parms)
              * List.length (name parms))%nat by lia.
    rewrite Nat.div_add by lia.
    rewrite Nat.div_small by lia. lia.
  - intros g Hg.
    destruct (Hval g iprm Hg Hlt) as (v & Hv & Hd).
    exists v. split; [|assumption].
    unfold py_stride. rewrite every_nth by lia.
    rewrite <- Hv. f_equal. lia.
Qed.

Lemma unpack_merged_part_by_group_witness :
  exists packed_buffer values,
    Ok [0x000FFFFF; 0x12345678] = Ok packed_buffer /\
    nth_error [("A"%string, [inject_Z (-9999)]);
               ("B"%string, [(49151.5)%Q])] 1
    = Some ("B"%string, values) /\
    Z.of_nat (List.length values) = 2 / 2 /\
    (forall g,
        Z.of_nat g < 2 / 2 ->
        exists v,
          nth_error values g = Some v /\
          decodes_to (inject_Z (-9999))
            {| name := ["A"; "B"]%string; scale := [0; -1];
               offset := [0; -5]; bits := [20; 20] |}
            (py_slice packed_buffer (Z.of_nat g * 2) (Z.of_nat g * 2 + 2))
            1 v).
Proof.
  apply (unpack_merged_part_by_group (inject_Z (-9999))
           {| read_real := fun _ => Raise ReadError;
              read_int := fun _ => Ok [0x000FFFFF; 0x12345678];
              read_GridMetaInt := Raise ReadError;
              read_GridMetaReal := Raise ReadError |}
           {| name := ["A"; "B"]%string; scale := [0; -1];
              offset := [0; -5]; bits := [20; 20] |} 2 _ 1%nat "B"%string).
  - vm_compute. reflexivity.
  - reflexivity.
Defined.

(** ** The field that [_unpack_real] extracts *)

Lemma bitstream_nonneg (words : list Z) : 0 <= bitstream words.
Proof.
  induction words as [|w rest IH]; cbn [bitstream]; [lia|].
  pose proof (Z.mod_pos_bound w (2 ^ 32) ltac:(lia)). lia.
Qed.

(** Bit [n] of the stream is bit [n mod 32] of word [n / 32]. *)
Lemma bitstream_testbit (words : list Z) :
  forall n, 0 <= n ->
    Z.testbit (bitstream words) n
    = match nth_error words (Z.to_nat (n / 32)) with
      | Some w => Z.testbit w (n mod 32)
      | None => false
      end.
Proof.
  induction words as [|w rest IH]; intros n Hn.
  - simpl. rewrite Z.bits_0. now destruct (Z.to_nat (n / 32)).
  - cbn [bitstream].
    pose proof (Z.mod_pos_bound w (2 ^ 32) ltac:(lia)) as Hu.
    destruct (Z.ltb_spec n 32) as [Hlt|Hge].
    + rewrite (Z.div_small n 32), (Z.mod_small n 32) by lia.
      cbn [Z.to_nat nth_error].
      rewrite <- (Z.mod_pow2_bits_low (w mod 2 ^ 32 + 2 ^ 32 * bitstream rest)
                    32 n) by lia.
      rewrite (Z.mul_comm (2 ^ 32)), Z.mod_add by lia.
      rewrite Z.mod_mod by lia.
      apply Z.mod_pow2_bits_low. lia.
    + replace n with ((n - 32) + 32) at 1 by lia.
      rewrite <- Z.div_pow2_bits by lia.
      rewrite (Z.mul_comm (2 ^ 32)), Z.div_add by lia.
      rewrite (Z.div_small (w mod 2 ^ 32)), Z.add_0_l by lia.
      rewrite IH by lia.
      replace (n / 32) with ((n - 32) / 32 + 1).
      2:{ replace n with ((n - 32) + 1 * 32) at 2 by lia.
          rewrite Z.div_add by lia. reflexivity. }
      replace (n mod 32) with ((n - 32) mod 32).
      2:{ replace n with ((n - 32) + 1 * 32) at 2 by lia.
          rewrite Z.mod_add by lia. reflexivity. }
      assert (0 <= (n - 32) / 32) by (apply Z.div_pos; lia).
      rewrite Z2Nat.inj_add by lia.
      change (Z.to_nat 1) with 1%nat.
      rewrite Nat.add_1_r. reflexivity.
Qed.

(** The low 32 bits of [c_int32 x] are those of [x]. *)
Lemma c_int32_testbit (x n : Z) :
  0 <= n < 32 -> Z.testbit (c_int32 x) n = Z.testbit x n.
Proof.
  intros Hn.
  rewrite <- (Z.mod_pow2_bits_low (c_int32 x) 32 n) by lia.
  rewrite c_int32_congr.
  apply Z.mod_pow2_bits_low. lia.
Qed.

(** A right shift by [off] moves bit [n + off] of the word to bit [n], for
    the bits that stay within the word. *)
Lemma ishift_right_testbit (w off n : Z) :
  0 <= off -> 0 <= n -> n + off < 32 ->
  Z.testbit (_fortran_ishift w (- off)) n = Z.testbit w (n + off).
Proof.
  intros Ho Hn Hlt. unfold _fortran_ishift.
  destruct (Z.ltb_spec 0 (- off)); [lia|].
  destruct (Z.ltb_spec (- off) 0).
  - rewrite Z.abs_neq by lia. rewrite Z.opp_involutive.
    destruct (Z.ltb_spec w 0).
    + rewrite Z.shiftr_spec by lia.
      change 0xffffffff with (Z.ones 32).
      rewrite Z.land_spec, Z.testbit_ones_nonneg by lia.
      destruct (Z.ltb_spec (n + off) 32); [|lia].
      now rewrite andb_true_r.
    + now rewrite Z.shiftr_spec by lia.
  - replace off with 0 by lia. now rewrite Z.add_0_r.
Qed.

(** Above the word, a right shift of a 32-bit word leaves zeros. *)
Lemma ishift_right_testbit_high (w off n : Z) :
  int32 w -> 0 < off -> 0 <= n -> 32 <= n + off ->
  Z.testbit (_fortran_ishift w (- off)) n = false.
Proof.
  intros Hw Ho Hn Hge. unfold _fortran_ishift, int32 in *.
  destruct (Z.ltb_spec 0 (- off)); [lia|].
  destruct (Z.ltb_spec (- off) 0); [|lia].
  rewrite Z.abs_neq by lia. rewrite Z.opp_involutive.
  destruct (Z.ltb_spec w 0).
  - rewrite Z.shiftr_spec by lia.
    change 0xffffffff with (Z.ones 32).
    rewrite Z.land_spec, Z.testbit_ones_nonneg by lia.
    destruct (Z.ltb_spec (n + off) 32); [lia|].
    apply andb_false_r.
  - rewrite Z.shiftr_spec by lia.
    apply Z.bits_above_log2; [lia|].
    destruct (Z.eq_dec w 0) as [->|]; [simpl; lia|].
    apply Z.log2_lt_pow2; [lia|].
    apply Z.lt_le_trans with (2 ^ 31); [lia|].
    apply Z.pow_le_mono_r; lia.
Qed.

(** A left shift by [k] moves bit [n - k] of the word to bit [n] and
    leaves zeros below. *)
Lemma ishift_left_testbit (w k n : Z) :
  0 < k -> 0 <= n < 32 ->
  Z.testbit (_fortran_ishift w k) n
  = if n <? k then false else Z.testbit w (n - k).
Proof.
  intros Hk Hn. unfold _fortran_ishift.
  destruct (Z.ltb_spec 0 k); [|lia].
  rewrite c_int32_testbit by lia.
  destruct (Z.ltb_spec n k).
  - apply Z.shiftl_spec_low. lia.
  - apply Z.shiftl_spec. lia.
Qed.

Lemma nth_error_py_index {A : Type} (l : list A) (j : Z) (a : A) :
  0 <= j -> py_index l j = Ok a -> nth_error l (Z.to_nat j) = Some a.
Proof.
  intros Hj H. apply py_index_nat.
  now rewrite Z2Nat.id by lia.
Qed.

(** The value of [extract_field] bit by bit. *)
Lemma extract_field_testbit (pdat : list Z) (itotal b ifield : Z) :
  Forall int32 pdat -> 0 <= itotal -> 0 <= b <= 32 ->
  extract_field pdat itotal b = Ok ifield ->
  forall n, 0 <= n ->
    Z.testbit ifield n
    = (n <? b) && Z.testbit (bitstream pdat) (n + itotal).
Proof.
  intros Hw Hit Hb H n Hn.
  unfold extract_field in H.
  pose proof (Z.mod_pos_bound itotal 32 ltac:(lia)) as Hoff.
  pose proof (Z.div_mod itotal 32 ltac:(lia)) as Hdm.
  assert (Hj : 0 <= itotal / 32) by (apply Z.div_pos; lia).
  set (off := itotal mod 32) in *. set (j := itotal / 32) in *.
  fold (imissc_of b) in H. rewrite (imissc_all_ones b Hb) in H.
  apply bind_ok in H as (w0 & Hw0 & H).
  apply nth_error_py_index in Hw0; [|assumption].
  replace (1 - (off + 1)) with (- off) in H by lia.
  assert (Hbit0 : forall m, 0 <= m -> m + off < 32 ->
             Z.testbit (bitstream pdat) (m + itotal) = Z.testbit w0 (m + off)).
  { intros m Hm Hlt. rewrite bitstream_testbit by lia.
    replace (m + itotal) with ((m + off) + j * 32) by lia.
    rewrite Z.div_add, Z.mod_add by lia.
    rewrite Z.div_small, Z.mod_small by lia. simpl.
    now rewrite Hw0. }
  destruct (Z.ltb_spec n b) as [Hnb|Hnb]; simpl.
  2:{ destruct (Z.ltb_spec 32 (off + 1 + b - 1)).
      - apply bind_ok in H as (w1 & _ & [= <-]).
        rewrite Z.lor_spec, !Z.land_spec, Z.testbit_ones_nonneg by lia.
        destruct (Z.ltb_spec n b); [lia|]. now rewrite !andb_false_r.
      - injection H as <-.
        rewrite Z.land_spec, Z.testbit_ones_nonneg by lia.
        destruct (Z.ltb_spec n b); [lia|]. now rewrite andb_false_r. }
  destruct (Z.ltb_spec 32 (off + 1 + b - 1)) as [Hstr|Hfit].
  - apply bind_ok in H as (w1 & Hw1 & [= <-]).
    apply nth_error_py_index in Hw1; [|lia].
    replace (- off + 32) with (32 - off) by lia.
    rewrite Z.lor_spec, !Z.land_spec, Z.testbit_ones_nonneg by lia.
    destruct (Z.ltb_spec n b); [|lia]. rewrite !andb_true_r.
    rewrite (ishift_left_testbit w1 (32 - off) n) by lia.
    destruct (Z.ltb_spec n (32 - off)) as [Hlow|Hhigh].
    + rewrite orb_false_r, (ishift_right_testbit w0 off n) by lia.
      symmetry. apply Hbit0; lia.
    + rewrite (ishift_right_testbit_high w0 off n); try lia.
      2:{ rewrite Forall_forall in Hw. apply Hw.
          eapply nth_error_In, Hw0. }
      simpl. rewrite bitstream_testbit by lia.
      replace (n + itotal) with ((n - (32 - off)) + (j + 1) * 32) by lia.
      rewrite Z.div_add, Z.mod_add by lia.
      rewrite Z.div_small, Z.mod_small by lia. simpl.
      now rewrite Hw1.
  - injection H as <-.
    rewrite Z.land_spec, Z.testbit_ones_nonneg by lia.
    destruct (Z.ltb_spec n b); [|lia]. rewrite andb_true_r.
    rewrite ishift_right_testbit by lia.
    symmetry. apply Hbit0; lia.
Qed.

Lemma extract_field_value (pdat : list Z) (itotal b ifield : Z) :
  Forall int32 pdat -> 0 <= itotal -> 0 <= b <= 32 ->
  extract_field pdat itotal b = Ok ifield ->
  ifield = (bitstream pdat / 2 ^ itotal) mod 2 ^ b.
Proof.
  intros Hw Hit Hb H.
  apply Z.bits_inj'. intros n Hn.
  rewrite (extract_field_testbit _ _ _ _ Hw Hit Hb H n Hn).
  destruct (Z.ltb_spec n b).
  - rewrite Z.mod_pow2_bits_low, Z.div_pow2_bits by lia. reflexivity.
  - rewrite Z.mod_pow2_bits_high by lia. reflexivity.
Qed.

(** X6.  The field [_unpack_real] extracts for a parameter of [bits] bits
    that starts [itotal] bits into a group is exactly those bits of the
    group, the words of the group being read as one number with the first
    word and the lowest bits first; in particular it lies between 0 and
    [2^bits - 1]. *)
Theorem extract_field_is_bit_field (pdat : list Z) (itotal b ifield : Z) :
  Forall int32 pdat -> 0 <= itotal -> 0 <= b <= 32 ->
  extract_field pdat itotal b = Ok ifield ->
  ifield = (bitstream pdat / 2 ^ itotal) mod 2 ^ b /\
  0 <= ifield < 2 ^ b.
Proof.
  intros Hw Hit Hb H.
  pose proof (extract_field_value _ _ _ _ Hw Hit Hb H) as E.
  split; [exact E|].
  rewrite E. apply Z.mod_pos_bound. apply Z.pow_pos_nonneg; lia.
Qed.

Lemma extract_field_is_bit_field_witness :
  491520 = (bitstream [0x000FFFFF; 0x12345678] / 2 ^ 20) mod 2 ^ 20 /\
  0 <= 491520 < 2 ^ 20.
Proof.
  apply (extract_field_is_bit_field [0x000FFFFF; 0x12345678] 20 20 491520).
  - repeat constructor; unfold int32; lia.
  - lia.
  - lia.
  - reflexivity.
Defined.

(** ** [_unpack_real] on a well-formed table *)

Lemma py_index_ok {A : Type} (l : list A) (j : Z) :
  0 <= j < Z.of_nat (List.length l) -> exists a, py_index l j = Ok a.
Proof.
  intros Hj. unfold py_index.
  destruct (Z.ltb_spec j 0); [lia|].
  destruct (Z.ltb_spec j 0); [lia|].
  destruct (Z.leb_spec (Z.of_nat (List.length l)) j); [lia|]. simpl.
  destruct (nth_error l (Z.to_nat j)) eqn:E; [eauto|].
  apply nth_error_None in E. lia.
Qed.

Lemma py_setitem_ok {A : Type} (l : list A) (j : Z) (v : A) :
  0 <= j < Z.of_nat (List.length l) -> exists l', py_setitem l j v = Ok l'.
Proof.
  intros Hj. unfold py_setitem.
  destruct (Z.ltb_spec j 0); [lia|].
  destruct (Z.ltb_spec j 0); [lia|].
  destruct (Z.leb_spec (Z.of_nat (List.length l)) j); [lia|]. simpl.
  eauto.
Qed.

Lemma sum_nonneg (l : list Z) : Forall (fun b => 0 <= b) l -> 0 <= sum l.
Proof.
  induction 1 as [|b l Hb _ IH]; [unfold sum; simpl; lia|].
  change (b :: l) with ([b] ++ l). rewrite sum_app.
  unfold sum at 1; simpl. lia.
Qed.

Lemma Forall_firstn_keep {A : Type} (P : A -> Prop) (l : list A) (k : nat) :
  Forall P l -> Forall P (firstn k l).
Proof.
  intros H. revert k. induction H as [|a l Ha _ IH]; intros [|k]; simpl;
    constructor; auto.
Qed.

Lemma sum_firstn_le (l : list Z) (k : nat) :
  Forall (fun b => 0 <= b) l -> sum (firstn k l) <= sum l.
Proof.
  intros H. rewrite <- (firstn_skipn k l) at 2. rewrite sum_app.
  assert (0 <= sum (skipn k l)); [|lia].
  apply sum_nonneg. rewrite <- (firstn_skipn k l) in H.
  now apply Forall_app in H.
Qed.

Lemma extract_field_returns (pdat : list Z) (itotal b : Z) :
  0 <= itotal -> 1 <= b <= 32 ->
  itotal + b <= 32 * Z.of_nat (List.length pdat) ->
  exists ifield, extract_field pdat itotal b = Ok ifield.
Proof.
  intros Hit Hb Hlen. unfold extract_field.
  pose proof (Z.mod_pos_bound itotal 32 ltac:(lia)) as Hoff.
  pose proof (Z.div_mod itotal 32 ltac:(lia)) as Hdm.
  assert (Hj : 0 <= itotal / 32) by (apply Z.div_pos; lia).
  destruct (py_index_ok pdat (itotal / 32)) as (w0 & ->); [lia|]. simpl.
  destruct (Z.ltb_spec 32 (itotal mod 32 + 1 + b - 1)); [|eauto].
  destruct (py_index_ok pdat (itotal / 32 + 1)) as (w1 & ->); [lia|].
  simpl. eauto.
Qed.

(** A field is a number of [b] bits, whatever the words are. *)
Lemma extract_field_range (pdat : list Z) (itotal b ifield : Z) :
  0 <= b <= 32 ->
  extract_field pdat itotal b = Ok ifield -> 0 <= ifield < 2 ^ b.
Proof.
  intros Hb H. unfold extract_field in H. cbv zeta in H.
  apply bind_ok in H as (w0 & _ & H).
  fold (imissc_of b) in H. rewrite (imissc_all_ones b Hb) in H.
  destruct (_ <? _).
  - apply bind_ok in H as (w1 & _ & [= <-]).
    rewrite <- Z.land_lor_distr_l, Z.land_ones by lia.
    apply Z.mod_pos_bound. apply Z.pow_pos_nonneg; lia.
  - injection H as <-. rewrite Z.land_ones by lia.
    apply Z.mod_pos_bound. apply Z.pow_pos_nonneg; lia.
Qed.

(** Line 460 on a field of at most 32 bits, a 32-bit offset and a scale
    of at most 290: the value fits a float. *)
Lemma float_store_fits (ifield imissc off s : Z) :
  0 <= ifield < 2 ^ 32 -> int32 off -> s <= 290 ->
  float_store ifield imissc off s = Ok tt.
Proof.
  intros Hf Ho Hs. unfold float_store.
  destruct (ifield =? imissc); [reflexivity|]. cbv zeta.
  assert (Hbound : 2 ^ 33 * 10 ^ 290 < 2 ^ 1024 - 2 ^ 970)
    by (vm_compute; reflexivity).
  assert (Hsmall : 2 ^ 33 < 2 ^ 1024 - 2 ^ 970)
    by (vm_compute; reflexivity).
  assert (Ha : Z.abs (ifield + off) < 2 ^ 33)
    by (unfold int32 in Ho; lia).
  assert (E : float_overflows
                (if 0 <=? s then (ifield + off) * 10 ^ s else ifield + off)
              = false).
  { unfold float_overflows. apply Z.leb_gt.
    destruct (Z.leb_spec 0 s).
    - rewrite Z.abs_mul.
      assert (H10 : 0 < 10 ^ s) by (apply Z.pow_pos_nonneg; lia).
      assert (Hle : 10 ^ s <= 10 ^ 290) by (apply Z.pow_le_mono_r; lia).
      rewrite (Z.abs_eq (10 ^ s)) by lia.
      eapply Z.le_lt_trans; [|exact Hbound].
      apply Z.mul_le_mono_nonneg; [apply Z.abs_nonneg|lia|lia|exact Hle].
    - eapply Z.lt_trans; [exact Ha|exact Hsmall]. }
  now rewrite E.
Qed.

Section UnpackReturns.
Variable missing_float : Q.
Variable buffer : list Z.
Variable parms : parameters.
Hypothesis Hwf : table_wf parms.
Hypothesis Hbd : table_bounded parms.

Let nparms : nat := List.length (name parms).

Lemma table_bits_nonneg : Forall (fun b => 0 <= b) (bits parms).
Proof.
  destruct Hwf as (_ & _ & _ & _ & H).
  eapply Forall_impl; [|exact H]. simpl. intros; lia.
Qed.

Lemma table_sum_pos : 0 < sum (bits parms).
Proof.
  destruct Hwf as (Hne & _ & _ & Hl & H).
  destruct (bits parms) as [|b l] eqn:E.
  - destruct (name parms); [congruence | discriminate].
  - inversion H; subst.
    change (b :: l) with ([b] ++ l). rewrite sum_app.
    assert (0 <= sum l).
    { apply sum_nonneg. eapply Forall_impl; [|eassumption].
      simpl; intros; lia. }
    unfold sum at 1; simpl. lia.
Qed.

Lemma unpack_parameter_returns (pdat : list Z) (idata : nat) :
  (idata < nparms)%nat ->
  sum (bits parms) <= 32 * Z.of_nat (List.length pdat) ->
  exists v b,
    unpack_parameter missing_float parms pdat (Z.of_nat idata)
      (bit_offset parms idata) = Ok (v, b).
Proof.
  intros Hi Hlen. destruct Hwf as (_ & Hs & Ho & Hb & Hall).
  fold nparms in Hs, Ho, Hb.
  unfold unpack_parameter.
  destruct Hbd as (Hoff & Hsc).
  destruct (py_index_ok (scale parms) (Z.of_nat idata)) as (s & Es);
    [lia|]. rewrite Es. simpl.
  destruct (py_index_ok (offset parms) (Z.of_nat idata)) as (off & Eo);
    [lia|]. rewrite Eo. simpl.
  apply py_index_nat in Es, Eo.
  assert (Hs290 : s <= 290).
  { rewrite Forall_forall in Hsc. apply Hsc. eapply nth_error_In, Es. }
  assert (Ho32 : int32 off).
  { rewrite Forall_forall in Hoff. apply Hoff. eapply nth_error_In, Eo. }
  destruct (py_index_ok (bits parms) (Z.of_nat idata)) as (b & Eb);
    [lia|]. rewrite Eb. simpl.
  apply py_index_nat in Eb.
  assert (Hb32 : 1 <= b <= 32).
  { rewrite Forall_forall in Hall. apply Hall. eapply nth_error_In, Eb. }
  pose proof (bit_offset_succ _ _ _ Eb) as Hsucc.
  pose proof (sum_firstn_le (bits parms) (S idata) table_bits_nonneg) as Hle.
  pose proof (sum_nonneg (firstn idata (bits parms))) as Hnn.
  fold (bit_offset parms (S idata)) in Hle.
  fold (bit_offset parms idata) in Hnn.
  destruct (extract_field_returns pdat (bit_offset parms idata) b)
    as (ifield & Ef); try lia.
  { apply Hnn. apply Forall_firstn_keep. apply table_bits_nonneg. }
  rewrite Ef. simpl.
  apply extract_field_range in Ef; [|lia].
  assert (Hp : 2 ^ b <= 2 ^ 32) by (apply Z.pow_le_mono_r; lia).
  rewrite (float_store_fits ifield (imissc_of b) off s) by
    (try assumption; lia).
  simpl. eauto.
Qed.

Lemma unpack_group_returns (pdat : list Z) (ir : nat) (n : nat) :
  sum (bits parms) <= 32 * Z.of_nat (List.length pdat) ->
  forall k u,
    (k + n <= nparms)%nat ->
    (ir + k + n <= List.length u)%nat ->
    exists out,
      unpack_group missing_float parms pdat (Z.of_nat ir) (seq k n)
        (bit_offset parms k) u = Ok out.
Proof.
  intros Hlen. induction n as [|n IH]; intros k u Hk Hu; simpl.
  - eauto.
  - destruct (unpack_parameter_returns pdat k) as (v & b & Hp);
      [lia | assumption |].
    rewrite Hp. simpl.
    destruct (py_setitem_ok u (Z.of_nat ir + Z.of_nat k) v) as (u' & Hs);
      [lia|].
    rewrite Hs. simpl.
    apply unpack_parameter_ok in Hp as (_ & Hb).
    rewrite <- (bit_offset_succ _ _ _ Hb).
    apply IH; [lia|].
    apply py_setitem_length in Hs. lia.
Qed.

Lemma py_slice_length (l : list Z) (a n : Z) :
  0 <= a -> 0 <= n -> a + n <= Z.of_nat (List.length l) ->
  Z.of_nat (List.length (py_slice l a (a + n))) = n.
Proof.
  intros Ha Hn Hl. unfold py_slice.
  rewrite length_firstn, length_skipn. lia.
Qed.

Lemma unpack_groups_returns (pwords : Z) (npack : nat) :
  sum (bits parms) <= 32 * pwords -> 0 <= pwords ->
  forall ir ii u,
    0 <= ii ->
    ii + Z.of_nat npack * pwords <= Z.of_nat (List.length buffer) ->
    (ir + npack * nparms <= List.length u)%nat ->
    exists out,
      unpack_groups missing_float buffer parms pwords npack
        (Z.of_nat ir) ii u = Ok out.
Proof.
  intros Hsum Hpw. induction npack as [|n IH]; intros ir ii u Hii Hb Hu;
    simpl.
  - eauto.
  - destruct (unpack_group_returns (py_slice buffer ii (ii + pwords)) ir
                nparms) with (k := 0%nat) (u := u) as (u' & Hg).
    + rewrite py_slice_length; lia.
    + lia.
    + simpl in Hu. lia.
    + change (bit_offset parms 0) with 0 in Hg. fold nparms. rewrite Hg.
      simpl.
      replace (Z.of_nat ir + Z.of_nat nparms) with (Z.of_nat (ir + nparms))
        by lia.
      apply IH; [lia | lia |].
      change 0 with (bit_offset parms 0) in Hg.
      apply unpack_group_spec in Hg as (Hlen & _). simpl in Hu. lia.
Qed.
End UnpackReturns.

(** X7.  With a well-formed parameter table whose offsets are 32-bit
    integers and whose scales are at most 290, a declared length that is a
    non-negative multiple of [pwords] and a buffer that holds at least that
    many words, [_unpack_real] returns: no index is out of range and no
    value is too large for a float, so the length mismatch is the only
    error on such input. *)
Theorem unpack_real_returns (missing_float : Q) (buffer : list Z)
    (parms : parameters) (length : Z) :
  table_wf parms -> table_bounded parms ->
  0 <= length -> length mod pwords_of parms = 0 ->
  length <= Z.of_nat (List.length buffer) ->
  exists out, _unpack_real missing_float buffer parms length = Ok out.
Proof.
  intros Hwf Hbd Hlen Hmod Hbuf.
  pose proof (table_sum_pos parms Hwf) as Hpos.
  pose proof (pwords_ceil parms) as Hceil.
  assert (Hpw : 0 < pwords_of parms) by lia.
  pose proof (Z.div_mod length (pwords_of parms) ltac:(lia)) as Hdm.
  rewrite Hmod, Z.add_0_r in Hdm.
  assert (Hq0 : 0 <= length / pwords_of parms)
    by (apply Z.div_pos; lia).
  assert (Hq : (length - 1) / pwords_of parms + 1
               = length / pwords_of parms).
  { set (q := length / pwords_of parms) in *.
    replace (length - 1)
      with ((q - 1) * pwords_of parms + (pwords_of parms - 1)) by lia.
    rewrite Z.div_add_l by lia.
    rewrite Z.div_small by lia. lia. }
  unfold _unpack_real, floordiv.
  destruct (Z.eqb_spec (pwords_of parms) 0); [lia|]. simpl.
  rewrite Hq. unfold np_ones_times.
  destruct (Z.ltb_spec (length / pwords_of parms
                        * Z.of_nat (List.length (name parms))) 0); [nia|].
  simpl.
  destruct (Z.eqb_spec (length / pwords_of parms * pwords_of parms) length);
    [|lia]. simpl.
  change 0 with (Z.of_nat 0) at 1.
  apply unpack_groups_returns; try assumption; try lia.
  rewrite repeat_length, Z2Nat.inj_mul, Nat2Z.id by lia. lia.
Qed.

Lemma unpack_real_returns_witness :
  exists out,
    _unpack_real (inject_Z (-9999)) [0x000FFFFF; 0x12345678]
      {| name := ["A"; "B"]%string; scale := [0; -1];
         offset := [0; -5]; bits := [20; 20] |} 2 = Ok out.
Proof.
  apply unpack_real_returns.
  - repeat split; try discriminate; repeat constructor; lia.
  - split; repeat constructor; unfold int32; lia.
  - lia.
  - reflexivity.
  - simpl. lia.
Defined.

Lemma Forall_skipn_keep {A : Type} (P : A -> Prop) (l : list A) (k : nat) :
  Forall P l -> Forall P (skipn k l).
Proof.
  intros H. revert k. induction H as [|a l Ha Hl IH]; intros [|k]; simpl;
    auto.
Qed.

(** X8.  What [_unpack_real] computes, from the words to the values: for a
    well-formed table and a buffer of 32-bit words, the value at position
    [g * nparms + idata] of the result comes from the field of [bits] bits
    at the bit offset of parameter [idata] in the words of group [g]; it is
    the missing value when all bits of the field are set, and
    [(field + offset) * 10^scale] otherwise. *)
Theorem unpack_real_functional (missing_float : Q) (buffer : list Z)
    (parms : parameters) (length : Z) (out : list Q) :
  table_wf parms -> Forall int32 buffer ->
  _unpack_real missing_float buffer parms length = Ok out ->
  forall (g idata : nat) (s off b : Z),
    Z.of_nat g < length / pwords_of parms ->
    nth_error (scale parms) idata = Some s ->
    nth_error (offset parms) idata = Some off ->
    nth_error (bits parms) idata = Some b ->
    let group :=
      py_slice buffer (Z.of_nat g * pwords_of parms)
        (Z.of_nat g * pwords_of parms + pwords_of parms) in
    let field :=
      (bitstream group / 2 ^ bit_offset parms idata) mod 2 ^ b in
    nth_error out (g * List.length (name parms) + idata)
    = Some (if field =? 2 ^ b - 1 then missing_float
            else (inject_Z (field + off) * inject_Z 10 ^ s)%Q).
Proof.
  intros Hwf Hw H g idata s off b Hg Hs Hoff Hb group field.
  pose proof Hwf as (_ & _ & _ & Hlb & Hall).
  assert (Hi : (idata < List.length (name parms))%nat).
  { rewrite <- Hlb. apply nth_error_Some. congruence. }
  destruct (unpack_real_values _ _ _ _ _ H) as (_ & Hin).
  destruct (Hin g idata Hg Hi)
    as (v & Hv & s' & off' & b' & ifield & Hs' & Hoff' & Hb' & Hf & ->).
  rewrite Hs in Hs'. rewrite Hoff in Hoff'. rewrite Hb in Hb'.
  injection Hs' as <-. injection Hoff' as <-. injection Hb' as <-.
  assert (Hb32 : 1 <= b <= 32).
  { rewrite Forall_forall in Hall. apply Hall. eapply nth_error_In, Hb. }
  assert (Hoff0 : 0 <= bit_offset parms idata).
  { apply sum_nonneg, Forall_firstn_keep.
    eapply Forall_impl; [|exact Hall]. simpl; intros; lia. }
  assert (E : ifield = field).
  { apply extract_field_value; try assumption; try lia.
    unfold py_slice. now apply Forall_firstn_keep, Forall_skipn_keep. }
  rewrite Hv. unfold decode_value, pow10.
  rewrite imissc_all_ones, Z.ones_equiv, E by lia.
  reflexivity.
Qed.

Lemma unpack_real_functional_witness :
  let field :=
    (bitstream (py_slice [0x000FFFFF; 0x12345678] 0 2) / 2 ^ 20)
    mod 2 ^ 20 in
  nth_error [inject_Z (-9999); (49151.5)%Q] (0 * 2 + 1)
  = Some (if field =? 2 ^ 20 - 1 then inject_Z (-9999)
          else (inject_Z (field + -5) * inject_Z 10 ^ (-1))%Q).
Proof.
  apply (unpack_real_functional (inject_Z (-9999))
           [0x000FFFFF; 0x12345678]
           {| name := ["A"; "B"]%string; scale := [0; -1];
              offset := [0; -5]; bits := [20; 20] |} 2
           [inject_Z (-9999); (49151.5)%Q]).
  - repeat split; try discriminate; repeat constructor; lia.
  - repeat constructor; unfold int32; lia.
  - vm_compute. reflexivity.
  - reflexivity.
  - reflexivity.
  - reflexivity.
  - reflexivity.
Defined.

(** ** The fields of a packed grid *)

(** A right shift by [k] of a 32-bit word gives its pattern divided by
    [2^k]. *)
Lemma ishift_right_value (w k : Z) :
  int32 w -> 0 < k ->
  _fortran_ishift w (- k) = (w mod 2 ^ 32) / 2 ^ k.
Proof.
  intros Hw Hk. unfold _fortran_ishift, int32 in *.
  destruct (Z.ltb_spec 0 (- k)); [lia|].
  destruct (Z.ltb_spec (- k) 0); [|lia].
  rewrite Z.abs_neq, Z.opp_involutive by lia.
  destruct (Z.ltb_spec w 0).
  - change 0xffffffff with (Z.ones 32).
    rewrite Z.land_ones, Z.shiftr_div_pow2 by lia. reflexivity.
  - rewrite Z.shiftr_div_pow2, Z.mod_small by lia. reflexivity.
Qed.

(** The value of [grid_field] bit by bit: bit [n] of the field is bit
    [n + 65 - ibit - bits] of the two words read as one 64-bit number, the
    first word highest. *)
Lemma grid_field_testbit (packed_buffer : list Z) (bits iword ibit idat : Z) :
  Forall int32 packed_buffer ->
  0 <= iword -> 1 <= ibit <= 32 -> 0 <= bits <= 32 ->
  grid_field packed_buffer bits iword ibit = Ok idat ->
  let w0 := nth (Z.to_nat iword) packed_buffer 0 in
  let w1 := nth (Z.to_nat (iword + 1)) packed_buffer 0 in
  forall n, 0 <= n ->
    Z.testbit idat n
    = (n <? bits)
      && Z.testbit (w0 mod 2 ^ 32 * 2 ^ 32 + w1 mod 2 ^ 32)
           (n + (65 - ibit - bits)).
Proof.
  intros Hw Hiw Hib Hb H w0 w1 n Hn.
  unfold grid_field in H.
  apply bind_ok in H as (x0 & Hx0 & H).
  apply nth_error_py_index in Hx0; [|assumption].
  assert (Ew0 : x0 = w0) by (symmetry; now apply nth_error_nth).
  subst x0.
  assert (Hw0 : int32 w0).
  { rewrite Forall_forall in Hw. apply Hw. eapply nth_error_In, Hx0. }
  assert (Hw1 : int32 w1).
  { subst w1. destruct (nth_in_or_default (Z.to_nat (iword + 1))
                          packed_buffer 0) as [Hin | ->].
    - rewrite Forall_forall in Hw. now apply Hw.
    - unfold int32. lia. }
  unfold land_pow2m1 in H.
  destruct (Z.ltb_spec bits 0); [lia|]. simpl in H.
  replace (2 ^ bits - 1) with (Z.ones bits) in H
    by (rewrite Z.ones_equiv; lia).
  pose proof (Z.mod_pos_bound w0 (2 ^ 32) ltac:(lia)) as Hu0.
  pose proof (Z.mod_pos_bound w1 (2 ^ 32) ltac:(lia)) as Hu1.
  (* the bits of the 64-bit window *)
  assert (Hhigh : forall m, 32 <= m ->
             Z.testbit (w0 mod 2 ^ 32 * 2 ^ 32 + w1 mod 2 ^ 32) m
             = Z.testbit (w0 mod 2 ^ 32) (m - 32)).
  { intros m Hm. replace m with ((m - 32) + 32) at 1 by lia.
    rewrite <- Z.div_pow2_bits by lia.
    rewrite Z.div_add_l by lia.
    rewrite (Z.div_small (w1 mod 2 ^ 32)), Z.add_0_r by lia.
    reflexivity. }
  assert (Hlow : forall m, 0 <= m < 32 ->
             Z.testbit (w0 mod 2 ^ 32 * 2 ^ 32 + w1 mod 2 ^ 32) m
             = Z.testbit w1 m).
  { intros m Hm.
    rewrite <- (Z.mod_pow2_bits_low _ 32 m) by lia.
    rewrite Z.add_comm, Z.mod_add, Z.mod_mod by lia.
    apply Z.mod_pow2_bits_low. lia. }
  assert (Hpat : forall m, 0 <= m < 32 ->
             Z.testbit (w0 mod 2 ^ 32) m = Z.testbit w0 m).
  { intros m Hm. apply Z.mod_pow2_bits_low. lia. }
  destruct (Z.ltb_spec 0 (bits + ibit - 33)) as [Hstr|Hfit].
  - (* the field runs into the next word *)
    apply bind_ok in H as (x1 & Hx1 & [= <-]).
    apply nth_error_py_index in Hx1; [|lia].
    assert (Ew1 : x1 = w1) by (symmetry; now apply nth_error_nth).
    subst x1.
    replace (bits + ibit - 33 - 32) with (- (65 - ibit - bits)) by lia.
    rewrite (ishift_right_value w1 (65 - ibit - bits)) by (assumption || lia).
    rewrite Z.lor_spec, Z.land_spec, Z.testbit_ones_nonneg by lia.
    rewrite Z.div_pow2_bits by lia.
    destruct (Z.ltb_spec n bits) as [Hnb|Hnb].
    + rewrite andb_true_r. cbn [andb].
      rewrite (ishift_left_testbit w0 (bits + ibit - 33) n) by lia.
      destruct (Z.ltb_spec n (bits + ibit - 33)) as [Hl|Hh].
      * cbn [orb]. rewrite (Hlow (n + (65 - ibit - bits))) by lia.
        apply Z.mod_pow2_bits_low. lia.
      * rewrite (Hhigh (n + (65 - ibit - bits))) by lia.
        rewrite (Hpat (n + (65 - ibit - bits) - 32)) by lia.
        rewrite (Z.mod_pow2_bits_high w1 32) by lia.
        rewrite orb_false_r. f_equal. lia.
    + rewrite andb_false_r. cbn [andb orb].
      apply Z.mod_pow2_bits_high. lia.
  - (* the field lies within the word *)
    injection H as <-.
    rewrite Z.land_spec, Z.testbit_ones_nonneg by lia.
    destruct (Z.ltb_spec n bits) as [Hnb|Hnb];
      [|now rewrite andb_false_r].
    rewrite andb_true_r. cbn [andb].
    rewrite (Hhigh (n + (65 - ibit - bits))) by lia.
    rewrite (Hpat (n + (65 - ibit - bits) - 32)) by lia.
    replace (bits + ibit - 33) with (- (33 - bits - ibit)) by lia.
    rewrite (ishift_right_testbit w0 (33 - bits - ibit) n) by lia.
    f_equal. lia.
Qed.

(** X9.  The field a grid decoder reads at word [iword] and bit [ibit]
    (counted from 1 at the most significant bit) is the [bits] bits that
    start there, running into the most significant bits of the next word
    when the word ends first; it lies between 0 and [2^bits - 1]. *)
Theorem grid_field_is_bit_field (packed_buffer : list Z)
    (bits iword ibit idat : Z) :
  Forall int32 packed_buffer ->
  0 <= iword -> 1 <= ibit <= 32 -> 0 <= bits <= 32 ->
  grid_field packed_buffer bits iword ibit = Ok idat ->
  let w0 := nth (Z.to_nat iword) packed_buffer 0 in
  let w1 := nth (Z.to_nat (iword + 1)) packed_buffer 0 in
  idat = ((w0 mod 2 ^ 32 * 2 ^ 32 + w1 mod 2 ^ 32)
          / 2 ^ (65 - ibit - bits)) mod 2 ^ bits /\
  0 <= idat < 2 ^ bits.
Proof.
  intros Hw Hiw Hib Hb H w0 w1.
  assert (E : idat = ((w0 mod 2 ^ 32 * 2 ^ 32 + w1 mod 2 ^ 32)
                      / 2 ^ (65 - ibit - bits)) mod 2 ^ bits).
  { apply Z.bits_inj'. intros n Hn.
    rewrite (grid_field_testbit _ _ _ _ _ Hw Hiw Hib Hb H n Hn).
    fold w0 w1.
    destruct (Z.ltb_spec n bits).
    - rewrite Z.mod_pow2_bits_low, Z.div_pow2_bits by lia. reflexivity.
    - rewrite Z.mod_pow2_bits_high by lia. reflexivity. }
  split; [exact E|].
  rewrite E. apply Z.mod_pos_bound. apply Z.pow_pos_nonneg; lia.
Qed.

Lemma grid_field_is_bit_field_witness :
  2 = ((nth 0 [0x02100000; 0] 0 mod 2 ^ 32 * 2 ^ 32
        + nth 1 [0x02100000; 0] 0 mod 2 ^ 32)
       / 2 ^ (65 - 5 - 4)) mod 2 ^ 4 /\
  0 <= 2 < 2 ^ 4.
Proof.
  apply (grid_field_is_bit_field [0x02100000; 0] 4 0 5 2).
  - repeat constructor; unfold int32; lia.
  - lia.
  - lia.
  - lia.
  - reflexivity.
Defined.

(** ** The [grib] and [dec] decoders *)

Lemma advance_cursor (bits c : Z) :
  0 <= bits <= 32 -> 0 <= c ->
  advance bits (fst (cursor bits c)) (snd (cursor bits c))
  = cursor bits (c + 1).
Proof.
  intros Hb Hc. unfold advance, cursor. simpl fst. simpl snd.
  assert (Hcb : 0 <= c * bits) by nia.
  pose proof (Z.div_mod (c * bits) 32 ltac:(lia)) as Hdm.
  pose proof (Z.mod_pos_bound (c * bits) 32 ltac:(lia)) as Hm.
  set (q := c * bits / 32) in *. set (r := (c * bits) mod 32) in *.
  replace ((c + 1) * bits) with (c * bits + bits) by lia.
  destruct (Z.ltb_spec 32 (r + 1 + bits)).
  - assert (Ed : (c * bits + bits) / 32 = q + 1).
    { symmetry. apply Z.div_unique with (r := r + bits - 32); lia. }
    assert (Em : (c * bits + bits) mod 32 = r + bits - 32).
    { symmetry. apply Z.mod_unique with (q := q + 1); lia. }
    rewrite Ed, Em. f_equal; lia.
  - assert (Ed : (c * bits + bits) / 32 = q).
    { symmetry. apply Z.div_unique with (r := r + bits); lia. }
    assert (Em : (c * bits + bits) mod 32 = r + bits).
    { symmetry. apply Z.mod_unique with (q := q); lia. }
    rewrite Ed, Em. f_equal; lia.
Qed.

Section GribCells.
Variable missing_float : Q.
Variable mi : GridMetaInt.
Variable mr : GridMetaReal.
Variable packed_buffer : list Z.
Hypothesis Hbits : 0 <= gmi_bits mi <= 32.

(** The loop of lines 676-695 stores at each cell it visits the value of
    the field at the cursor of that cell, and leaves the other cells. *)
Lemma grib_cells_spec (n : nat) :
  forall (k : nat) (grid out : list Q),
    grib_cells missing_float mi mr packed_buffer (seq k n) grid
      (fst (cursor (gmi_bits mi) (Z.of_nat k)))
      (snd (cursor (gmi_bits mi) (Z.of_nat k))) = Ok out ->
    List.length out = List.length grid /\
    (forall c, (k <= c < k + n)%nat ->
       exists idat,
         grid_field packed_buffer (gmi_bits mi)
           (fst (cursor (gmi_bits mi) (Z.of_nat c)))
           (snd (cursor (gmi_bits mi) (Z.of_nat c))) = Ok idat /\
         nth_error out c = Some (grib_value missing_float mi mr idat)) /\
    (forall j, ~ (k <= j < k + n)%nat -> nth_error out j = nth_error grid j).
Proof.
  induction n as [|n IH]; intros k grid out H.
  - simpl in H. injection H as <-. repeat split; auto. intros; lia.
  - cbn [seq grib_cells] in H.
    apply bind_ok in H as (idat & Hf & H).
    apply bind_ok in H as (grid' & Hs & H).
    pose proof (advance_cursor (gmi_bits mi) (Z.of_nat k) Hbits
                  ltac:(lia)) as Ha.
    replace (Z.of_nat k + 1) with (Z.of_nat (S k)) in Ha by lia.
    rewrite Ha in H.
    change (cursor (gmi_bits mi) (Z.of_nat (S k)))
      with (fst (cursor (gmi_bits mi) (Z.of_nat (S k))),
            snd (cursor (gmi_bits mi) (Z.of_nat (S k)))) in H at 1.
    cbv iota in H.
    apply IH in H as (Hlen & Hin & Hout).
    apply py_setitem_nat in Hs as (-> & Hlt); [|lia].
    rewrite Nat2Z.id in *. rewrite set_nth_length in Hlen.
    repeat split; [assumption | |].
    + intros c Hc. destruct (Nat.eq_dec c k) as [->|Hne].
      * exists idat. split; [assumption|].
        rewrite Hout by lia. now apply set_nth_same.
      * apply Hin. lia.
    + intros j Hj. rewrite Hout by lia. apply set_nth_other. lia.
Qed.
End GribCells.

(** X10.  When the [grib] or [dec] branch returns a grid, the data length
    exceeds 1, the grid has [kxky] cells, whatever [kx] and [ky] are, and
    cell [c] holds the value of the field number [c] of the packed words:
    the missing value when the field is all ones and the missing flag is
    set, [reference + field * scale] otherwise. *)
Theorem unpack_grib_values (missing_float : Q)
    (data_header_length kx ky : Z) (rd : reader) (header_length : Z)
    (p : PackingType.t) (mi : GridMetaInt) (mr : GridMetaReal)
    (packed_buffer : list Z) (grid : list Q) :
  p = PackingType.grib \/ p = PackingType.dec ->
  read_GridMetaInt rd = Ok mi -> read_GridMetaReal rd = Ok mr ->
  read_int rd (data_header_length - header_length - 6) = Ok packed_buffer ->
  0 <= gmi_bits mi <= 32 ->
  _unpack_grid missing_float data_header_length kx ky rd p
    header_length = Ok (Some grid) ->
  1 < data_header_length - header_length - 6 /\
  Z.of_nat (List.length grid) = gmi_kxky mi /\
  (forall c, (c < List.length grid)%nat ->
     exists idat,
       grid_field packed_buffer (gmi_bits mi)
         (fst (cursor (gmi_bits mi) (Z.of_nat c)))
         (snd (cursor (gmi_bits mi) (Z.of_nat c))) = Ok idat /\
       nth_error grid c = Some (grib_value missing_float mi mr idat)).
Proof.
  intros Hp Hmi Hmr Hbuf Hbits H.
  assert (Hg : unpack_grib missing_float data_header_length rd header_length
               = Ok (Some grid)) by (destruct Hp; subst p; exact H).
  clear H. unfold unpack_grib in Hg. rewrite Hmi, Hmr in Hg. simpl in Hg.
  apply bind_ok in Hg as (zeros & Hz & Hg).
  unfold read_words in Hg.
  destruct (data_header_length - header_length - 6 <? 0);
    [discriminate|].
  rewrite Hbuf in Hg. simpl in Hg.
  destruct (Z.ltb_spec 1 (data_header_length - header_length - 6));
    [|discriminate].
  apply bind_ok in Hg as (g & Hcells & [= <-]).
  unfold np_zeros in Hz. simpl in Hz.
  destruct (Z.ltb_spec (gmi_kxky mi) 0); [discriminate|]. simpl in Hz.
  injection Hz as <-.
  change 0 with (fst (cursor (gmi_bits mi) (Z.of_nat 0))) in Hcells at 2.
  change 1 with (snd (cursor (gmi_bits mi) (Z.of_nat 0))) in Hcells at 1.
  apply grib_cells_spec in Hcells as (Hlen & Hin & _); [|assumption].
  rewrite repeat_length in Hlen.
  split; [assumption|]. split.
  - rewrite Hlen. destruct (gmi_kxky mi); simpl; lia.
  - intros c Hc. apply Hin. rewrite Hlen in Hc.
    destruct (gmi_kxky mi); simpl in *; lia.
Qed.

Lemma unpack_grib_values_witness :
  1 < 10 - 2 - 6 /\
  Z.of_nat (List.length [10%Q; 12%Q; 11%Q]) = 3 /\
  (forall c, (c < List.length [10%Q; 12%Q; 11%Q])%nat ->
     exists idat,
       grid_field [0x02100000; 0] 4 (fst (cursor 4 (Z.of_nat c)))
         (snd (cursor 4 (Z.of_nat c))) = Ok idat /\
       nth_error [10%Q; 12%Q; 11%Q] c
       = Some (grib_value (inject_Z (-9999))
                 {| gmi_bits := 4; gmi_missing_flag := 1;
                    gmi_kxky := 3; gmi_kx := 3 |}
                 {| gmr_reference := 10; gmr_scale := 1;
                    gmr_diffmin := 0 |} idat)).
Proof.
  apply (unpack_grib_values (inject_Z (-9999)) 10 3 1
           {| read_real := fun _ => Raise ReadError;
              read_int := fun _ => Ok [0x02100000; 0];
              read_GridMetaInt :=
                Ok {| gmi_bits := 4; gmi_missing_flag := 1;
                      gmi_kxky := 3; gmi_kx := 3 |};
              read_GridMetaReal :=
                Ok {| gmr_reference := 10; gmr_scale := 1;
                      gmr_diffmin := 0 |} |}
           2 PackingType.grib
           {| gmi_bits := 4; gmi_missing_flag := 1;
              gmi_kxky := 3; gmi_kx := 3 |}
           {| gmr_reference := 10; gmr_scale := 1; gmr_diffmin := 0 |}
           [0x02100000; 0] [10%Q; 12%Q; 11%Q]).
  - now left.
  - reflexivity.
  - reflexivity.
  - reflexivity.
  - simpl. lia.
  - vm_compute. reflexivity.
Defined.

(** ** The [none] decoder *)

Lemma unpack_none_iff (missing_float : Q)
    (data_header_length kx ky : Z) (rd : reader) (header_length : Z)
    (grid : list Q) :
  let lendat := data_header_length - header_length - 1 in
  _unpack_grid missing_float data_header_length kx ky rd
    PackingType.none header_length = Ok (Some grid)
  <-> 1 < lendat /\ read_real rd lendat = Ok grid /\
      0 <= ky * kx /\ Z.of_nat (List.length grid) = ky * kx.
Proof.
  cbv zeta. cbn [_unpack_grid]. unfold unpack_none.
  destruct (Z.ltb_spec 1 (data_header_length - header_length - 1))
    as [Hl|Hl].
  - destruct (read_real rd (data_header_length - header_length - 1))
      as [buffer|e]; cbn [bind].
    + unfold np_zeros. cbn [existsb fold_left]. rewrite Z.mul_1_l, orb_false_r.
      destruct (Z.ltb_spec (ky * kx) 0) as [Hk|Hk]; cbn [bind].
      * split; [discriminate|]. intros (_ & _ & Hk' & _). lia.
      * unfold np_assign_all. rewrite repeat_length.
        destruct (Nat.eqb_spec (Z.to_nat (ky * kx)) (List.length buffer))
          as [He|He]; cbn [bind].
        -- split.
           ++ intros Hg. injection Hg as Hg. subst grid.
              repeat split; try assumption. lia.
           ++ intros (_ & Hr & _ & _). injection Hr as Hr. now subst grid.
        -- split; [discriminate|].
           intros (_ & Hr & _ & Hlen). injection Hr as Hr. subst grid. lia.
    + split; [discriminate|]. intros (_ & Hr & _). discriminate.
  - split; [discriminate|]. intros (Hl' & _). lia.
Qed.


(** X11.  A read of [lendat] floats returning [lendat] values, the [none]
    branch returns a grid exactly when the data length exceeds 1, the read
    succeeds and the grid has as many cells, [ky * kx], as the data has
    words; the grid is then the floats read, unchanged.  With any other
    number of cells the assignment raises. *)
Theorem unpack_none_values (missing_float : Q)
    (data_header_length kx ky : Z) (rd : reader) (header_length : Z)
    (grid : list Q) :
  let lendat := data_header_length - header_length - 1 in
  (forall buffer, read_real rd lendat = Ok buffer ->
     Z.of_nat (List.length buffer) = lendat) ->
  (_unpack_grid missing_float data_header_length kx ky rd
     PackingType.none header_length = Ok (Some grid)
   <-> 1 < lendat /\ read_real rd lendat = Ok grid /\ ky * kx = lendat).
Proof.
  cbv zeta. intros Hread.
  rewrite (unpack_none_iff missing_float data_header_length kx ky rd
             header_length grid). cbv zeta.
  split.
  - intros (Hl & Hr & _ & Hn). repeat split; try assumption.
    rewrite <- Hn. now apply Hread.
  - intros (Hl & Hr & Hn). repeat split; try assumption; [lia|].
    rewrite Hn. now apply Hread.
Qed.

Lemma unpack_none_values_witness :
  _unpack_grid (inject_Z (-9999)) 7 2 2
    {| read_real := fun n => Ok (repeat 1%Q (Z.to_nat n));
       read_int := fun _ => Raise ReadError;
       read_GridMetaInt := Raise ReadError;
       read_GridMetaReal := Raise ReadError |}
    PackingType.none 2 = Ok (Some [1%Q; 1%Q; 1%Q; 1%Q]).
Proof.
  apply (unpack_none_values (inject_Z (-9999)) 7 2 2
           {| read_real := fun n => Ok (repeat 1%Q (Z.to_nat n));
              read_int := fun _ => Raise ReadError;
              read_GridMetaInt := Raise ReadError;
              read_GridMetaReal := Raise ReadError |} 2
           [1%Q; 1%Q; 1%Q; 1%Q]).
  - intros buffer H. simpl in H. injection H as <-. reflexivity.
  - repeat split; simpl; lia.
Defined.

(** ** The later steps of the merge keep the profile aligned *)

Lemma for_each_invariant {S X : Type} (P : S -> Prop)
    (f : X -> S -> result S) (xs : list X) :
  (forall x s s', P s -> f x s = Ok s' -> P s') ->
  forall s s', P s -> for_each xs f s = Ok s' -> P s'.
Proof.
  intros Hf. induction xs as [|x rest IH]; intros s s' Hs H; simpl in H.
  - now injection H as <-.
  - apply bind_ok in H as (s1 & H1 & H). eauto.
Qed.

Ltac bind_steps H :=
  repeat match type of H with
         | bind _ _ = Ok _ =>
             let x := fresh "x" in
             let Hx := fresh "Hx" in
             apply bind_ok in H as (x & Hx & H)
         end.

Section StepsAligned.
Variable missing_float : Q.
Variable parts : parts_t.

Lemma fill_temp_aligned (n : part_name) (i ploc : Z) (m m' : merged_t) :
  aligned m -> fill_temp missing_float parts n i ploc m = Ok m' ->
  aligned m'.
Proof.
  intros Ha H. unfold fill_temp in H.
  apply bind_ok in H as (t0 & _ & H).
  destruct (Qeq_bool t0 missing_float); [|now injection H as <-].
  apply bind_ok in H as (t & _ & H).
  apply bind_ok in H as (m1 & H1 & H).
  apply bind_ok in H as (d & _ & H).
  eapply m_set_aligned; [exact H|].
  eapply m_set_aligned; eassumption.
Qed.

Lemma trop_entry_aligned (n : part_name) (e : Z * Q) (m m' : merged_t)
    (pbot pbot' : Q) :
  aligned m ->
  trop_entry missing_float parts n e (m, pbot) = Ok (m', pbot') ->
  aligned m'.
Proof.
  intros Ha H. destruct e as [itrp pres]. unfold trop_entry in H.
  apply bind_ok in H as (valid & _ & H).
  destruct valid; [|now injection H as <- _].
  destruct (Qltb pbot (Qabs pres)); [now injection H as <- _|].
  destruct (py_in (Qabs pres) (mPRES m)).
  - apply bind_ok in H as (ploc & _ & H).
    apply bind_ok in H as (m1 & H1 & H).
    apply fill_temp_aligned in H1; [|assumption].
    apply bind_ok in H as (d0 & _ & H).
    apply bind_ok in H as (m2 & H2 & H).
    assert (Ha2 : aligned m2).
    { destruct (Qeq_bool d0 missing_float); [|now injection H2 as <-].
      apply bind_ok in H2 as (dr & _ & H2).
      apply bind_ok in H2 as (m3 & H3 & H2).
      apply bind_ok in H2 as (sp & _ & H2).
      eapply m_set_aligned; [exact H2|].
      eapply m_set_aligned; eassumption. }
    apply bind_ok in H as (m4 & H4 & [= <- _]).
    eapply m_set_aligned; eassumption.
  - cbv zeta in H.
    apply bind_ok in H as (t & _ & H).
    apply bind_ok in H as (d & _ & H).
    apply bind_ok in H as (dr & _ & H).
    apply bind_ok in H as (sp & _ & [= <- _]).
    clear - Ha. revert Ha. insert_lengths.
Qed.

Lemma sigt_entry_aligned (n : part_name) (above : bool) (e : Z * Q)
    (m m' : merged_t) (pbot pbot' : Q) :
  aligned m ->
  sigt_entry missing_float parts n above e (m, pbot) = Ok (m', pbot') ->
  aligned m'.
Proof.
  intros Ha H. destruct e as [isigt pres]. unfold sigt_entry in H.
  apply bind_ok in H as (valid & _ & H).
  destruct valid; [|now injection H as <- _].
  destruct (Qltb pbot (Qabs pres)); [now injection H as <- _|].
  destruct (py_in (Qabs pres) (mPRES m)).
  - apply bind_ok in H as (ploc & _ & H).
    apply bind_ok in H as (m1 & H1 & H).
    apply fill_temp_aligned in H1; [|assumption].
    apply bind_ok in H as (m2 & H2 & [= <- _]).
    destruct above; [|now injection H2 as <-].
    apply bind_ok in H2 as (m3 & H3 & H2).
    apply bind_ok in H2 as (m4 & H4 & H2).
    eapply m_set_aligned; [exact H2|].
    eapply m_set_aligned; [exact H4|].
    eapply m_set_aligned; eassumption.
  - cbv zeta in H.
    apply bind_ok in H as (t & _ & H).
    apply bind_ok in H as (d & _ & [= <- _]).
    clear - Ha. revert Ha. insert_lengths.
Qed.

(** A loop over the entries of a part keeps the profile aligned when each
    entry does. *)
Lemma entries_aligned (f : Z * Q -> merged_t * Q -> result (merged_t * Q))
    (l : list (Z * Q)) :
  (forall e m m' pbot pbot',
      aligned m -> f e (m, pbot) = Ok (m', pbot') -> aligned m') ->
  forall st st',
    aligned (fst st) -> for_each l f st = Ok st' -> aligned (fst st').
Proof.
  intros Hf.
  apply (for_each_invariant (fun st => aligned (fst st))).
  intros e [m pbot] [m' pbot'] Ha H. simpl in *. eauto.
Qed.

Lemma merge_trop_aligned (c : counts) (m m' : merged_t) :
  aligned m -> merge_trop missing_float parts c m = Ok m' -> aligned m'.
Proof.
  intros Ha H. unfold merge_trop in H.
  apply bind_ok in H as (pbot & _ & H).
  apply bind_ok in H as (st1 & H1 & H).
  apply bind_ok in H as (st2 & H2 & [= <-]).
  assert (A1 : aligned (fst st1)).
  { destruct (1 <=? num_trop_levels c); [|now injection H1 as <-].
    apply bind_ok in H1 as (l & _ & H1).
    eapply entries_aligned with (st := (m, pbot)); [|exact Ha|exact H1].
    intros; eapply trop_entry_aligned; eassumption. }
  destruct (1 <=? num_above_trop_levels c); [|now injection H2 as <-].
  apply bind_ok in H2 as (l & _ & H2).
  eapply entries_aligned; [|exact A1|exact H2].
  intros; eapply trop_entry_aligned; eassumption.
Qed.

Lemma merge_sigt_aligned (c : counts) (m m' : merged_t) :
  aligned m -> merge_sigt missing_float parts c m = Ok m' -> aligned m'.
Proof.
  intros Ha H. unfold merge_sigt in H.
  apply bind_ok in H as (pbot & _ & H).
  apply bind_ok in H as (st1 & H1 & H).
  apply bind_ok in H as (st2 & H2 & [= <-]).
  assert (A1 : aligned (fst st1)).
  { destruct (1 <=? num_sigt_levels c); [|now injection H1 as <-].
    apply bind_ok in H1 as (l & _ & H1).
    eapply entries_aligned with (st := (m, pbot)); [|exact Ha|exact H1].
    intros; eapply sigt_entry_aligned; eassumption. }
  destruct (1 <=? num_above_sigt_levels c); [|now injection H2 as <-].
  apply bind_ok in H2 as (l & _ & H2).
  eapply entries_aligned; [|exact A1|exact H2].
  intros; eapply sigt_entry_aligned; eassumption.
Qed.

Lemma merge_sigw_pres_aligned (c : counts) (m m' : merged_t) :
  aligned m -> merge_sigw_pres missing_float parts c m = Ok m' ->
  aligned m'.
Proof.
  intros Ha H. unfold merge_sigw_pres in H.
  destruct (negb (ppbb_is_z c) || negb (ppdd_is_z c));
    [|now injection H as <-].
  apply bind_ok in H as (pbot & _ & H).
  apply bind_ok in H as (st1 & H1 & H).
  apply bind_ok in H as (st2 & H2 & [= <-]).
  assert (A1 : aligned (fst st1)).
  { destruct ((1 <=? num_sigw_levels c) && negb (ppbb_is_z c));
      [|now injection H1 as <-].
    apply bind_ok in H1 as (l & _ & H1).
    eapply entries_aligned with (st := (m, pbot)); [|exact Ha|exact H1].
    intros; eapply sigw_pres_entry_aligned; eassumption. }
  destruct ((1 <=? num_above_sigw_levels c) && negb (ppdd_is_z c));
    [|now injection H2 as <-].
  apply bind_ok in H2 as (l & _ & H2).
  eapply entries_aligned; [|exact A1|exact H2].
  intros; eapply sigw_pres_entry_aligned; eassumption.
Qed.

Lemma merge_max_wind_aligned (c : counts) (m m' : merged_t) :
  aligned m -> merge_max_wind missing_float parts c m = Ok m' ->
  aligned m'.
Proof.
  intros Ha H. unfold merge_max_wind in H.
  apply bind_ok in H as (pbot & _ & H).
  apply bind_ok in H as (st1 & H1 & H).
  apply bind_ok in H as (st2 & H2 & [= <-]).
  assert (A1 : aligned (fst st1)).
  { destruct (1 <=? num_max_wind_levels c); [|now injection H1 as <-].
    apply bind_ok in H1 as (l & _ & H1).
    eapply entries_aligned with (st := (m, pbot)); [|exact Ha|exact H1].
    intros; eapply sigw_pres_entry_aligned; eassumption. }
  destruct (1 <=? num_above_max_wind_levels c); [|now injection H2 as <-].
  apply bind_ok in H2 as (l & _ & H2).
  eapply entries_aligned; [|exact A1|exact H2].
  intros; eapply sigw_pres_entry_aligned; eassumption.
Qed.
End StepsAligned.

(** X12.  The tropopause levels and the significant temperatures are
    merged without breaking the profile: whatever the parts hold, an
    aligned profile comes out aligned, every new level having a value, the
    missing value where the part has none, in each of the six lists. *)
Theorem merge_trop_sigt_aligned (missing_float : Q) (parts : parts_t)
    (c : counts) (m m' : merged_t) :
  aligned m ->
  merge_trop_sigt missing_float parts c m = Ok m' ->
  aligned m'.
Proof.
  intros Ha H. unfold merge_trop_sigt in H.
  apply bind_ok in H as (m1 & H1 & H).
  eapply merge_sigt_aligned; [|exact H].
  eapply merge_trop_aligned; eassumption.
Qed.

(** X13.  The significant winds on pressure surfaces and the maximum
    winds are merged without breaking the profile: an aligned profile
    comes out aligned. *)
Theorem merge_sigw_max_wind_aligned (missing_float : Q) (parts : parts_t)
    (c : counts) (m m' : merged_t) :
  aligned m ->
  merge_sigw_max_wind missing_float parts c m = Ok m' ->
  aligned m'.
Proof.
  intros Ha H. unfold merge_sigw_max_wind in H.
  apply bind_ok in H as (m1 & H1 & H).
  eapply merge_max_wind_aligned; [|exact H].
  eapply merge_sigw_pres_aligned; eassumption.
Qed.

Lemma merge_trop_sigt_aligned_witness :
  aligned Full.after_man_temp /\
  merge_trop_sigt Full.missing_float Full.parts Full.c Full.after_man_temp
    = Ok Full.after_sigt /\
  aligned Full.after_sigt.
Proof.
  assert (Ha : aligned Full.after_man_temp)
    by (apply aligned_iff; vm_compute; reflexivity).
  assert (H : merge_trop_sigt Full.missing_float Full.parts Full.c
                Full.after_man_temp = Ok Full.after_sigt)
    by (vm_compute; reflexivity).
  split; [exact Ha|]. split; [exact H|].
  exact (merge_trop_sigt_aligned Full.missing_float Full.parts Full.c
           Full.after_man_temp Full.after_sigt Ha H).
Defined.

Lemma merge_sigw_max_wind_aligned_witness :
  aligned Full.after_sigt /\
  merge_sigw_max_wind Full.missing_float Full.parts Full.c Full.after_sigt
    = Ok Full.after_max_wind /\
  aligned Full.after_max_wind.
Proof.
  assert (Ha : aligned Full.after_sigt)
    by (apply aligned_iff; vm_compute; reflexivity).
  assert (H : merge_sigw_max_wind Full.missing_float Full.parts Full.c
                Full.after_sigt = Ok Full.after_max_wind)
    by (vm_compute; reflexivity).
  split; [exact Ha|]. split; [exact H|].
  exact (merge_sigw_max_wind_aligned Full.missing_float Full.parts Full.c
           Full.after_sigt Full.after_max_wind Ha H).
Defined.

(** ** The insertion by reverse bisection keeps the pressures ordered *)

Lemma sorted_split (a : list Q) :
  StronglySorted Qle a ->
  forall m v, nth_error a m = Some v ->
    Forall (fun y => (y <= v)%Q) (firstn (S m) a) /\
    Forall (fun y => (v <= y)%Q) (skipn m a).
Proof.
  induction 1 as [|h t Ht IH Hh]; intros m v Hm.
  - destruct m; discriminate.
  - destruct m as [|m]; simpl in Hm.
    + injection Hm as <-. split.
      * simpl. constructor; [apply Qle_refl|constructor].
      * simpl. constructor; [apply Qle_refl|exact Hh].
    + destruct (IH m v Hm) as [H1 H2]. split; [|exact H2].
      change (firstn (S (S m)) (h :: t)) with (h :: firstn (S m) t).
      constructor; [|exact H1].
      rewrite Forall_forall in Hh. apply Hh.
      eapply nth_error_In; eassumption.
Qed.

(** The binary search on a sorted list stops at the partition point: the
    values before it are below [x], the values from it on are not. *)
Lemma bisect_loop_sorted (a : list Q) (x : Q) :
  StronglySorted Qle a ->
  forall fuel lo hi,
    0 <= lo <= hi -> hi <= len a -> hi - lo < Z.of_nat fuel ->
    Forall (fun y => (y < x)%Q) (firstn (Z.to_nat lo) a) ->
    Forall (fun y => (x <= y)%Q) (skipn (Z.to_nat hi) a) ->
    lo <= bisect_loop fuel a x lo hi <= hi /\
    Forall (fun y => (y < x)%Q)
      (firstn (Z.to_nat (bisect_loop fuel a x lo hi)) a) /\
    Forall (fun y => (x <= y)%Q)
      (skipn (Z.to_nat (bisect_loop fuel a x lo hi)) a).
Proof.
  intros Hs. induction fuel as [|fuel IH]; intros lo hi Hlo Hhi Hf Hb Ha.
  - simpl in Hf. lia.
  - cbn [bisect_loop]. destruct (Z.ltb_spec lo hi) as [Hlt|Hge].
    + assert (Hmid : lo <= (lo + hi) / 2 < hi).
      { split; [apply Z.div_le_lower_bound; lia
               |apply Z.div_lt_upper_bound; lia]. }
      set (mid := (lo + hi) / 2) in *.
      unfold len in Hhi.
      destruct (nth_error a (Z.to_nat mid)) as [v|] eqn:Ev.
      * destruct (sorted_split a Hs _ _ Ev) as [H1 H2].
        destruct (Qltb v x) eqn:Evx.
        -- apply Qltb_lt in Evx.
           assert (Hb' : Forall (fun y => (y < x)%Q)
                           (firstn (Z.to_nat (mid + 1)) a)).
           { replace (Z.to_nat (mid + 1)) with (S (Z.to_nat mid)) by lia.
             eapply Forall_impl; [|exact H1]. simpl. intros y Hy.
             eapply Qle_lt_trans; eassumption. }
           destruct (IH (mid + 1) hi ltac:(lia) ltac:(unfold len; lia)
                       ltac:(lia) Hb' Ha) as (R1 & R2 & R3).
           repeat split; try assumption; lia.
        -- assert (Hxv : (x <= v)%Q).
           { apply Qnot_lt_le. intros Hc. apply Qltb_lt in Hc. congruence. }
           assert (Ha' : Forall (fun y => (x <= y)%Q)
                           (skipn (Z.to_nat mid) a)).
           { eapply Forall_impl; [|exact H2]. simpl. intros y Hy.
             eapply Qle_trans; eassumption. }
           destruct (IH lo mid ltac:(lia) ltac:(unfold len; lia)
                       ltac:(lia) Hb Ha') as (R1 & R2 & R3).
           repeat split; try assumption; lia.
      * apply nth_error_None in Ev. lia.
    + assert (lo = hi) by lia. subst hi.
      repeat split; try assumption; lia.
Qed.

Lemma bisect_left_sorted (a : list Q) (x : Q) :
  StronglySorted Qle a ->
  0 <= bisect_left a x <= len a /\
  Forall (fun y => (y < x)%Q) (firstn (Z.to_nat (bisect_left a x)) a) /\
  Forall (fun y => (x <= y)%Q) (skipn (Z.to_nat (bisect_left a x)) a).
Proof.
  intros Hs. unfold bisect_left.
  apply bisect_loop_sorted; try assumption; unfold len; try lia.
  - simpl. constructor.
  - rewrite Nat2Z.id, skipn_all. constructor.
Qed.

Lemma sorted_app (R : Q -> Q -> Prop) (l1 l2 : list Q) :
  StronglySorted R l1 -> StronglySorted R l2 ->
  Forall (fun a => Forall (R a) l2) l1 ->
  StronglySorted R (l1 ++ l2).
Proof.
  induction 1 as [|h t Ht IH Hh]; intros H2 Hc; simpl; [exact H2|].
  inversion Hc as [|? ? Hh2 Hc']; subst.
  constructor; [now apply IH|].
  apply Forall_app. split; assumption.
Qed.

Lemma decreasing_rev (l : list Q) :
  decreasing l -> StronglySorted Qle (rev l).
Proof.
  unfold decreasing. induction 1 as [|h t Ht IH Hh]; simpl; [constructor|].
  apply sorted_app; [exact IH|repeat constructor|].
  apply Forall_rev. eapply Forall_impl; [|exact Hh].
  simpl. intros y Hy. constructor; [now apply Qlt_le_weak|constructor].
Qed.

Lemma decreasing_insert (l : list Q) (x : Q) :
  forall k,
    decreasing l ->
    Forall (fun y => (x < y)%Q) (firstn k l) ->
    Forall (fun y => (y < x)%Q) (skipn k l) ->
    decreasing (firstn k l ++ x :: skipn k l).
Proof.
  unfold decreasing. intros k Hs. revert k.
  induction Hs as [|h t Ht IH Hh]; intros k H1 H2.
  - destruct k; simpl; repeat constructor.
  - destruct k as [|k]; simpl in *.
    + constructor; [constructor; assumption|exact H2].
    + inversion H1 as [|? ? Hxh H1']; subst.
      constructor; [now apply IH|].
      apply Forall_app. split.
      * rewrite <- (firstn_skipn k t) in Hh.
        apply Forall_app in Hh. tauto.
      * constructor; [exact Hxh|].
        rewrite <- (firstn_skipn k t) in Hh.
        apply Forall_app in Hh. tauto.
Qed.

Lemma py_in_false (x : Q) (l : list Q) :
  py_in x l = false -> Forall (fun y => ~ (x == y)%Q) l.
Proof.
  unfold py_in. intros H. apply Forall_forall. intros y Hy Hxy.
  apply Qeq_bool_iff in Hxy.
  assert (E : existsb (Qeq_bool x) l = true)
    by (apply existsb_exists; eauto).
  congruence.
Qed.

(** The position of the insertion and what lies on either side of it. *)
Lemma reverse_bisect_position (l : list Q) (x : Q) :
  decreasing l -> py_in x l = false ->
  exists k : nat,
    (k <= List.length l)%nat /\
    len l - bisect_left (rev l) x = Z.of_nat k /\
    py_insert l (len l - bisect_left (rev l) x) x
      = firstn k l ++ x :: skipn k l /\
    Forall (fun y => (x < y)%Q) (firstn k l) /\
    Forall (fun y => (y < x)%Q) (skipn k l).
Proof.
  intros Hd Hin.
  destruct (bisect_left_sorted (rev l) x (decreasing_rev l Hd))
    as (Hr & Hb & Ha).
  unfold len in *. rewrite length_rev in Hr.
  set (r := bisect_left (rev l) x) in *.
  exists (List.length l - Z.to_nat r)%nat.
  assert (Hk : Z.of_nat (List.length l) - r
               = Z.of_nat (List.length l - Z.to_nat r)) by lia.
  split; [lia|]. split; [exact Hk|]. split.
  - unfold py_insert. rewrite Hk.
    destruct (Z.ltb_spec (Z.of_nat (List.length l - Z.to_nat r)) 0); [lia|].
    rewrite Z.min_l by lia. now rewrite Nat2Z.id.
  - rewrite firstn_rev in Hb. rewrite skipn_rev in Ha.
    apply Forall_rev in Hb, Ha. rewrite rev_involutive in Hb, Ha.
    split; [|exact Hb].
    apply py_in_false in Hin.
    rewrite <- (firstn_skipn (List.length l - Z.to_nat r) l) in Hin.
    apply Forall_app in Hin as [Hin _].
    rewrite Forall_forall in *. intros y Hy.
    specialize (Ha y Hy). specialize (Hin y Hy).
    apply Qle_lt_or_eq in Ha as [Hlt|Heq]; [exact Hlt|contradiction].
Qed.

Lemma reverse_bisect_decreasing (l : list Q) (x : Q) :
  decreasing l -> py_in x l = false ->
  decreasing (py_insert l (len l - bisect_left (rev l) x) x).
Proof.
  intros Hd Hin.
  destruct (reverse_bisect_position l x Hd Hin) as (k & _ & _ & -> & H1 & H2).
  now apply decreasing_insert.
Qed.

(** X14.  The idiom [loc = size - bisect_left(PRES[::-1], pres)] followed
    by [PRES.insert(loc, pres)], for a pressure that is not in the list
    yet: strictly decreasing pressures stay strictly decreasing, the new
    pressure going between the greater ones and the smaller ones, and the
    list holds the new pressure and the old ones, nothing else. *)
Theorem reverse_bisect_insert_sorted (l : list Q) (x : Q) :
  decreasing l -> py_in x l = false ->
  let loc := len l - bisect_left (rev l) x in
  0 <= loc <= len l /\
  decreasing (py_insert l loc x) /\
  py_index (py_insert l loc x) loc = Ok x /\
  (forall y, In y (py_insert l loc x) <-> y = x \/ In y l).
Proof.
  intros Hd Hin loc.
  destruct (reverse_bisect_position l x Hd Hin)
    as (k & Hk & Hloc & Hins & H1 & H2).
  fold loc in Hloc, Hins. split; [unfold len; lia|]. split.
  - rewrite Hins. now apply decreasing_insert.
  - split.
    + rewrite Hins, Hloc. unfold py_index.
      rewrite length_app. cbn [List.length].
      rewrite length_firstn, length_skipn.
      destruct (Z.ltb_spec (Z.of_nat k) 0); [lia|].
      destruct (Z.ltb_spec (Z.of_nat k) 0); [lia|].
      destruct (Z.leb_spec
                  (Z.of_nat (Nat.min k (List.length l)
                             + S (List.length l - k))) (Z.of_nat k));
        [lia|]. cbn [orb]. rewrite Nat2Z.id.
      rewrite nth_error_app2 by (rewrite length_firstn; lia).
      rewrite length_firstn.
      replace (k - Nat.min k (List.length l))%nat with 0%nat by lia.
      reflexivity.
    + intros y. rewrite Hins. rewrite in_app_iff. cbn [In].
      assert (E : In y l <-> In y (firstn k l) \/ In y (skipn k l))
        by (rewrite <- in_app_iff, firstn_skipn; tauto).
      rewrite E. intuition (subst; auto).
Qed.

Lemma reverse_bisect_insert_sorted_witness :
  let l := [inject_Z 1000; inject_Z 850; inject_Z 700] in
  decreasing (py_insert l (len l - bisect_left (rev l) (inject_Z 925))
                (inject_Z 925)) /\
  len l - bisect_left (rev l) (inject_Z 925) = 1.
Proof.
  cbv zeta. split; [|vm_compute; reflexivity].
  apply (reverse_bisect_insert_sorted
           [inject_Z 1000; inject_Z 850; inject_Z 700] (inject_Z 925)).
  - unfold decreasing. repeat constructor.
  - reflexivity.
Defined.

(** ** The merges on pressure surfaces keep the pressures ordered *)

Lemma m_set_mPRES (m m' : merged_t) (f : field) (i : Z) (v : Q) :
  f <> PRES -> m_set m f i v = Ok m' -> mPRES m' = mPRES m.
Proof.
  intros Hf H. unfold m_set in H.
  apply bind_ok in H as (l & _ & [= <-]).
  destruct f; try reflexivity. congruence.
Qed.

Lemma py_insert_incl {A : Type} (l : list A) (i : Z) (v : A) :
  incl l (py_insert l i v).
Proof.
  unfold py_insert. set (j := Z.to_nat _). intros y Hy.
  rewrite <- (firstn_skipn j l) in Hy.
  apply in_app_iff in Hy. apply in_app_iff. simpl. tauto.
Qed.

Section PressureSteps.
Variable missing_float : Q.
Variable parts : parts_t.

Lemma fill_temp_mPRES (n : part_name) (i ploc : Z) (m m' : merged_t) :
  fill_temp missing_float parts n i ploc m = Ok m' -> mPRES m' = mPRES m.
Proof.
  intros H. unfold fill_temp in H.
  apply bind_ok in H as (t0 & _ & H).
  destruct (Qeq_bool t0 missing_float); [|now injection H as <-].
  apply bind_ok in H as (t & _ & H).
  apply bind_ok in H as (m1 & H1 & H).
  apply bind_ok in H as (d & _ & H).
  apply m_set_mPRES in H, H1; congruence.
Qed.

Lemma trop_entry_pressures (n : part_name) (e : Z * Q) (m m' : merged_t)
    (pbot pbot' : Q) :
  trop_entry missing_float parts n e (m, pbot) = Ok (m', pbot') ->
  pressures_step (mPRES m) (mPRES m').
Proof.
  intros H. destruct e as [itrp pres]. unfold trop_entry in H.
  apply bind_ok in H as (valid & _ & H).
  destruct valid; [|injection H as <- _; now left].
  destruct (Qltb pbot (Qabs pres)); [injection H as <- _; now left|].
  destruct (py_in (Qabs pres) (mPRES m)) eqn:Hin.
  - left.
    apply bind_ok in H as (ploc & _ & H).
    apply bind_ok in H as (m1 & H1 & H).
    apply fill_temp_mPRES in H1.
    apply bind_ok in H as (d0 & _ & H).
    apply bind_ok in H as (m2 & H2 & H).
    assert (E2 : mPRES m2 = mPRES m1).
    { destruct (Qeq_bool d0 missing_float); [|now injection H2 as <-].
      apply bind_ok in H2 as (dr & _ & H2).
      apply bind_ok in H2 as (m3 & H3 & H2).
      apply bind_ok in H2 as (sp & _ & H2).
      apply m_set_mPRES in H2, H3; congruence. }
    apply bind_ok in H as (m4 & H4 & [= <- _]).
    apply m_set_mPRES in H4; congruence.
  - right. exists (Qabs pres). split; [exact Hin|].
    cbv zeta in H.
    apply bind_ok in H as (t & _ & H).
    apply bind_ok in H as (d & _ & H).
    apply bind_ok in H as (dr & _ & H).
    apply bind_ok in H as (sp & _ & [= <- _]).
    reflexivity.
Qed.

Lemma sigt_entry_pressures (n : part_name) (above : bool) (e : Z * Q)
    (m m' : merged_t) (pbot pbot' : Q) :
  sigt_entry missing_float parts n above e (m, pbot) = Ok (m', pbot') ->
  pressures_step (mPRES m) (mPRES m').
Proof.
  intros H. destruct e as [isigt pres]. unfold sigt_entry in H.
  apply bind_ok in H as (valid & _ & H).
  destruct valid; [|injection H as <- _; now left].
  destruct (Qltb pbot (Qabs pres)); [injection H as <- _; now left|].
  destruct (py_in (Qabs pres) (mPRES m)) eqn:Hin.
  - left.
    apply bind_ok in H as (ploc & _ & H).
    apply bind_ok in H as (m1 & H1 & H).
    apply fill_temp_mPRES in H1.
    apply bind_ok in H as (m2 & H2 & [= <- _]).
    destruct above; [|injection H2 as <-; exact H1].
    apply bind_ok in H2 as (m3 & H3 & H2).
    apply bind_ok in H2 as (m4 & H4 & H2).
    apply m_set_mPRES in H2, H3, H4; congruence.
  - right. exists (Qabs pres). split; [exact Hin|].
    cbv zeta in H.
    apply bind_ok in H as (t & _ & H).
    apply bind_ok in H as (d & _ & [= <- _]).
    reflexivity.
Qed.

Lemma sigw_pres_entry_pressures (n : part_name) (e : Z * Q)
    (m m' : merged_t) (pbot pbot' : Q) :
  sigw_pres_entry missing_float parts n e (m, pbot) = Ok (m', pbot') ->
  pressures_step (mPRES m) (mPRES m').
Proof.
  intros H. destruct e as [isigw pres]. unfold sigw_pres_entry in H.
  apply bind_ok in H as (valid & _ & H).
  destruct valid; [|injection H as <- _; now left].
  destruct (Qltb pbot (Qabs pres)); [injection H as <- _; now left|].
  destruct (py_in (Qabs pres) (mPRES m)) eqn:Hin.
  - left.
    apply bind_ok in H as (ploc & _ & H).
    apply bind_ok in H as (d & _ & H).
    apply bind_ok in H as (fill & _ & H).
    destruct fill; [|now injection H as <- _].
    apply bind_ok in H as (dr & _ & H).
    apply bind_ok in H as (m1 & H1 & H).
    apply bind_ok in H as (sp & _ & H).
    apply bind_ok in H as (m2 & H2 & [= <- _]).
    apply m_set_mPRES in H1, H2; congruence.
  - right. exists (Qabs pres). split; [exact Hin|].
    cbv zeta in H.
    apply bind_ok in H as (dr & _ & H).
    apply bind_ok in H as (sp & _ & [= <- _]).
    reflexivity.
Qed.

(** A property of the pressures that every step keeps is kept by the
    loops and so by the four merges. *)
Variable P : list Q -> Prop.
Hypothesis P_step : forall l l', pressures_step l l' -> P l -> P l'.

Lemma entries_keep (f : Z * Q -> merged_t * Q -> result (merged_t * Q))
    (l : list (Z * Q)) :
  (forall e m m' pbot pbot',
      f e (m, pbot) = Ok (m', pbot') ->
      pressures_step (mPRES m) (mPRES m')) ->
  forall st st',
    P (mPRES (fst st)) -> for_each l f st = Ok st' -> P (mPRES (fst st')).
Proof.
  intros Hf.
  apply (for_each_invariant (fun st => P (mPRES (fst st)))).
  intros e [m pbot] [m' pbot'] Hp H. simpl in *. eauto.
Qed.

Lemma merge_trop_keeps (c : counts) (m m' : merged_t) :
  P (mPRES m) -> merge_trop missing_float parts c m = Ok m' ->
  P (mPRES m').
Proof.
  intros Hp H. unfold merge_trop in H.
  apply bind_ok in H as (pbot & _ & H).
  apply bind_ok in H as (st1 & H1 & H).
  apply bind_ok in H as (st2 & H2 & [= <-]).
  assert (A1 : P (mPRES (fst st1))).
  { destruct (1 <=? num_trop_levels c); [|now injection H1 as <-].
    apply bind_ok in H1 as (l & _ & H1).
    eapply entries_keep with (st := (m, pbot)); [|exact Hp|exact H1].
    intros; eapply trop_entry_pressures; eassumption. }
  destruct (1 <=? num_above_trop_levels c); [|now injection H2 as <-].
  apply bind_ok in H2 as (l & _ & H2).
  eapply entries_keep; [|exact A1|exact H2].
  intros; eapply trop_entry_pressures; eassumption.
Qed.

Lemma merge_sigt_keeps (c : counts) (m m' : merged_t) :
  P (mPRES m) -> merge_sigt missing_float parts c m = Ok m' ->
  P (mPRES m').
Proof.
  intros Hp H. unfold merge_sigt in H.
  apply bind_ok in H as (pbot & _ & H).
  apply bind_ok in H as (st1 & H1 & H).
  apply bind_ok in H as (st2 & H2 & [= <-]).
  assert (A1 : P (mPRES (fst st1))).
  { destruct (1 <=? num_sigt_levels c); [|now injection H1 as <-].
    apply bind_ok in H1 as (l & _ & H1).
    eapply entries_keep with (st := (m, pbot)); [|exact Hp|exact H1].
    intros; eapply sigt_entry_pressures; eassumption. }
  destruct (1 <=? num_above_sigt_levels c); [|now injection H2 as <-].
  apply bind_ok in H2 as (l & _ & H2).
  eapply entries_keep; [|exact A1|exact H2].
  intros; eapply sigt_entry_pressures; eassumption.
Qed.

Lemma merge_sigw_pres_keeps (c : counts) (m m' : merged_t) :
  P (mPRES m) -> merge_sigw_pres missing_float parts c m = Ok m' ->
  P (mPRES m').
Proof.
  intros Hp H. unfold merge_sigw_pres in H.
  destruct (negb (ppbb_is_z c) || negb (ppdd_is_z c));
    [|now injection H as <-].
  apply bind_ok in H as (pbot & _ & H).
  apply bind_ok in H as (st1 & H1 & H).
  apply bind_ok in H as (st2 & H2 & [= <-]).
  assert (A1 : P (mPRES (fst st1))).
  { destruct ((1 <=? num_sigw_levels c) && negb (ppbb_is_z c));
      [|now injection H1 as <-].
    apply bind_ok in H1 as (l & _ & H1).
    eapply entries_keep with (st := (m, pbot)); [|exact Hp|exact H1].
    intros; eapply sigw_pres_entry_pressures; eassumption. }
  destruct ((1 <=? num_above_sigw_levels c) && negb (ppdd_is_z c));
    [|now injection H2 as <-].
  apply bind_ok in H2 as (l & _ & H2).
  eapply entries_keep; [|exact A1|exact H2].
  intros; eapply sigw_pres_entry_pressures; eassumption.
Qed.

Lemma merge_max_wind_keeps (c : counts) (m m' : merged_t) :
  P (mPRES m) -> merge_max_wind missing_float parts c m = Ok m' ->
  P (mPRES m').
Proof.
  intros Hp H. unfold merge_max_wind in H.
  apply bind_ok in H as (pbot & _ & H).
  apply bind_ok in H as (st1 & H1 & H).
  apply bind_ok in H as (st2 & H2 & [= <-]).
  assert (A1 : P (mPRES (fst st1))).
  { destruct (1 <=? num_max_wind_levels c); [|now injection H1 as <-].
    apply bind_ok in H1 as (l & _ & H1).
    eapply entries_keep with (st := (m, pbot)); [|exact Hp|exact H1].
    intros; eapply sigw_pres_entry_pressures; eassumption. }
  destruct (1 <=? num_above_max_wind_levels c); [|now injection H2 as <-].
  apply bind_ok in H2 as (l & _ & H2).
  eapply entries_keep; [|exact A1|exact H2].
  intros; eapply sigw_pres_entry_pressures; eassumption.
Qed.
End PressureSteps.

Lemma ordered_superset_step (l0 l l' : list Q) :
  pressures_step l l' ->
  decreasing l /\ incl l0 l -> decreasing l' /\ incl l0 l'.
Proof.
  intros [->|(x & Hin & ->)] [Hd Hi]; [tauto|]. split.
  - now apply reverse_bisect_decreasing.
  - eapply incl_tran; [exact Hi|apply py_insert_incl].
Qed.

(** X15.  The merge of the tropopause levels and of the significant
    temperatures keeps strictly decreasing pressures strictly decreasing,
    and drops no level: every pressure of the profile is still in it. *)
Theorem merge_trop_sigt_pressures (missing_float : Q) (parts : parts_t)
    (c : counts) (m m' : merged_t) :
  decreasing (mPRES m) ->
  merge_trop_sigt missing_float parts c m = Ok m' ->
  decreasing (mPRES m') /\ incl (mPRES m) (mPRES m').
Proof.
  intros Hd H. unfold merge_trop_sigt in H.
  apply bind_ok in H as (m1 & H1 & H).
  eapply (merge_sigt_keeps missing_float parts
            (fun l => decreasing l /\ incl (mPRES m) l)
            (ordered_superset_step (mPRES m))); [|exact H].
  eapply (merge_trop_keeps missing_float parts
            (fun l => decreasing l /\ incl (mPRES m) l)
            (ordered_superset_step (mPRES m))); [|exact H1].
  split; [exact Hd|apply incl_refl].
Qed.

Lemma merge_trop_sigt_pressures_witness :
  decreasing (mPRES Full.after_man_temp) /\
  merge_trop_sigt Full.missing_float Full.parts Full.c Full.after_man_temp
    = Ok Full.after_sigt /\
  decreasing (mPRES Full.after_sigt).
Proof.
  assert (Hd : decreasing (mPRES Full.after_man_temp))
    by (unfold decreasing; repeat constructor).
  assert (H : merge_trop_sigt Full.missing_float Full.parts Full.c
                Full.after_man_temp = Ok Full.after_sigt)
    by (vm_compute; reflexivity).
  split; [exact Hd|]. split; [exact H|].
  exact (proj1 (merge_trop_sigt_pressures Full.missing_float Full.parts
                  Full.c Full.after_man_temp Full.after_sigt Hd H)).
Defined.

(** X16.  The merge of the significant winds on pressure surfaces and of
    the maximum winds keeps strictly decreasing pressures strictly
    decreasing, and drops no level. *)
Theorem merge_sigw_max_wind_pressures (missing_float : Q) (parts : parts_t)
    (c : counts) (m m' : merged_t) :
  decreasing (mPRES m) ->
  merge_sigw_max_wind missing_float parts c m = Ok m' ->
  decreasing (mPRES m') /\ incl (mPRES m) (mPRES m').
Proof.
  intros Hd H. unfold merge_sigw_max_wind in H.
  apply bind_ok in H as (m1 & H1 & H).
  eapply (merge_max_wind_keeps missing_float parts
            (fun l => decreasing l /\ incl (mPRES m) l)
            (ordered_superset_step (mPRES m))); [|exact H].
  eapply (merge_sigw_pres_keeps missing_float parts
            (fun l => decreasing l /\ incl (mPRES m) l)
            (ordered_superset_step (mPRES m))); [|exact H1].
  split; [exact Hd|apply incl_refl].
Qed.

Lemma merge_sigw_max_wind_pressures_witness :
  decreasing (mPRES Full.after_sigt) /\
  merge_sigw_max_wind Full.missing_float Full.parts Full.c Full.after_sigt
    = Ok Full.after_max_wind /\
  decreasing (mPRES Full.after_max_wind).
Proof.
  assert (Hd : decreasing (mPRES Full.after_sigt))
    by (unfold decreasing; repeat constructor).
  assert (H : merge_sigw_max_wind Full.missing_float Full.parts Full.c
                Full.after_sigt = Ok Full.after_max_wind)
    by (vm_compute; reflexivity).
  split; [exact Hd|]. split; [exact H|].
  exact (proj1 (merge_sigw_max_wind_pressures Full.missing_float Full.parts
                  Full.c Full.after_sigt Full.after_max_wind Hd H)).
Defined.

(** ** The merge of the significant winds on height surfaces *)

Lemma m_set_lengths (m m' : merged_t) (f : field) (i : Z) (v : Q) :
  m_set m f i v = Ok m' ->
  forall g, List.length (mget m' g) = List.length (mget m g).
Proof.
  unfold m_set. intros H g.
  apply bind_ok in H as (l & Hl & [= <-]).
  apply py_setitem_length in Hl.
  destruct f, g; simpl in *; congruence.
Qed.

Lemma set_wind_lengths (m m' : merged_t) (k : Z) (drct sped : Q) :
  set_wind m k drct sped = Ok m' ->
  forall g, List.length (mget m' g) = List.length (mget m g).
Proof.
  unfold set_wind. intros H g.
  apply bind_ok in H as (m1 & H1 & H2).
  rewrite (m_set_lengths _ _ _ _ _ H2 g).
  apply (m_set_lengths _ _ _ _ _ H1 g).
Qed.

Section SigwZ.
Variable missing_float : Q.
Variable parts : parts_t.

(** The counter [size] follows the length of the profile. *)
Lemma place_entry_size (m m' : merged_t) (znxt : Q) (ilev size size' : Z)
    (hght drct sped : Q) :
  size = len (mHGHT m) ->
  place_entry missing_float m znxt ilev size hght drct sped
  = Ok (m', size') ->
  size' = len (mHGHT m') /\
  (List.length (mHGHT m) <= List.length (mHGHT m'))%nat.
Proof.
  intros Hs H. unfold place_entry in H.
  destruct (Qltb _ _).
  - apply bind_ok in H as (w & _ & H). destruct w.
    + apply bind_ok in H as (m1 & H1 & [= <- <-]).
      pose proof (set_wind_lengths _ _ _ _ _ H1 HGHT) as E. simpl in E.
      unfold len. rewrite E. split; [exact Hs|lia].
    + injection H as <- <-. split; [exact Hs|lia].
  - cbv zeta in H. injection H as <- <-. simpl. unfold len in *.
    rewrite py_insert_length. split; lia.
Qed.

Lemma sigw_z_turn_size (nsgw nasw : Z) (s s' : zstate) :
  z_size s = len (mHGHT (z_merged s)) ->
  sigw_z_turn missing_float parts nsgw nasw s = Ok s' ->
  z_size s' = len (mHGHT (z_merged s')) /\
  (List.length (mHGHT (z_merged s))
   <= List.length (mHGHT (z_merged s')))%nat.
Proof.
  intros Hs H. unfold sigw_z_turn in H. cbv zeta beta in H.
  apply bind_ok in H as (hght & _ & H).
  apply bind_ok in H as (drct & _ & H).
  apply bind_ok in H as (sped & _ & H).
  apply bind_ok in H as ([[m skip] [[[more zold] znxt] ilev]] & Hr & H).
  assert (Hm : List.length (mHGHT m) = List.length (mHGHT (z_merged s))).
  { destruct (_ && _ && _); [inversion Hr; subst; reflexivity|].
    destruct (Qltb _ _).
    - apply bind_ok in Hr as (w & _ & Hr).
      apply bind_ok in Hr as (m1 & Hm1 & Hr).
      inversion Hr; subst.
      destruct w; [exact (set_wind_lengths _ _ _ _ _ Hm1 HGHT)|].
      now injection Hm1 as <-.
    - destruct (Qle_bool hght (z_zold s));
        [inversion Hr; subst; reflexivity|].
      destruct (Qle_bool (z_znxt s) hght).
      + apply bind_ok in Hr as (cl & _ & Hr).
        inversion Hr; subst; reflexivity.
      + inversion Hr; subst; reflexivity. }
  apply bind_ok in H as ([m2 size] & Hp & H).
  assert (Hm2 : size = len (mHGHT m2) /\
                (List.length (mHGHT m) <= List.length (mHGHT m2))%nat).
  { destruct (more && negb skip).
    - eapply place_entry_size; [|exact Hp].
      rewrite Hs. unfold len. now rewrite Hm.
    - injection Hp as <- <-. split; [|lia].
      rewrite Hs. unfold len. now rewrite Hm. }
  simpl in H. clear Hp. destruct Hm2 as [Hsz Hle].
  destruct (negb (z_above s) && _); injection H as <-; simpl;
    split; try assumption; lia.
Qed.

Lemma sigw_z_loop_keeps (nsgw nasw : Z) :
  forall fuel s s',
    aligned (z_merged s) -> z_size s = len (mHGHT (z_merged s)) ->
    sigw_z_loop missing_float parts fuel nsgw nasw s = Ok s' ->
    aligned (z_merged s') /\ z_size s' = len (mHGHT (z_merged s')) /\
    (List.length (mHGHT (z_merged s))
     <= List.length (mHGHT (z_merged s')))%nat.
Proof.
  induction fuel as [|fuel IH]; intros s s' Ha Hs H; simpl in H.
  - injection H as <-. split; [assumption|split; [assumption|lia]].
  - destruct (z_more s && (z_i s <? z_iend s)).
    + apply bind_ok in H as (s1 & H1 & H).
      pose proof (sigw_z_turn_aligned missing_float parts _ _ _ _ Ha H1)
        as Ha1.
      destruct (sigw_z_turn_size _ _ _ _ Hs H1) as [Hs1 Hle].
      destruct (IH _ _ Ha1 Hs1 H) as (R1 & R2 & R3).
      split; [assumption|split; [assumption|lia]].
    + injection H as <-. split; [assumption|split; [assumption|lia]].
Qed.

Lemma sigw_z_start_state (c : counts) (m : merged_t) (s : zstate) :
  sigw_z_start missing_float parts c m = Ok s ->
  z_merged s = m /\ z_size s = len (mHGHT m).
Proof.
  intros H. unfold sigw_z_start in H. cbv zeta beta in H.
  apply bind_ok in H as (at0 & _ & H).
  apply bind_ok in H as (istart & _ & H).
  apply bind_ok in H as (psfc & _ & H).
  apply bind_ok in H as (zsfc & _ & H).
  apply bind_ok in H as ([[[more zold] znxt] ilev] & _ & H).
  destruct (istart <=? _); injection H as <-; simpl; split; reflexivity.
Qed.
End SigwZ.

(** X17.  The loop of the merge by height keeps its counter [size] equal
    to the number of levels of the profile, which stays aligned and loses
    no level, however many turns it makes. *)
Theorem sigw_z_loop_size (missing_float : Q) (parts : parts_t)
    (fuel : nat) (nsgw nasw : Z) (s s' : zstate) :
  aligned (z_merged s) -> z_size s = len (mHGHT (z_merged s)) ->
  sigw_z_loop missing_float parts fuel nsgw nasw s = Ok s' ->
  aligned (z_merged s') /\
  z_size s' = len (mPRES (z_merged s')) /\
  len (mPRES (z_merged s)) <= len (mPRES (z_merged s')).
Proof.
  intros Ha Hs H.
  destruct (sigw_z_loop_keeps missing_float parts nsgw nasw fuel s s'
              Ha Hs H) as (R1 & R2 & R3).
  split; [exact R1|].
  unfold aligned in Ha, R1. unfold len in *.
  destruct Ha as (E1 & _), R1 as (E1' & _).
  simpl in E1, E1'. split; lia.
Qed.

Lemma sigw_z_loop_size_witness :
  sigw_z_loop ByHeight.missing_float ByHeight.parts 2 1 0 ByHeight.start
    = Ok ByHeight.finish /\
  z_size ByHeight.start = 3 /\ z_size ByHeight.finish = 4 /\
  z_size ByHeight.finish = len (mPRES (z_merged ByHeight.finish)).
Proof.
  assert (Ha : aligned (z_merged ByHeight.start))
    by (apply aligned_iff; vm_compute; reflexivity).
  assert (Hs : z_size ByHeight.start
               = len (mHGHT (z_merged ByHeight.start))) by reflexivity.
  assert (H : sigw_z_loop ByHeight.missing_float ByHeight.parts 2 1 0
                ByHeight.start = Ok ByHeight.finish)
    by (vm_compute; reflexivity).
  split; [exact H|]. split; [reflexivity|]. split; [reflexivity|].
  exact (proj1 (proj2 (sigw_z_loop_size ByHeight.missing_float
                         ByHeight.parts 2 1 0 ByHeight.start
                         ByHeight.finish Ha Hs H))).
Defined.

(** X18.  The merge of the significant winds on height surfaces keeps
    the six lists of the profile index-aligned and removes no level. *)
Theorem merge_sigw_z_aligned (missing_float : Q) (parts : parts_t)
    (c : counts) (m m' : merged_t) :
  aligned m ->
  merge_sigw_z missing_float parts c m = Ok m' ->
  aligned m' /\ len (mHGHT m) <= len (mHGHT m').
Proof.
  intros Ha H. unfold merge_sigw_z in H.
  destruct (ppbb_is_z c || ppdd_is_z c);
    [|injection H as <-; split; [exact Ha|lia]].
  cbv zeta in H.
  apply bind_ok in H as (s0 & H0 & H).
  apply bind_ok in H as (s1 & H1 & [= <-]).
  apply sigw_z_start_state in H0 as [Em Es]. subst m.
  destruct (sigw_z_loop_keeps missing_float parts _ _ _ _ _ Ha Es H1)
    as (R1 & _ & R3).
  split; [exact R1|unfold len; lia].
Qed.

Lemma merge_sigw_z_aligned_witness :
  aligned ByHeight.after_man_wind /\
  merge_sigw_z ByHeight.missing_float ByHeight.parts ByHeight.c
    ByHeight.after_man_wind = Ok (z_merged ByHeight.finish) /\
  aligned (z_merged ByHeight.finish) /\
  len (mHGHT (z_merged ByHeight.finish)) = 4.
Proof.
  assert (Ha : aligned ByHeight.after_man_wind)
    by (apply aligned_iff; vm_compute; reflexivity).
  assert (H : merge_sigw_z ByHeight.missing_float ByHeight.parts ByHeight.c
                ByHeight.after_man_wind = Ok (z_merged ByHeight.finish))
    by (vm_compute; reflexivity).
  split; [exact Ha|]. split; [exact H|]. split; [|reflexivity].
  exact (proj1 (merge_sigw_z_aligned ByHeight.missing_float ByHeight.parts
                  ByHeight.c ByHeight.after_man_wind
                  (z_merged ByHeight.finish) Ha H)).
Defined.

(** ** The mandatory levels below the ground *)

Lemma py_index_head {A : Type} (l : list A) (a : A) :
  py_index l 0 = Ok a -> exists t, l = a :: t.
Proof.
  intros H. apply (py_index_nat l 0 a) in H.
  destruct l as [|h t]; simpl in H; [discriminate|].
  injection H as ->. eauto.
Qed.

Lemma nonincreasing_rev (l : list Q) :
  nonincreasing l -> StronglySorted Qle (rev l).
Proof.
  unfold nonincreasing.
  induction 1 as [|h t Ht IH Hh]; simpl; [constructor|].
  apply sorted_app; [exact IH|repeat constructor|].
  apply Forall_rev. eapply Forall_impl; [|exact Hh].
  simpl. intros y Hy. constructor; [exact Hy|constructor].
Qed.

Lemma nonincreasing_insert (l : list Q) (x : Q) :
  forall k,
    nonincreasing l ->
    Forall (fun y => (x <= y)%Q) (firstn k l) ->
    Forall (fun y => (y < x)%Q) (skipn k l) ->
    nonincreasing (firstn k l ++ x :: skipn k l).
Proof.
  unfold nonincreasing. intros k Hs. revert k.
  induction Hs as [|h t Ht IH Hh]; intros k H1 H2.
  - destruct k; simpl; repeat constructor.
  - destruct k as [|k]; simpl in *.
    + constructor; [constructor; assumption|].
      eapply Forall_impl; [|exact H2]. simpl. intros y.
      apply Qlt_le_weak.
    + inversion H1 as [|? ? Hxh H1']; subst.
      constructor; [now apply IH|].
      apply Forall_app. split.
      * rewrite <- (firstn_skipn k t) in Hh.
        apply Forall_app in Hh. tauto.
      * constructor; [exact Hxh|].
        rewrite <- (firstn_skipn k t) in Hh.
        apply Forall_app in Hh. tauto.
Qed.

(** The reverse bisection on pressures that never increase. *)
Lemma reverse_bisect_split (l : list Q) (x : Q) :
  nonincreasing l ->
  exists k : nat,
    (k <= List.length l)%nat /\
    len l - bisect_left (rev l) x = Z.of_nat k /\
    Forall (fun y => (x <= y)%Q) (firstn k l) /\
    Forall (fun y => (y < x)%Q) (skipn k l).
Proof.
  intros Hd.
  destruct (bisect_left_sorted (rev l) x (nonincreasing_rev l Hd))
    as (Hr & Hb & Ha).
  unfold len in *. rewrite length_rev in Hr.
  set (r := bisect_left (rev l) x) in *.
  exists (List.length l - Z.to_nat r)%nat.
  split; [lia|]. split; [lia|].
  rewrite firstn_rev in Hb. rewrite skipn_rev in Ha.
  apply Forall_rev in Hb, Ha. rewrite rev_involutive in Hb, Ha.
  split; assumption.
Qed.

Lemma py_insert_nat {A : Type} (l : list A) (k : nat) (v : A) :
  (k <= List.length l)%nat ->
  py_insert l (Z.of_nat k) v = firstn k l ++ v :: skipn k l.
Proof.
  intros Hk. unfold py_insert.
  destruct (Z.ltb_spec (Z.of_nat k) 0); [lia|].
  rewrite Z.min_l by lia. now rewrite Nat2Z.id.
Qed.

Section BelowGroundSteps.
Variable parts : parts_t.

(** What one turn of the loop does. *)
Lemma below_ground_entry_cases (ibgl : Z) (m m' : merged_t)
    (size size' : Z) :
  below_ground_entry parts ibgl (m, size) = Ok (m', size') ->
  exists pres p0,
    at_ parts TTAA PRES ibgl = Ok pres /\ m_at m PRES 0 = Ok p0 /\
    ((Qltb p0 pres = false /\ m' = m /\ size' = size) \/
     (Qltb p0 pres = true /\ size' = size + 1 /\
      mPRES m'
      = py_insert (mPRES m)
          (size - bisect_left (rev (tl (mPRES m))) pres) pres /\
      (aligned m -> aligned m'))).
Proof.
  intros H. unfold below_ground_entry in H.
  apply bind_ok in H as (pres & Hp & H).
  apply bind_ok in H as (p0 & H0 & H).
  exists pres, p0. split; [exact Hp|]. split; [exact H0|].
  destruct (Qltb p0 pres).
  - right. cbv zeta in H.
    apply bind_ok in H as (t & _ & H).
    apply bind_ok in H as (d & _ & H).
    apply bind_ok in H as (dr & _ & H).
    apply bind_ok in H as (sp & _ & H).
    apply bind_ok in H as (h & _ & H).
    injection H as <- <-.
    split; [reflexivity|]. split; [reflexivity|]. split; [reflexivity|].
    insert_lengths.
  - left. injection H as <- <-. auto.
Qed.

(** With the counter at the number of levels, a level that passes the
    test goes behind the surface level, among the levels of the tail. *)
Lemma below_ground_entry_counted (ibgl : Z) (m m' : merged_t)
    (size size' : Z) (p0 : Q) (t : list Q) :
  mPRES m = p0 :: t -> nonincreasing t -> size = len (mPRES m) ->
  below_ground_entry parts ibgl (m, size) = Ok (m', size') ->
  exists pres,
    at_ parts TTAA PRES ibgl = Ok pres /\
    ((Qltb p0 pres = false /\ m' = m /\ size' = size) \/
     (Qltb p0 pres = true /\
      exists k,
        (k <= List.length t)%nat /\
        mPRES m' = p0 :: firstn k t ++ pres :: skipn k t /\
        nonincreasing (firstn k t ++ pres :: skipn k t) /\
        size' = len (mPRES m'))).
Proof.
  intros Em Ht Hs H.
  apply below_ground_entry_cases in H as (pres & q0 & Hp & H0 & Hc).
  assert (q0 = p0).
  { unfold m_at in H0. simpl in H0. rewrite Em in H0.
    apply (py_index_nat (p0 :: t) 0 q0) in H0. simpl in H0. congruence. }
  subst q0. exists pres. split; [exact Hp|].
  destruct Hc as [(Hf & -> & ->)|(Ht' & -> & Ep & _)]; [left; auto|].
  right. split; [exact Ht'|].
  rewrite Em in Ep. cbn [tl] in Ep.
  destruct (reverse_bisect_split t pres Ht) as (k & Hk & Hloc & H1 & H2).
  assert (El : size - bisect_left (rev t) pres = Z.of_nat (S k)).
  { rewrite Hs, Em. unfold len in *. cbn [List.length]. lia. }
  rewrite El in Ep.
  rewrite py_insert_nat in Ep by (cbn [List.length]; lia).
  cbn [firstn skipn app] in Ep.
  exists k. split; [exact Hk|]. split; [exact Ep|].
  split; [now apply nonincreasing_insert|].
  rewrite Ep, Hs, Em. unfold len. cbn [List.length].
  rewrite length_app. cbn [List.length].
  rewrite <- (firstn_skipn k t) at 1. rewrite length_app. lia.
Qed.

(** Lines 1452-1463: the loop over the entries [idxs] of the mandatory
    report.  Every entry that passes the test is in the tail of the
    result. *)
Lemma below_ground_loop (p0 : Q) (idxs : list Z) :
  forall (m m' : merged_t) (size size' : Z) (t : list Q),
    aligned m -> mPRES m = p0 :: t -> nonincreasing t ->
    size = len (mPRES m) ->
    for_each idxs (below_ground_entry parts) (m, size) = Ok (m', size') ->
    aligned m' /\
    (exists t',
        mPRES m' = p0 :: t' /\ nonincreasing t' /\ incl t t' /\
        (forall ibgl pres,
            In ibgl idxs -> at_ parts TTAA PRES ibgl = Ok pres ->
            (p0 < pres)%Q -> In pres t') /\
        len t' = len t + len (filter (is_below_ground parts p0) idxs)) /\
    size' = len (mPRES m').
Proof.
  induction idxs as [|ibgl rest IH]; intros m m' size size' t Ha Em Ht Hs H.
  - simpl in H. injection H as <- <-. split; [exact Ha|]. split; [|exact Hs].
    exists t. split; [exact Em|]. split; [exact Ht|].
    split; [apply incl_refl|]. split; [intros ? ? []|].
    simpl. unfold len. simpl. lia.
  - cbn [for_each] in H. apply bind_ok in H as ([m1 s1] & H1 & H).
    assert (Ha1 : aligned m1).
    { apply below_ground_entry_cases in H1
        as (pres & q1 & _ & _ & [(_ & -> & _)|(_ & _ & _ & Hal)]); auto. }
    destruct (below_ground_entry_counted ibgl m m1 size s1 p0 t Em Ht Hs H1)
      as (pres & Hp & [(Hf & -> & ->)|(Htrue & k & Hk & E1 & Ht1 & Hs1)]).
    + destruct (IH m m' size size' t Ha Em Ht Hs H)
        as (R1 & (t' & E' & Ht' & Hi' & Hin' & Hlen') & R3).
      split; [exact R1|]. split; [|exact R3].
      exists t'. split; [exact E'|]. split; [exact Ht'|].
      split; [exact Hi'|]. split.
      * intros i q [<-|Hi] Hq Hlt; [|eauto].
        apply Qltb_lt in Hlt. congruence.
      * cbn [filter]. unfold is_below_ground at 1. rewrite Hp, Hf.
        exact Hlen'.
    + destruct (IH m1 m' s1 size' _ Ha1 E1 Ht1 Hs1 H)
        as (R1 & (t' & E' & Ht' & Hi' & Hin' & Hlen') & R3).
      split; [exact R1|]. split; [|exact R3].
      exists t'. split; [exact E'|]. split; [exact Ht'|].
      assert (Hsub : incl t (firstn k t ++ pres :: skipn k t)).
      { intros y Hy. rewrite <- (firstn_skipn k t) in Hy.
        apply in_app_iff in Hy. apply in_app_iff. simpl. tauto. }
      split; [eapply incl_tran; eassumption|]. split.
      * intros i q [<-|Hi] Hq Hlt; [|eauto].
        assert (q = pres) by congruence. subst q.
        apply Hi'. apply in_app_iff. simpl. tauto.
      * cbn [filter]. unfold is_below_ground at 1. rewrite Hp, Htrue.
        rewrite Hlen'. unfold len. cbn [List.length].
        rewrite length_app. cbn [List.length].
        rewrite <- (firstn_skipn k t) at 3. rewrite length_app. lia.
Qed.
End BelowGroundSteps.

(** X19.  With the counter [size] at the number of levels of the profile,
    as the merge by height leaves it, the last step merges the mandatory
    levels below the ground behind the surface level.  When the surface
    pressure is present and [bgl] is positive, every entry of [TTAA] after
    the first whose pressure exceeds the surface pressure is inserted: its
    pressure is in the profile after the surface level, and the profile
    grows by the number of these entries; otherwise the profile is left as
    it is.  The profile stays aligned, its first level is still the
    surface, the pressures after it still never increase, no level is
    removed, and the counter is again the number of levels. *)
Theorem merge_below_ground_counted (missing_float : Q) (parts : parts_t)
    (c : counts) (bgl size size' : Z) (m m' : merged_t) (p0 : Q)
    (t : list Q) :
  aligned m -> mPRES m = p0 :: t -> nonincreasing t ->
  size = len (mPRES m) ->
  merge_below_ground missing_float parts c bgl (m, size) = Ok (m', size') ->
  aligned m' /\
  (exists t', mPRES m' = p0 :: t' /\ nonincreasing t' /\ incl t t' /\
     (Qneb p0 missing_float = true -> 0 < bgl ->
      (forall ibgl pres,
          In ibgl (range 1 (num_man_levels c)) ->
          at_ parts TTAA PRES ibgl = Ok pres ->
          (p0 < pres)%Q -> In pres t') /\
      len t' = len t + len (filter (is_below_ground parts p0)
                              (range 1 (num_man_levels c))))) /\
  (Qneb p0 missing_float = false \/ bgl <= 0 -> m' = m) /\
  size' = len (mPRES m').
Proof.
  intros Ha Em Ht Hs H.
  unfold merge_below_ground in H. cbv zeta beta in H.
  apply bind_ok in H as (q0 & H0 & H).
  assert (q0 = p0).
  { unfold m_at in H0. simpl in H0. rewrite Em in H0.
    apply (py_index_nat (p0 :: t) 0 q0) in H0. simpl in H0. congruence. }
  subst q0.
  assert (Same : m' = m -> size' = size ->
          aligned m' /\
          (exists t', mPRES m' = p0 :: t' /\ nonincreasing t' /\
             incl t t' /\
             (Qneb p0 missing_float = true -> 0 < bgl ->
              (forall ibgl pres,
                  In ibgl (range 1 (num_man_levels c)) ->
                  at_ parts TTAA PRES ibgl = Ok pres ->
                  (p0 < pres)%Q -> In pres t') /\
              len t' = len t + len (filter (is_below_ground parts p0)
                                      (range 1 (num_man_levels c))))) ->
          aligned m' /\
          (exists t', mPRES m' = p0 :: t' /\ nonincreasing t' /\
             incl t t' /\
             (Qneb p0 missing_float = true -> 0 < bgl ->
              (forall ibgl pres,
                  In ibgl (range 1 (num_man_levels c)) ->
                  at_ parts TTAA PRES ibgl = Ok pres ->
                  (p0 < pres)%Q -> In pres t') /\
              len t' = len t + len (filter (is_below_ground parts p0)
                                      (range 1 (num_man_levels c))))) /\
          (Qneb p0 missing_float = false \/ bgl <= 0 -> m' = m) /\
          size' = len (mPRES m')).
  { intros -> -> (A & B). split; [exact A|]. split; [exact B|].
    split; [reflexivity|exact Hs]. }
  destruct (Qneb p0 missing_float) eqn:Hpres.
  - destruct (Z.ltb_spec 0 bgl) as [Hbgl|Hbgl].
    + destruct (below_ground_loop parts p0 _ _ _ _ _ _ Ha Em Ht Hs H)
        as (R1 & (t' & E' & Ht' & Hi' & Hin' & Hlen') & R3).
      split; [exact R1|]. split.
      * exists t'. split; [exact E'|]. split; [exact Ht'|].
        split; [exact Hi'|]. intros _ _. split; assumption.
      * split; [|exact R3]. intros [Hc|Hc]; [discriminate|lia].
    + injection H as <- <-. apply Same; try reflexivity.
      split; [exact Ha|]. exists t. split; [exact Em|].
      split; [exact Ht|]. split; [apply incl_refl|]. intros _ Hc. lia.
  - injection H as <- <-. apply Same; try reflexivity.
    split; [exact Ha|]. exists t. split; [exact Em|].
    split; [exact Ht|]. split; [apply incl_refl|]. intros Hc. discriminate.
Qed.

Lemma merge_below_ground_counted_witness :
  merge_below_ground BelowGround.missing_float BelowGround.parts
    BelowGround.c 1 (fst BelowGround.after_man_temp, 3)
    = Ok BelowGround.counted /\
  mPRES (fst BelowGround.counted)
  = [inject_Z 990; inject_Z 1000; inject_Z 925; inject_Z 850] /\
  aligned (fst BelowGround.counted) /\
  snd BelowGround.counted = len (mPRES (fst BelowGround.counted)).
Proof.
  assert (H : merge_below_ground BelowGround.missing_float BelowGround.parts
                BelowGround.c 1 (fst BelowGround.after_man_temp, 3)
              = Ok BelowGround.counted) by (vm_compute; reflexivity).
  split; [exact H|]. split; [reflexivity|].
  assert (Ha : aligned (fst BelowGround.after_man_temp))
    by (apply aligned_iff; vm_compute; reflexivity).
  assert (Ht : nonincreasing [inject_Z 925; inject_Z 850])
    by (unfold nonincreasing; repeat constructor; vm_compute; discriminate).
  pose proof (merge_below_ground_counted BelowGround.missing_float
                BelowGround.parts BelowGround.c 1 3
                (snd BelowGround.counted)
                (fst BelowGround.after_man_temp) (fst BelowGround.counted)
                (inject_Z 990) [inject_Z 925; inject_Z 850]
                Ha eq_refl Ht eq_refl H) as (R1 & _ & _ & R3).
  split; assumption.
Defined.

(** X20.  With the counter [size] one short of the number of levels, a
    mandatory level below the ground is inserted before the surface level
    of a profile with strictly decreasing pressures: it becomes the first
    level, and the counter is still one short. *)
Theorem below_ground_entry_stale_counter (parts : parts_t) (ibgl : Z)
    (m m' : merged_t) (size size' : Z) (pres p0 : Q) :
  decreasing (mPRES m) ->
  size = len (mPRES m) - 1 ->
  at_ parts TTAA PRES ibgl = Ok pres ->
  m_at m PRES 0 = Ok p0 -> (p0 < pres)%Q ->
  below_ground_entry parts ibgl (m, size) = Ok (m', size') ->
  mPRES m' = pres :: mPRES m /\ size' = len (mPRES m') - 1.
Proof.
  intros Hd Hs Hp H0 Hlt H.
  apply below_ground_entry_cases in H
    as (pres' & q0 & Hp' & H0' & Hc).
  assert (pres' = pres) by congruence.
  assert (q0 = p0) by congruence. subst pres' q0.
  destruct Hc as [(Hf & _)|(_ & -> & Ep & _)].
  - apply Qltb_lt in Hlt. congruence.
  - unfold m_at in H0. simpl in H0.
    apply py_index_head in H0 as (t & Em). rewrite Em in *.
    cbn [tl] in Ep. unfold decreasing in Hd.
    apply StronglySorted_inv in Hd as [Hdt Hall].
    assert (Ht : nonincreasing t).
    { unfold nonincreasing. clear - Hdt.
      induction Hdt as [|h u Hu IH Hh]; constructor; [exact IH|].
      eapply Forall_impl; [|exact Hh]. simpl. intros y.
      apply Qlt_le_weak. }
    destruct (reverse_bisect_split t pres Ht) as (k & Hk & Hloc & H1 & _).
    assert (k = 0%nat).
    { destruct k as [|k]; [reflexivity|]. exfalso.
      destruct t as [|h u]; [simpl in Hk; lia|].
      simpl in H1. apply Forall_inv in H1 as Hph.
      apply Forall_inv in Hall as Hh.
      apply (Qlt_irrefl pres).
      eapply Qle_lt_trans; [exact Hph|].
      eapply Qlt_trans; eassumption. }
    subst k.
    assert (El : size - bisect_left (rev t) pres = 0).
    { rewrite Hs. unfold len in *. cbn [List.length]. lia. }
    rewrite El in Ep. change 0 with (Z.of_nat 0) in Ep.
    rewrite py_insert_nat in Ep by lia. cbn [firstn skipn app] in Ep.
    split; [exact Ep|].
    rewrite Ep, Hs. unfold len. cbn [List.length]. lia.
Qed.

Lemma below_ground_entry_stale_counter_witness :
  below_ground_entry BelowGround.parts 1 (fst BelowGround.after_man_temp, 2)
    = Ok BelowGround.stale /\
  mPRES (fst BelowGround.stale)
    = inject_Z 1000 :: mPRES (fst BelowGround.after_man_temp).
Proof.
  assert (H : below_ground_entry BelowGround.parts 1
                (fst BelowGround.after_man_temp, 2) = Ok BelowGround.stale)
    by (vm_compute; reflexivity).
  split; [exact H|].
  assert (Hd : decreasing (mPRES (fst BelowGround.after_man_temp)))
    by (unfold decreasing; repeat constructor).
  assert (Hlt : (inject_Z 990 < inject_Z 1000)%Q) by reflexivity.
  exact (proj1 (below_ground_entry_stale_counter BelowGround.parts 1
                  (fst BelowGround.after_man_temp) (fst BelowGround.stale)
                  2 (snd BelowGround.stale) (inject_Z 1000) (inject_Z 990)
                  Hd eq_refl eq_refl eq_refl Hlt H)).
Defined.

(** ** The profile after the mandatory temperatures *)

Ltac chase H :=
  lazymatch type of H with
  | bind _ _ = Ok _ =>
      let x := fresh "x" in
      let Hx := fresh "Hx" in
      apply bind_ok in H as (x & Hx & H); chase H
  | (if ?b then _ else _) = Ok _ => destruct b; chase H
  | Ok _ = Ok _ => injection H as <-
  | _ => idtac
  end.

Ltac lengths_kept :=
  let g := fresh "g" in
  intros g;
  repeat match goal with
         | Hm : m_set _ _ _ _ = Ok _ |- _ =>
             pose proof (m_set_lengths _ _ _ _ _ Hm g); clear Hm
         end;
  congruence.

Section ManTempProfile.
Variable missing_float : Q.
Variable parts : parts_t.

Lemma seed_surface_one_level (c : counts) (m : merged_t) :
  seed_surface missing_float parts c = Ok m ->
  forall g, List.length (mget m g) = 1%nat.
Proof.
  intros H g. unfold seed_surface in H.
  apply bind_ok in H as (m0 & H0 & H).
  rewrite (m_set_lengths _ _ _ _ _ H g).
  chase H0; destruct g; reflexivity.
Qed.

Lemma validate_surface_lengths (m m' : merged_t) :
  validate_surface missing_float parts m = Ok m' ->
  forall g, List.length (mget m' g) = List.length (mget m g).
Proof.
  intros H. unfold validate_surface, set_level_missing in H.
  chase H; lengths_kept.
Qed.

Lemma surface_from_sigt_lengths (c : counts) (m m' : merged_t) :
  surface_from_sigt missing_float parts c m = Ok m' ->
  forall g, List.length (mget m' g) = List.length (mget m g).
Proof.
  intros H. unfold surface_from_sigt in H. cbv zeta beta in H.
  chase H; lengths_kept.
Qed.

Lemma surface_from_sigw_lengths (c : counts) (m m' : merged_t) :
  surface_from_sigw missing_float parts c m = Ok m' ->
  forall g, List.length (mget m' g) = List.length (mget m g).
Proof.
  intros H. unfold surface_from_sigw in H. cbv zeta beta in H.
  chase H; lengths_kept.
Qed.

Hypothesis parts_wf : forall n pt, get_part parts n = Ok pt -> part_wf pt.

Lemma append_level_aligned (n : part_name) (i : Z) (m m' : merged_t) :
  (forall pt, get_part parts n = Ok pt -> complete pt) ->
  aligned m -> append_level parts n i m = Ok m' -> aligned m'.
Proof.
  intros Hc Ha H. unfold append_level in H.
  apply bind_ok in H as (pt & Hpt & H).
  assert (L : forall f, List.length (mget m' f)
                        = S (List.length (mget m f))).
  { intros f.
    pose proof (append_fields_spec i pt f m m' (parts_wf _ _ Hpt) H) as Hs.
    pose proof (Hc pt Hpt f) as Hf. unfold has_field in Hf.
    destruct (lookup_field pt f); [|discriminate].
    destruct Hs as (v & _ & ->). rewrite length_app. simpl. lia. }
  unfold aligned in *.
  pose proof (L PRES). pose proof (L HGHT). pose proof (L TEMP).
  pose proof (L DWPT). pose proof (L DRCT). pose proof (L SPED).
  simpl in *. intuition congruence.
Qed.

Lemma man_temp_turn_aligned (n : part_name) (counting : bool) (i : Z)
    (m m' : merged_t) (plast plast' : Q) (bgl bgl' : Z) :
  (forall pt, get_part parts n = Ok pt -> complete pt) ->
  aligned m ->
  man_temp_turn missing_float parts n counting i (m, plast, bgl)
  = Ok (m', plast', bgl') ->
  aligned m'.
Proof.
  intros Hc Ha H. unfold man_temp_turn in H.
  apply bind_ok in H as (ok & _ & H). destruct ok.
  - apply bind_ok in H as (m1 & Happ & H).
    apply bind_ok in H as (pl & _ & [= <- _ _]).
    eapply append_level_aligned; eassumption.
  - now injection H as <- _ _.
Qed.

Lemma merge_man_temp_aligned (c : counts) (m m' : merged_t) (bgl : Z) :
  (forall pt, get_part parts TTAA = Ok pt -> complete pt) ->
  (forall pt, get_part parts TTCC = Ok pt -> complete pt) ->
  aligned m -> merge_man_temp missing_float parts c m = Ok (m', bgl) ->
  aligned m'.
Proof.
  intros Ca Cc Ha H. unfold merge_man_temp in H. cbv zeta beta in H.
  destruct ((2 <=? num_man_levels c) || (1 <=? num_above_man_levels c));
    [|now injection H as <- _].
  apply bind_ok in H as (p0 & _ & H).
  apply bind_ok in H as (st1 & H1 & H).
  apply bind_ok in H as (st2 & H2 & [= <- _]).
  assert (A1 : aligned (fst (fst st1))).
  { revert H1.
    apply (for_each_invariant (fun st => aligned (fst (fst st))));
      [|exact Ha].
    intros i [[ma pa] ba] [[mb pb] bb] Hma Hst. simpl in Hma |- *.
    exact (man_temp_turn_aligned TTAA true i ma mb pa pb ba bb Ca Hma Hst). }
  revert H2.
  apply (for_each_invariant (fun st => aligned (fst (fst st))));
    [|exact A1].
  intros i [[ma pa] ba] [[mb pb] bb] Hma Hst. simpl in Hma |- *.
  exact (man_temp_turn_aligned TTCC false i ma mb pa pb ba bb Cc Hma Hst).
Qed.

Lemma one_level_aligned (m : merged_t) :
  (forall g, List.length (mget m g) = 1%nat) -> aligned m.
Proof.
  intros L. unfold aligned.
  pose proof (L PRES). pose proof (L HGHT). pose proof (L TEMP).
  pose proof (L DWPT). pose proof (L DRCT). pose proof (L SPED).
  simpl in *. intuition congruence.
Qed.

Lemma merge_to_man_temp_shape (m : merged_t) (bgl : Z) :
  merge_to_man_temp missing_float parts = Ok (m, bgl) ->
  exists c m0,
    count_levels parts = Ok c /\
    (forall g, List.length (mget m0 g) = 1%nat) /\
    merge_man_temp missing_float parts c m0 = Ok (m, bgl).
Proof.
  intros H. unfold merge_to_man_temp in H.
  apply bind_ok in H as (c & Hc & H).
  apply bind_ok in H as (m1 & H1 & H).
  apply bind_ok in H as (m2 & H2 & H).
  apply bind_ok in H as (m3 & H3 & H).
  apply bind_ok in H as (m4 & H4 & H).
  exists c, m4. split; [exact Hc|]. split; [|exact H].
  intros g.
  rewrite (surface_from_sigw_lengths _ _ _ H4 g).
  rewrite (surface_from_sigt_lengths _ _ _ H3 g).
  rewrite (validate_surface_lengths _ _ H2 g).
  apply (seed_surface_one_level _ _ H1 g).
Qed.
End ManTempProfile.

(** X21.  After the surface level and the mandatory temperatures the
    profile is one surface level followed by levels of strictly decreasing
    pressure, all below the surface pressure (below 2000 when the surface
    pressure is missing); with mandatory reports that hold the six
    parameters the six lists are index-aligned.  [bgl] is the number of
    entries of [TTAA] after its first that were not appended. *)
Theorem merge_to_man_temp_profile (missing_float : Q) (parts : parts_t)
    (m : merged_t) (bgl : Z) :
  (forall n pt, get_part parts n = Ok pt -> part_wf pt) ->
  (forall pt, get_part parts TTAA = Ok pt -> complete pt) ->
  (forall pt, get_part parts TTCC = Ok pt -> complete pt) ->
  merge_to_man_temp missing_float parts = Ok (m, bgl) ->
  aligned m /\
  exists p0 added1 added2 c,
    count_levels parts = Ok c /\
    mPRES m = p0 :: added1 ++ added2 /\
    decreasing (added1 ++ added2) /\
    Forall (fun x => (x < plast_start missing_float p0)%Q)
      (added1 ++ added2) /\
    bgl = len (range 1 (num_man_levels c)) - len added1.
Proof.
  intros Hwf Ca Cc H.
  apply merge_to_man_temp_shape in H as (c & m0 & Hc & L & H).
  split.
  - eapply merge_man_temp_aligned; try eassumption.
    now apply one_level_aligned.
  - destruct (merge_man_temp_spec missing_float parts Hwf c m0 m bgl H)
      as (a1 & a2 & Em & Hd & Hb & Hbgl).
    pose proof (L PRES) as LP. simpl in LP.
    destruct (mPRES m0) as [|p0 [|? ?]] eqn:E0; try discriminate.
    exists p0, a1, a2, c. split; [exact Hc|]. split; [exact Em|].
    split; [exact Hd|]. split; [|exact Hbgl].
    apply Hb. unfold m_at. simpl. rewrite E0. reflexivity.
Qed.

Lemma merge_to_man_temp_profile_witness :
  merge_to_man_temp BelowGround.missing_float BelowGround.parts
    = Ok BelowGround.after_man_temp /\
  aligned (fst BelowGround.after_man_temp) /\
  snd BelowGround.after_man_temp = 1.
Proof.
  split; [vm_compute; reflexivity|]. split; [|reflexivity].
  assert (Hwf : forall n pt,
             get_part BelowGround.parts n = Ok pt -> part_wf pt).
  { intros n pt H. destruct n; vm_compute in H; try discriminate;
      injection H as <-; unfold part_wf; simpl;
      repeat constructor; simpl; intuition discriminate. }
  assert (Ca : forall pt,
             get_part BelowGround.parts TTAA = Ok pt -> complete pt).
  { intros pt H. vm_compute in H. injection H as <-.
    intros f. destruct f; reflexivity. }
  assert (Cc : forall pt,
             get_part BelowGround.parts TTCC = Ok pt -> complete pt).
  { intros pt H. vm_compute in H. discriminate. }
  assert (H : merge_to_man_temp BelowGround.missing_float BelowGround.parts
              = Ok (fst BelowGround.after_man_temp,
                    snd BelowGround.after_man_temp))
    by (vm_compute; reflexivity).
  exact (proj1 (merge_to_man_temp_profile BelowGround.missing_float
                  BelowGround.parts (fst BelowGround.after_man_temp)
                  (snd BelowGround.after_man_temp) Hwf Ca Cc H)).
Defined.

(** ** The [diff] decoder *)

Lemma nth_set_nth_same (l : list Q) (n : nat) (v : Q) :
  (n < List.length l)%nat -> nth n (set_nth l n v) 0%Q = v.
Proof.
  intros H. apply nth_error_nth. now apply set_nth_same.
Qed.

Lemma nth_set_nth_other (l : list Q) (n k : nat) (v : Q) :
  n <> k -> nth k (set_nth l n v) 0%Q = nth k l 0%Q.
Proof.
  intros H. pose proof (set_nth_other l n k v H) as E.
  destruct (nth_error l k) as [x|] eqn:Ek.
  - rewrite (nth_error_nth _ _ _ E). symmetry. now apply nth_error_nth.
  - apply nth_error_None in E, Ek.
    rewrite !nth_overflow by assumption. reflexivity.
Qed.

Section DiffCells.
Variable missing_float : Q.
Variable mi : GridMetaInt.
Variable mr : GridMetaReal.
Variable packed_buffer : list Z.
Variable w : nat.
Hypothesis Hbits : 0 <= gmi_bits mi <= 32.
Hypothesis Hflag : gmi_missing_flag mi = 0.
Hypothesis Hw : (0 < w)%nat.

(** A value stored at a cell changes no value the cells before it were
    computed from. *)
Lemma diff_value_set_nth (grid : list Q) (n : nat) (v : Q)
    (j i : nat) (idat : Z) :
  (i < w)%nat -> (j * w + i <= n)%nat ->
  diff_value mr w (set_nth grid n v) j i idat
  = diff_value mr w grid j i idat.
Proof.
  intros Hi Hn. unfold diff_value.
  destruct i as [|i'].
  - destruct j as [|j']; [reflexivity|].
    rewrite nth_set_nth_other by nia. reflexivity.
  - rewrite nth_set_nth_other by nia. reflexivity.
Qed.

Lemma diff_cell_ok_set_nth (grid : list Q) (n : nat) (v : Q) (j i : nat) :
  (i < w)%nat -> (j * w + i < n)%nat ->
  diff_cell_ok mi mr packed_buffer w grid j i ->
  diff_cell_ok mi mr packed_buffer w (set_nth grid n v) j i.
Proof.
  intros Hi Hn (idat & Hf & Hv). exists idat. split; [exact Hf|].
  rewrite set_nth_other by lia.
  rewrite diff_value_set_nth by lia. exact Hv.
Qed.

(** Lines 617-650: one cell. *)
Lemma diff_cell_step (j i : nat) (s s' : diff_state) :
  (i < w)%nat ->
  diff_inv mi mr packed_buffer w j i s ->
  ds_line s = negb (Nat.eqb i 0) ->
  diff_cell missing_float (Z.of_nat w) mi mr packed_buffer
    (Z.of_nat j) (Z.of_nat i) s = Ok s' ->
  diff_inv mi mr packed_buffer w j (S i) s' /\ ds_line s' = true /\
  List.length (ds_grid s') = List.length (ds_grid s).
Proof.
  intros Hi (Hcur & Hfirst & Hpos & Hrow & Hcells) Hline H.
  unfold diff_cell in H. cbv zeta in H.
  apply bind_ok in H as (idat & Hf & H).
  assert (Hiw : ds_iword s
               = fst (cursor (gmi_bits mi) (Z.of_nat (j * w + i))))
    by (now rewrite <- Hcur).
  assert (Hib : ds_ibit s
               = snd (cursor (gmi_bits mi) (Z.of_nat (j * w + i))))
    by (now rewrite <- Hcur).
  rewrite Hiw, Hib in Hf, H.
  pose proof (advance_cursor (gmi_bits mi) (Z.of_nat (j * w + i)) Hbits
                ltac:(lia)) as Ha.
  replace (Z.of_nat (j * w + i) + 1) with (Z.of_nat (j * w + S i)) in Ha
    by lia.
  rewrite Ha in H. unfold cursor in H at 1. cbv iota beta in H.
  fold (cursor (gmi_bits mi) (Z.of_nat (j * w + S i))) in H.
  rewrite Hflag in H. cbn [Z.eqb negb andb] in H.
  replace (Z.of_nat j * Z.of_nat w + Z.of_nat i)
    with (Z.of_nat (j * w + i)) in H by lia.
  set (n := (j * w + i)%nat) in *.
  assert (Hstore : forall v g,
             py_setitem (ds_grid s) (Z.of_nat n) v = Ok g ->
             g = set_nth (ds_grid s) n v /\
             (n < List.length (ds_grid s))%nat).
  { intros v g Hs. apply py_setitem_nat in Hs; [|lia].
    now rewrite Nat2Z.id in Hs. }
  assert (Hold : forall v j' i',
             (i' < w)%nat -> (j' < j)%nat \/ (j' = j /\ (i' < i)%nat) ->
             diff_cell_ok mi mr packed_buffer w
               (set_nth (ds_grid s) n v) j' i').
  { intros v j' i' Hi' Hji. apply diff_cell_ok_set_nth; [exact Hi'| |].
    - unfold n. destruct Hji as [Hj|[-> Hlt]]; nia.
    - now apply Hcells. }
  assert (Hnew : forall v s1,
             ds_grid s1 = set_nth (ds_grid s) n v ->
             (n < List.length (ds_grid s))%nat ->
             (ds_iword s1, ds_ibit s1)
             = cursor (gmi_bits mi) (Z.of_nat (j * w + S i)) ->
             ds_first s1 = false ->
             ds_psav s1 = v ->
             ds_plin s1 = nth (j * w) (set_nth (ds_grid s) n v) 0%Q ->
             v = diff_value mr w (set_nth (ds_grid s) n v) j i idat ->
             diff_inv mi mr packed_buffer w j (S i) s1).
  { intros v s1 Eg Hn Ec Ef Ep El Ev. unfold diff_inv. rewrite Eg.
    split; [exact Ec|]. split; [rewrite Ef; now rewrite andb_false_r|].
    split.
    - intros _. split; [|exact El].
      replace (j * w + S i - 1)%nat with n by (unfold n; lia).
      rewrite nth_set_nth_same by exact Hn. exact Ep.
    - split; [intros; lia|].
      intros j' i' Hi' Hji.
      destruct (Nat.eq_dec j' j) as [->|Hne].
      + destruct (Nat.eq_dec i' i) as [->|Hni].
        * exists idat. split; [exact Hf|].
          fold n. rewrite set_nth_same by exact Hn. now f_equal.
        * apply Hold; [exact Hi'|]. right. split; [reflexivity|].
          destruct Hji as [?|[_ ?]]; lia.
      + apply Hold; [exact Hi'|]. left. destruct Hji as [?|[? _]]; lia. }
  destruct (ds_first s) eqn:Efirst.
  - (* the first cell of the grid *)
    symmetry in Hfirst. apply andb_true_iff in Hfirst as [Hj0 Hi0].
    apply Nat.eqb_eq in Hj0, Hi0. subst j i.
    apply bind_ok in H as (g & Hs & [= <-]).
    apply Hstore in Hs as [-> Hn]. cbn [ds_grid ds_line].
    split; [|split; [reflexivity|apply set_nth_length]].
    apply (Hnew (gmr_reference mr)); try reflexivity; try exact Hn.
    cbn [ds_plin]. unfold n. simpl.
    now rewrite nth_set_nth_same by exact Hn.
  - rewrite Hline in H. rewrite negb_involutive in H.
    destruct (Nat.eqb i 0) eqn:Ei0.
    + (* the first cell of a later row *)
      apply Nat.eqb_eq in Ei0. subst i.
      assert (Hj : (0 < j)%nat).
      { destruct j; [discriminate|lia]. }
      apply bind_ok in H as (g & Hs & [= <-]).
      apply Hstore in Hs as [-> Hn]. cbn [ds_grid ds_line].
      split; [|split; [reflexivity|apply set_nth_length]].
      apply (Hnew (ds_plin s + (gmr_diffmin mr
                                + inject_Z idat * gmr_scale mr))%Q);
        try reflexivity; try exact Hn.
      * cbn [ds_plin]. replace (j * w)%nat with n by (unfold n; lia).
        now rewrite nth_set_nth_same by exact Hn.
      * unfold diff_value. destruct j as [|j']; [lia|].
        rewrite nth_set_nth_other by (unfold n; nia).
        rewrite (Hrow eq_refl Hj).
        replace (S j' - 1)%nat with j' by lia. reflexivity.
    + (* a later cell of a row *)
      apply Nat.eqb_neq in Ei0.
      destruct (Hpos ltac:(lia)) as [Epsav Eplin].
      apply bind_ok in H as (g & Hs & [= <-]).
      apply Hstore in Hs as [-> Hn]. cbn [ds_grid ds_line].
      split; [|split; [reflexivity|apply set_nth_length]].
      apply (Hnew (ds_psav s + (gmr_diffmin mr
                                + inject_Z idat * gmr_scale mr))%Q);
        try reflexivity; try exact Hn.
      * cbn [ds_plin]. rewrite nth_set_nth_other by (unfold n; lia).
        exact Eplin.
      * unfold diff_value. destruct i as [|i']; [lia|].
        rewrite nth_set_nth_other by (unfold n; lia).
        rewrite Epsav. unfold n.
        replace (j * w + S i' - 1)%nat with (j * w + i')%nat by lia.
        reflexivity.
Qed.

(** Lines 616-650: the cells of a row from column [i] on. *)
Lemma diff_row_spec (j : nat) :
  forall (n i : nat) (s s' : diff_state),
    (i + n = w)%nat ->
    diff_inv mi mr packed_buffer w j i s ->
    ds_line s = negb (Nat.eqb i 0) ->
    diff_row missing_float (Z.of_nat w) mi mr packed_buffer (Z.of_nat j)
      (seq i n) s = Ok s' ->
    diff_inv mi mr packed_buffer w j w s' /\
    List.length (ds_grid s') = List.length (ds_grid s).
Proof.
  induction n as [|n IH]; intros i s s' Hin Hinv Hline H.
  - simpl in H. injection H as <-.
    assert (Ei : i = w) by lia. rewrite Ei in Hinv.
    split; [exact Hinv|reflexivity].
  - cbn [seq diff_row] in H.
    apply bind_ok in H as (s1 & H1 & H).
    apply diff_cell_step in H1 as (I1 & L1 & G1);
      [|lia|exact Hinv|exact Hline].
    apply IH in H as (I2 & G2); [|lia|exact I1|exact L1].
    split; [exact I2|congruence].
Qed.

Lemma diff_inv_next_row (j : nat) (s : diff_state) :
  diff_inv mi mr packed_buffer w j w s ->
  diff_inv mi mr packed_buffer w (S j) 0 s.
Proof.
  intros (Hcur & Hfirst & Hpos & _ & Hcells). unfold diff_inv.
  replace (S j * w + 0)%nat with (j * w + w)%nat by lia.
  split; [exact Hcur|]. split.
  - rewrite Hfirst. destruct w; [lia|]. simpl. now rewrite andb_false_r.
  - split; [intros; lia|]. split.
    + intros _ _. replace (S j - 1)%nat with j by lia.
      now apply Hpos.
    + intros j' i' Hi' Hji. apply Hcells; [exact Hi'|].
      destruct Hji as [Hlt|[_ Hlt]]; [|lia].
      destruct (Nat.eq_dec j' j) as [->|]; [right; now split|left; lia].
Qed.

(** Lines 614-650: the rows from row [j] on. *)
Lemma diff_rows_spec :
  forall (m j : nat) (s s' : diff_state),
    diff_inv mi mr packed_buffer w j 0 s ->
    diff_rows missing_float (Z.of_nat w) mi mr packed_buffer (seq j m) s
    = Ok s' ->
    diff_inv mi mr packed_buffer w (j + m) 0 s' /\
    List.length (ds_grid s') = List.length (ds_grid s).
Proof.
  induction m as [|m IH]; intros j s s' Hinv H.
  - simpl in H. injection H as <-.
    replace (j + 0)%nat with j by lia. split; [exact Hinv|reflexivity].
  - cbn [seq diff_rows] in H.
    apply bind_ok in H as (s1 & H1 & H).
    rewrite Nat2Z.id in H1.
    apply diff_row_spec in H1 as (I1 & G1);
      [|lia|exact Hinv|reflexivity].
    apply diff_inv_next_row in I1.
    apply IH in H as (I2 & G2); [|exact I1].
    replace (j + S m)%nat with (S j + m)%nat by lia.
    split; [exact I2|]. simpl in G1. congruence.
Qed.
End DiffCells.

(** X22.  When the [diff] branch returns a grid and the missing flag is
    not set, the grid has [ky * kx] cells and is the running sum of the
    differences: the first cell is the reference, the first cell of a
    later row is the first cell of the row above plus
    [diffmin + field * scale], every other cell is the cell to its left
    plus [diffmin + field * scale], with the field of the cell read at
    the cursor of its number in row-major order. *)
Theorem unpack_diff_values (missing_float : Q)
    (data_header_length kx ky : Z) (rd : reader) (header_length : Z)
    (mi : GridMetaInt) (mr : GridMetaReal)
    (packed_buffer : list Z) (grid : list Q) :
  read_GridMetaInt rd = Ok mi -> read_GridMetaReal rd = Ok mr ->
  read_int rd (data_header_length - header_length - 8) = Ok packed_buffer ->
  0 <= gmi_bits mi <= 32 -> gmi_missing_flag mi = 0 -> 0 < kx ->
  _unpack_grid missing_float data_header_length kx ky rd
    PackingType.diff header_length = Ok (Some grid) ->
  1 < data_header_length - header_length - 8 /\
  Z.of_nat (List.length grid) = ky * kx /\
  (forall j i, (j < Z.to_nat ky)%nat -> (i < Z.to_nat kx)%nat ->
     exists idat,
       diff_field mi packed_buffer (j * Z.to_nat kx + i) = Ok idat /\
       nth_error grid (j * Z.to_nat kx + i)
       = Some (diff_value mr (Z.to_nat kx) grid j i idat)).
Proof.
  intros Hmi Hmr Hbuf Hbits Hflag Hkx H.
  cbn [_unpack_grid] in H. unfold unpack_diff in H.
  rewrite Hmi, Hmr in H. cbn [bind] in H. cbv zeta in H.
  unfold read_words in H.
  destruct (data_header_length - header_length - 8 <? 0);
    [discriminate|].
  rewrite Hbuf in H. cbn [bind] in H.
  apply bind_ok in H as (zeros & Hz & H).
  destruct (Z.ltb_spec 1 (data_header_length - header_length - 8));
    [|discriminate].
  apply bind_ok in H as (s & Hrows & [= <-]).
  unfold np_zeros in Hz. cbn [existsb fold_left] in Hz.
  rewrite Z.mul_1_l, orb_false_r in Hz.
  destruct (Z.ltb_spec ky 0); [discriminate|].
  destruct (Z.ltb_spec kx 0); [lia|]. cbn [orb] in Hz.
  injection Hz as <-.
  rewrite <- (Z2Nat.id kx) in Hrows at 1 by lia.
  apply (diff_rows_spec missing_float mi mr packed_buffer (Z.to_nat kx)
           Hbits Hflag ltac:(lia) (Z.to_nat ky) 0) in Hrows
    as ((_ & _ & _ & _ & Hcells) & Hlen).
  - split; [assumption|]. split.
    + rewrite Hlen. cbn [ds_grid]. rewrite repeat_length. nia.
    + intros j i Hj Hi. apply Hcells; [exact Hi|]. left. lia.
  - unfold diff_inv. cbn [ds_iword ds_ibit ds_first ds_psav ds_plin ds_grid].
    split; [reflexivity|]. split; [reflexivity|].
    split; [intros; lia|]. split; [intros; lia|]. intros; lia.
Qed.

Lemma unpack_diff_values_witness :
  let mi := {| gmi_bits := 4; gmi_missing_flag := 0;
               gmi_kxky := 4; gmi_kx := 2 |} in
  let mr := {| gmr_reference := 10; gmr_scale := 1;
               gmr_diffmin := inject_Z (-2) |} in
  let grid := [10%Q; 11%Q; 13%Q; 12%Q] in
  1 < 12 - 2 - 8 /\
  Z.of_nat (List.length grid) = 2 * 2 /\
  (forall j i, (j < Z.to_nat 2)%nat -> (i < Z.to_nat 2)%nat ->
     exists idat,
       diff_field mi [0x03510000; 0] (j * Z.to_nat 2 + i) = Ok idat /\
       nth_error grid (j * Z.to_nat 2 + i)
       = Some (diff_value mr (Z.to_nat 2) grid j i idat)).
Proof.
  cbv zeta.
  apply (unpack_diff_values (inject_Z (-9999)) 12 2 2
           {| read_real := fun _ => Raise ReadError;
              read_int := fun _ => Ok [0x03510000; 0];
              read_GridMetaInt :=
                Ok {| gmi_bits := 4; gmi_missing_flag := 0;
                      gmi_kxky := 4; gmi_kx := 2 |};
              read_GridMetaReal :=
                Ok {| gmr_reference := 10; gmr_scale := 1;
                      gmr_diffmin := inject_Z (-2) |} |}
           2
           {| gmi_bits := 4; gmi_missing_flag := 0;
              gmi_kxky := 4; gmi_kx := 2 |}
           {| gmr_reference := 10; gmr_scale := 1;
              gmr_diffmin := inject_Z (-2) |}
           [0x03510000; 0] [10%Q; 11%Q; 13%Q; 12%Q]).
  - reflexivity.
  - reflexivity.
  - reflexivity.
  - simpl. lia.
  - reflexivity.
  - lia.
  - vm_compute. reflexivity.
Defined.

(** ** The merge by height keeps the heights ordered *)

Lemma nondecreasing_insert (l : list Q) (x : Q) :
  forall k,
    nondecreasing l ->
    Forall (fun y => (y < x)%Q) (firstn k l) ->
    Forall (fun y => (x <= y)%Q) (skipn k l) ->
    nondecreasing (firstn k l ++ x :: skipn k l).
Proof.
  unfold nondecreasing. intros k Hs. revert k.
  induction Hs as [|h t Ht IH Hh]; intros k H1 H2.
  - destruct k; simpl; repeat constructor.
  - destruct k as [|k]; simpl in *.
    + constructor; [constructor; assumption|exact H2].
    + inversion H1 as [|? ? Hxh H1']; subst.
      constructor; [now apply IH|].
      apply Forall_app. split.
      * rewrite <- (firstn_skipn k t) in Hh.
        apply Forall_app in Hh. tauto.
      * constructor; [now apply Qlt_le_weak|].
        rewrite <- (firstn_skipn k t) in Hh.
        apply Forall_app in Hh. tauto.
Qed.

(** [loc = bisect_left(HGHT, hght)] followed by [HGHT.insert(loc, hght)]. *)
Lemma bisect_insert_nondecreasing (l : list Q) (x : Q) :
  nondecreasing l ->
  nondecreasing (py_insert l (bisect_left l x) x).
Proof.
  intros Hs. destruct (bisect_left_sorted l x Hs) as (Hr & Hb & Ha).
  unfold len in Hr.
  rewrite <- (Z2Nat.id (bisect_left l x)) at 1 by lia.
  rewrite py_insert_nat by lia.
  now apply nondecreasing_insert.
Qed.

Lemma m_set_mHGHT (m m' : merged_t) (f : field) (i : Z) (v : Q) :
  f <> HGHT -> m_set m f i v = Ok m' -> mHGHT m' = mHGHT m.
Proof.
  intros Hf H. unfold m_set in H.
  apply bind_ok in H as (l & _ & [= <-]).
  destruct f; try reflexivity. congruence.
Qed.

Lemma set_wind_mHGHT (m m' : merged_t) (k : Z) (drct sped : Q) :
  set_wind m k drct sped = Ok m' -> mHGHT m' = mHGHT m.
Proof.
  unfold set_wind. intros H.
  apply bind_ok in H as (m1 & H1 & H2).
  apply m_set_mHGHT in H1, H2; congruence.
Qed.

Section HeightsKept.
Variable missing_float : Q.
Variable parts : parts_t.

(** A property of the heights that the insertion by bisection keeps is
    kept by every turn of the loop. *)
Variable P : list Q -> Prop.
Hypothesis P_insert : forall l x, P l -> P (py_insert l (bisect_left l x) x).

Lemma place_entry_heights (m m' : merged_t) (znxt : Q)
    (ilev size size' : Z) (hght drct sped : Q) :
  P (mHGHT m) ->
  place_entry missing_float m znxt ilev size hght drct sped
  = Ok (m', size') ->
  P (mHGHT m').
Proof.
  intros Hp H. unfold place_entry in H.
  destruct (Qltb _ _).
  - apply bind_ok in H as (wm & _ & H). destruct wm.
    + apply bind_ok in H as (m1 & H1 & [= <- _]).
      now rewrite (set_wind_mHGHT _ _ _ _ _ H1).
    + now injection H as <- _.
  - cbv zeta in H. injection H as <- _. simpl. now apply P_insert.
Qed.

Lemma sigw_z_turn_heights (nsgw nasw : Z) (s s' : zstate) :
  P (mHGHT (z_merged s)) ->
  sigw_z_turn missing_float parts nsgw nasw s = Ok s' ->
  P (mHGHT (z_merged s')).
Proof.
  intros Hp H. unfold sigw_z_turn in H. cbv zeta beta in H.
  apply bind_ok in H as (hght & _ & H).
  apply bind_ok in H as (drct & _ & H).
  apply bind_ok in H as (sped & _ & H).
  apply bind_ok in H as ([[m skip] [[[more zold] znxt] ilev]] & Hr & H).
  assert (Hm : mHGHT m = mHGHT (z_merged s)).
  { destruct (_ && _ && _); [inversion Hr; subst; reflexivity|].
    destruct (Qltb _ _).
    - apply bind_ok in Hr as (wm & _ & Hr).
      apply bind_ok in Hr as (m1 & Hm1 & Hr).
      inversion Hr; subst.
      destruct wm; [exact (set_wind_mHGHT _ _ _ _ _ Hm1)|].
      now injection Hm1 as <-.
    - destruct (Qle_bool hght (z_zold s));
        [inversion Hr; subst; reflexivity|].
      destruct (Qle_bool (z_znxt s) hght).
      + apply bind_ok in Hr as (cl & _ & Hr).
        inversion Hr; subst; reflexivity.
      + inversion Hr; subst; reflexivity. }
  apply bind_ok in H as ([m2 size] & Hpl & H).
  assert (Hm2 : P (mHGHT m2)).
  { destruct (more && negb skip).
    - eapply place_entry_heights; [|exact Hpl]. now rewrite Hm.
    - injection Hpl as <- _. now rewrite Hm. }
  simpl in H. clear Hpl.
  destruct (negb (z_above s) && _); injection H as <-; simpl; assumption.
Qed.

Lemma sigw_z_loop_heights (nsgw nasw : Z) :
  forall fuel s s',
    P (mHGHT (z_merged s)) ->
    sigw_z_loop missing_float parts fuel nsgw nasw s = Ok s' ->
    P (mHGHT (z_merged s')).
Proof.
  induction fuel as [|fuel IH]; intros s s' Hp H; simpl in H.
  - now injection H as <-.
  - destruct (z_more s && (z_i s <? z_iend s)).
    + apply bind_ok in H as (s1 & H1 & H).
      eapply IH; [|exact H]. eapply sigw_z_turn_heights; eassumption.
    + now injection H as <-.
Qed.

Lemma merge_sigw_z_heights (c : counts) (m m' : merged_t) :
  P (mHGHT m) -> merge_sigw_z missing_float parts c m = Ok m' ->
  P (mHGHT m').
Proof.
  intros Hp H. unfold merge_sigw_z in H.
  destruct (ppbb_is_z c || ppdd_is_z c); [|now injection H as <-].
  cbv zeta in H.
  apply bind_ok in H as (s0 & H0 & H).
  apply bind_ok in H as (s1 & H1 & [= <-]).
  apply sigw_z_start_state in H0 as [Em _].
  eapply sigw_z_loop_heights; [|exact H1]. now rewrite Em.
Qed.
End HeightsKept.

(** X23.  The merge of the significant winds on height surfaces keeps
    heights that never decrease in that order, and removes no height: a
    new level is inserted by bisection on the heights. *)
Theorem merge_sigw_z_heights_ordered (missing_float : Q) (parts : parts_t)
    (c : counts) (m m' : merged_t) :
  nondecreasing (mHGHT m) ->
  merge_sigw_z missing_float parts c m = Ok m' ->
  nondecreasing (mHGHT m') /\ incl (mHGHT m) (mHGHT m').
Proof.
  intros Hs H.
  apply (merge_sigw_z_heights missing_float parts
           (fun l => nondecreasing l /\ incl (mHGHT m) l)) with (c := c)
    (m := m); [|split; [exact Hs|apply incl_refl]|exact H].
  intros l x [Hl Hi]. split.
  - now apply bisect_insert_nondecreasing.
  - eapply incl_tran; [exact Hi|apply py_insert_incl].
Qed.

Lemma merge_sigw_z_heights_ordered_witness :
  nondecreasing (mHGHT ByHeight.after_man_wind) /\
  merge_sigw_z ByHeight.missing_float ByHeight.parts ByHeight.c
    ByHeight.after_man_wind = Ok (z_merged ByHeight.finish) /\
  nondecreasing (mHGHT (z_merged ByHeight.finish)).
Proof.
  assert (Hs : nondecreasing (mHGHT ByHeight.after_man_wind))
    by (unfold nondecreasing; repeat constructor; vm_compute; discriminate).
  assert (H : merge_sigw_z ByHeight.missing_float ByHeight.parts ByHeight.c
                ByHeight.after_man_wind = Ok (z_merged ByHeight.finish))
    by (vm_compute; reflexivity).
  split; [exact Hs|]. split; [exact H|].
  exact (proj1 (merge_sigw_z_heights_ordered ByHeight.missing_float
                  ByHeight.parts ByHeight.c ByHeight.after_man_wind
                  (z_merged ByHeight.finish) Hs H)).
Defined.
